(** * Product scanner: a shallow embedding of [server.js]

    The server has three request handlers.  [/api/vision] turns an uploaded
    image into a bundle of identification signals; [/api/openai/intent]
    turns such signals into a marketplace query; [/api/search] queries
    several marketplaces and returns a de-duplicated listing sequence.

    Repository code (guards, merges, fallbacks, the token cache, the
    de-duplication loop, the model-number heuristics) is translated function
    by function.  Calls that leave the repository (the vision client, sharp,
    the chat-completion client, axios, [JSON.parse], [parseFloat], [URL],
    number rendering, the clock) are answered by an explicit environment
    record, the way a test would answer them with stubs; every such call is
    also written to a trace, so that statements about which calls happen can
    be made about the trace. *)

From Stdlib Require Import List String Ascii ZArith Lia Bool Arith Floats.
Import ListNotations.
Local Open Scope string_scope.
Local Open Scope list_scope.
Local Open Scope nat_scope.
Local Set Warnings "-register-all".

(* ====================================================================== *)
(** * JavaScript values and strings *)
(* ====================================================================== *)

Module JS.

(** A value as [JSON.parse] can produce it, plus [undefined].  Numbers are
    IEEE-754 doubles. *)
Inductive jsval : Type :=
| VUndef
| VNull
| VBool (b : bool)
| VNum (x : float)
| VStr (s : string)
| VArr (items : list jsval)
| VObj (props : list (string * jsval)).

(** [ToBoolean] on numbers: [0], [-0] and [NaN] are falsy. *)
Definition num_truthy (x : float) : bool :=
  negb (PrimFloat.is_nan x || PrimFloat.is_zero x).

Definition str_truthy (s : string) : bool :=
  match s with EmptyString => false | _ => true end.

Definition truthy (v : jsval) : bool :=
  match v with
  | VUndef | VNull => false
  | VBool b => b
  | VNum x => num_truthy x
  | VStr s => str_truthy s
  | VArr _ | VObj _ => true
  end.

(** [a || b] *)
Definition js_or (a b : jsval) : jsval := if truthy a then a else b.

(** [s || t] on strings *)
Definition str_or (s t : string) : string := if str_truthy s then s else t.

Fixpoint assoc (k : string) (ps : list (string * jsval)) : jsval :=
  match ps with
  | [] => VUndef
  | (k', v) :: rest => if String.eqb k k' then v else assoc k rest
  end.

(** [v.k] for a property name [k] that no built-in prototype defines (all
    names read by the server are of that kind): [None] is the [TypeError]
    raised on [null] and [undefined]; primitives and arrays answer
    [undefined]. *)
Definition get_prop (v : jsval) (k : string) : option jsval :=
  match v with
  | VUndef | VNull => None
  | VObj ps => Some (assoc k ps)
  | _ => Some VUndef
  end.

(** Strings are kept in their UTF-8 encoding, one [ascii] per byte, which
    is what a string literal of this file denotes; a surrogate that has no
    partner is kept as the three bytes of its code point.  [ws_len l] is the number
    of bytes of the white-space character ([\s], [trim]) that [l] starts
    with, or [0]: TAB, LF, VT, FF, CR and SPACE; U+00A0; U+1680;
    U+2000..U+200A, U+2028, U+2029, U+202F; U+205F; U+3000; U+FEFF. *)
Definition ws_len (l : list ascii) : nat :=
  match map nat_of_ascii (firstn 3 l) with
  | a :: rest =>
      if ((9 <=? a) && (a <=? 13)) || (a =? 32) then 1
      else
        match rest with
        | b :: rest' =>
            if (a =? 194) && (b =? 160) then 2
            else
              match rest' with
              | c :: _ =>
                  if (a =? 225) && (b =? 154) && (c =? 128) then 3
                  else if (a =? 226) && (b =? 128)
                          && (((128 <=? c) && (c <=? 138)) || (c =? 168)
                              || (c =? 169) || (c =? 175)) then 3
                  else if (a =? 226) && (b =? 129) && (c =? 159) then 3
                  else if (a =? 227) && (b =? 128) && (c =? 128) then 3
                  else if (a =? 239) && (b =? 187) && (c =? 191) then 3
                  else 0
              | [] => 0
              end
        | [] => 0
        end
  | [] => 0
  end.

(** Leading white space removed; [skip] bytes of a white-space character
    are still to be dropped. *)
Fixpoint trim_start (skip : nat) (l : list ascii) : list ascii :=
  match l with
  | [] => []
  | _ :: t =>
      match skip with
      | S k => trim_start k t
      | 0 =>
          match ws_len l with
          | 0 => l
          | S k => trim_start k t
          end
      end
  end.

(** Trailing white space removed: white space is held back in [pending]
    until something else follows it. *)
Fixpoint trim_end (skip : nat) (pending l : list ascii) : list ascii :=
  match l with
  | [] => []
  | c :: t =>
      match skip with
      | S k => trim_end k (pending ++ [c]) t
      | 0 =>
          match ws_len l with
          | 0 => pending ++ c :: trim_end 0 [] t
          | S k => trim_end k (pending ++ [c]) t
          end
      end
  end.

(** [s.trim()] *)
Definition trim (s : string) : string :=
  string_of_list_ascii (trim_end 0 [] (trim_start 0 (list_ascii_of_string s))).

(** [s.replace(/\s+/g, ' ')]: every maximal run of white space becomes one
    space; [in_run] records that white space came just before. *)
Fixpoint collapse_ws (skip : nat) (in_run : bool) (l : list ascii) : list ascii :=
  match l with
  | [] => []
  | c :: t =>
      match skip with
      | S k => collapse_ws k in_run t
      | 0 =>
          match ws_len l with
          | 0 => c :: collapse_ws 0 false t
          | S k =>
              if in_run then collapse_ws k true t
              else " "%char :: collapse_ws k true t
          end
      end
  end.

Definition replace_ws_runs (s : string) : string :=
  string_of_list_ascii (collapse_ws 0 false (list_ascii_of_string s)).

(** Case mapping of the ASCII letters; other bytes are left alone. *)
Definition upper_char (c : ascii) : ascii :=
  let n := nat_of_ascii c in
  if (97 <=? n) && (n <=? 122) then ascii_of_nat (n - 32) else c.

Definition lower_char (c : ascii) : ascii :=
  let n := nat_of_ascii c in
  if (65 <=? n) && (n <=? 90) then ascii_of_nat (n + 32) else c.

(** ** Upper case

    [s.toUpperCase()] maps every character to its upper-case form in the
    Unicode character database, whatever the locale: the simple case pairs,
    and the unconditional special cases where one character becomes two or
    three.  [upper_table] lists, by code point, the characters outside ASCII
    that have an upper-case form other than themselves (Unicode 14). *)

Definition upper_table : list (N * list N) :=
  [
   (0xB5, [0x39C]); (0xDF, [0x53; 0x53]); (0xE0, [0xC0]); (0xE1, [0xC1]);
   (0xE2, [0xC2]); (0xE3, [0xC3]); (0xE4, [0xC4]); (0xE5, [0xC5]);
   (0xE6, [0xC6]); (0xE7, [0xC7]); (0xE8, [0xC8]); (0xE9, [0xC9]);
   (0xEA, [0xCA]); (0xEB, [0xCB]); (0xEC, [0xCC]); (0xED, [0xCD]);
   (0xEE, [0xCE]); (0xEF, [0xCF]); (0xF0, [0xD0]); (0xF1, [0xD1]);
   (0xF2, [0xD2]); (0xF3, [0xD3]); (0xF4, [0xD4]); (0xF5, [0xD5]);
   (0xF6, [0xD6]); (0xF8, [0xD8]); (0xF9, [0xD9]); (0xFA, [0xDA]);
   (0xFB, [0xDB]); (0xFC, [0xDC]); (0xFD, [0xDD]); (0xFE, [0xDE]);
   (0xFF, [0x178]); (0x101, [0x100]); (0x103, [0x102]); (0x105, [0x104]);
   (0x107, [0x106]); (0x109, [0x108]); (0x10B, [0x10A]); (0x10D, [0x10C]);
   (0x10F, [0x10E]); (0x111, [0x110]); (0x113, [0x112]); (0x115, [0x114]);
   (0x117, [0x116]); (0x119, [0x118]); (0x11B, [0x11A]); (0x11D, [0x11C]);
   (0x11F, [0x11E]); (0x121, [0x120]); (0x123, [0x122]); (0x125, [0x124]);
   (0x127, [0x126]); (0x129, [0x128]); (0x12B, [0x12A]); (0x12D, [0x12C]);
   (0x12F, [0x12E]); (0x131, [0x49]); (0x133, [0x132]); (0x135, [0x134]);
   (0x137, [0x136]); (0x13A, [0x139]); (0x13C, [0x13B]); (0x13E, [0x13D]);
   (0x140, [0x13F]); (0x142, [0x141]); (0x144, [0x143]); (0x146, [0x145]);
   (0x148, [0x147]); (0x149, [0x2BC; 0x4E]); (0x14B, [0x14A]); (0x14D, [0x14C]);
   (0x14F, [0x14E]); (0x151, [0x150]); (0x153, [0x152]); (0x155, [0x154]);
   (0x157, [0x156]); (0x159, [0x158]); (0x15B, [0x15A]); (0x15D, [0x15C]);
   (0x15F, [0x15E]); (0x161, [0x160]); (0x163, [0x162]); (0x165, [0x164]);
   (0x167, [0x166]); (0x169, [0x168]); (0x16B, [0x16A]); (0x16D, [0x16C]);
   (0x16F, [0x16E]); (0x171, [0x170]); (0x173, [0x172]); (0x175, [0x174]);
   (0x177, [0x176]); (0x17A, [0x179]); (0x17C, [0x17B]); (0x17E, [0x17D]);
   (0x17F, [0x53]); (0x180, [0x243]); (0x183, [0x182]); (0x185, [0x184]);
   (0x188, [0x187]); (0x18C, [0x18B]); (0x192, [0x191]); (0x195, [0x1F6]);
   (0x199, [0x198]); (0x19A, [0x23D]); (0x19E, [0x220]); (0x1A1, [0x1A0]);
   (0x1A3, [0x1A2]); (0x1A5, [0x1A4]); (0x1A8, [0x1A7]); (0x1AD, [0x1AC]);
   (0x1B0, [0x1AF]); (0x1B4, [0x1B3]); (0x1B6, [0x1B5]); (0x1B9, [0x1B8]);
   (0x1BD, [0x1BC]); (0x1BF, [0x1F7]); (0x1C5, [0x1C4]); (0x1C6, [0x1C4]);
   (0x1C8, [0x1C7]); (0x1C9, [0x1C7]); (0x1CB, [0x1CA]); (0x1CC, [0x1CA]);
   (0x1CE, [0x1CD]); (0x1D0, [0x1CF]); (0x1D2, [0x1D1]); (0x1D4, [0x1D3]);
   (0x1D6, [0x1D5]); (0x1D8, [0x1D7]); (0x1DA, [0x1D9]); (0x1DC, [0x1DB]);
   (0x1DD, [0x18E]); (0x1DF, [0x1DE]); (0x1E1, [0x1E0]); (0x1E3, [0x1E2]);
   (0x1E5, [0x1E4]); (0x1E7, [0x1E6]); (0x1E9, [0x1E8]); (0x1EB, [0x1EA]);
   (0x1ED, [0x1EC]); (0x1EF, [0x1EE]); (0x1F0, [0x4A; 0x30C]); (0x1F2, [0x1F1]);
   (0x1F3, [0x1F1]); (0x1F5, [0x1F4]); (0x1F9, [0x1F8]); (0x1FB, [0x1FA]);
   (0x1FD, [0x1FC]); (0x1FF, [0x1FE]); (0x201, [0x200]); (0x203, [0x202]);
   (0x205, [0x204]); (0x207, [0x206]); (0x209, [0x208]); (0x20B, [0x20A]);
   (0x20D, [0x20C]); (0x20F, [0x20E]); (0x211, [0x210]); (0x213, [0x212]);
   (0x215, [0x214]); (0x217, [0x216]); (0x219, [0x218]); (0x21B, [0x21A]);
   (0x21D, [0x21C]); (0x21F, [0x21E]); (0x223, [0x222]); (0x225, [0x224]);
   (0x227, [0x226]); (0x229, [0x228]); (0x22B, [0x22A]); (0x22D, [0x22C]);
   (0x22F, [0x22E]); (0x231, [0x230]); (0x233, [0x232]); (0x23C, [0x23B]);
   (0x23F, [0x2C7E]); (0x240, [0x2C7F]); (0x242, [0x241]); (0x247, [0x246]);
   (0x249, [0x248]); (0x24B, [0x24A]); (0x24D, [0x24C]); (0x24F, [0x24E]);
   (0x250, [0x2C6F]); (0x251, [0x2C6D]); (0x252, [0x2C70]); (0x253, [0x181]);
   (0x254, [0x186]); (0x256, [0x189]); (0x257, [0x18A]); (0x259, [0x18F]);
   (0x25B, [0x190]); (0x25C, [0xA7AB]); (0x260, [0x193]); (0x261, [0xA7AC]);
   (0x263, [0x194]); (0x265, [0xA78D]); (0x266, [0xA7AA]); (0x268, [0x197]);
   (0x269, [0x196]); (0x26A, [0xA7AE]); (0x26B, [0x2C62]); (0x26C, [0xA7AD]);
   (0x26F, [0x19C]); (0x271, [0x2C6E]); (0x272, [0x19D]); (0x275, [0x19F]);
   (0x27D, [0x2C64]); (0x280, [0x1A6]); (0x282, [0xA7C5]); (0x283, [0x1A9]);
   (0x287, [0xA7B1]); (0x288, [0x1AE]); (0x289, [0x244]); (0x28A, [0x1B1]);
   (0x28B, [0x1B2]); (0x28C, [0x245]); (0x292, [0x1B7]); (0x29D, [0xA7B2]);
   (0x29E, [0xA7B0]); (0x345, [0x399]); (0x371, [0x370]); (0x373, [0x372]);
   (0x377, [0x376]); (0x37B, [0x3FD]); (0x37C, [0x3FE]); (0x37D, [0x3FF]);
   (0x390, [0x399; 0x308; 0x301]); (0x3AC, [0x386]); (0x3AD, [0x388]); (0x3AE, [0x389]);
   (0x3AF, [0x38A]); (0x3B0, [0x3A5; 0x308; 0x301]); (0x3B1, [0x391]); (0x3B2, [0x392]);
   (0x3B3, [0x393]); (0x3B4, [0x394]); (0x3B5, [0x395]); (0x3B6, [0x396]);
   (0x3B7, [0x397]); (0x3B8, [0x398]); (0x3B9, [0x399]); (0x3BA, [0x39A]);
   (0x3BB, [0x39B]); (0x3BC, [0x39C]); (0x3BD, [0x39D]); (0x3BE, [0x39E]);
   (0x3BF, [0x39F]); (0x3C0, [0x3A0]); (0x3C1, [0x3A1]); (0x3C2, [0x3A3]);
   (0x3C3, [0x3A3]); (0x3C4, [0x3A4]); (0x3C5, [0x3A5]); (0x3C6, [0x3A6]);
   (0x3C7, [0x3A7]); (0x3C8, [0x3A8]); (0x3C9, [0x3A9]); (0x3CA, [0x3AA]);
   (0x3CB, [0x3AB]); (0x3CC, [0x38C]); (0x3CD, [0x38E]); (0x3CE, [0x38F]);
   (0x3D0, [0x392]); (0x3D1, [0x398]); (0x3D5, [0x3A6]); (0x3D6, [0x3A0]);
   (0x3D7, [0x3CF]); (0x3D9, [0x3D8]); (0x3DB, [0x3DA]); (0x3DD, [0x3DC]);
   (0x3DF, [0x3DE]); (0x3E1, [0x3E0]); (0x3E3, [0x3E2]); (0x3E5, [0x3E4]);
   (0x3E7, [0x3E6]); (0x3E9, [0x3E8]); (0x3EB, [0x3EA]); (0x3ED, [0x3EC]);
   (0x3EF, [0x3EE]); (0x3F0, [0x39A]); (0x3F1, [0x3A1]); (0x3F2, [0x3F9]);
   (0x3F3, [0x37F]); (0x3F5, [0x395]); (0x3F8, [0x3F7]); (0x3FB, [0x3FA]);
   (0x430, [0x410]); (0x431, [0x411]); (0x432, [0x412]); (0x433, [0x413]);
   (0x434, [0x414]); (0x435, [0x415]); (0x436, [0x416]); (0x437, [0x417]);
   (0x438, [0x418]); (0x439, [0x419]); (0x43A, [0x41A]); (0x43B, [0x41B]);
   (0x43C, [0x41C]); (0x43D, [0x41D]); (0x43E, [0x41E]); (0x43F, [0x41F]);
   (0x440, [0x420]); (0x441, [0x421]); (0x442, [0x422]); (0x443, [0x423]);
   (0x444, [0x424]); (0x445, [0x425]); (0x446, [0x426]); (0x447, [0x427]);
   (0x448, [0x428]); (0x449, [0x429]); (0x44A, [0x42A]); (0x44B, [0x42B]);
   (0x44C, [0x42C]); (0x44D, [0x42D]); (0x44E, [0x42E]); (0x44F, [0x42F]);
   (0x450, [0x400]); (0x451, [0x401]); (0x452, [0x402]); (0x453, [0x403]);
   (0x454, [0x404]); (0x455, [0x405]); (0x456, [0x406]); (0x457, [0x407]);
   (0x458, [0x408]); (0x459, [0x409]); (0x45A, [0x40A]); (0x45B, [0x40B]);
   (0x45C, [0x40C]); (0x45D, [0x40D]); (0x45E, [0x40E]); (0x45F, [0x40F]);
   (0x461, [0x460]); (0x463, [0x462]); (0x465, [0x464]); (0x467, [0x466]);
   (0x469, [0x468]); (0x46B, [0x46A]); (0x46D, [0x46C]); (0x46F, [0x46E]);
   (0x471, [0x470]); (0x473, [0x472]); (0x475, [0x474]); (0x477, [0x476]);
   (0x479, [0x478]); (0x47B, [0x47A]); (0x47D, [0x47C]); (0x47F, [0x47E]);
   (0x481, [0x480]); (0x48B, [0x48A]); (0x48D, [0x48C]); (0x48F, [0x48E]);
   (0x491, [0x490]); (0x493, [0x492]); (0x495, [0x494]); (0x497, [0x496]);
   (0x499, [0x498]); (0x49B, [0x49A]); (0x49D, [0x49C]); (0x49F, [0x49E]);
   (0x4A1, [0x4A0]); (0x4A3, [0x4A2]); (0x4A5, [0x4A4]); (0x4A7, [0x4A6]);
   (0x4A9, [0x4A8]); (0x4AB, [0x4AA]); (0x4AD, [0x4AC]); (0x4AF, [0x4AE]);
   (0x4B1, [0x4B0]); (0x4B3, [0x4B2]); (0x4B5, [0x4B4]); (0x4B7, [0x4B6]);
   (0x4B9, [0x4B8]); (0x4BB, [0x4BA]); (0x4BD, [0x4BC]); (0x4BF, [0x4BE]);
   (0x4C2, [0x4C1]); (0x4C4, [0x4C3]); (0x4C6, [0x4C5]); (0x4C8, [0x4C7]);
   (0x4CA, [0x4C9]); (0x4CC, [0x4CB]); (0x4CE, [0x4CD]); (0x4CF, [0x4C0]);
   (0x4D1, [0x4D0]); (0x4D3, [0x4D2]); (0x4D5, [0x4D4]); (0x4D7, [0x4D6]);
   (0x4D9, [0x4D8]); (0x4DB, [0x4DA]); (0x4DD, [0x4DC]); (0x4DF, [0x4DE]);
   (0x4E1, [0x4E0]); (0x4E3, [0x4E2]); (0x4E5, [0x4E4]); (0x4E7, [0x4E6]);
   (0x4E9, [0x4E8]); (0x4EB, [0x4EA]); (0x4ED, [0x4EC]); (0x4EF, [0x4EE]);
   (0x4F1, [0x4F0]); (0x4F3, [0x4F2]); (0x4F5, [0x4F4]); (0x4F7, [0x4F6]);
   (0x4F9, [0x4F8]); (0x4FB, [0x4FA]); (0x4FD, [0x4FC]); (0x4FF, [0x4FE]);
   (0x501, [0x500]); (0x503, [0x502]); (0x505, [0x504]); (0x507, [0x506]);
   (0x509, [0x508]); (0x50B, [0x50A]); (0x50D, [0x50C]); (0x50F, [0x50E]);
   (0x511, [0x510]); (0x513, [0x512]); (0x515, [0x514]); (0x517, [0x516]);
   (0x519, [0x518]); (0x51B, [0x51A]); (0x51D, [0x51C]); (0x51F, [0x51E]);
   (0x521, [0x520]); (0x523, [0x522]); (0x525, [0x524]); (0x527, [0x526]);
   (0x529, [0x528]); (0x52B, [0x52A]); (0x52D, [0x52C]); (0x52F, [0x52E]);
   (0x561, [0x531]); (0x562, [0x532]); (0x563, [0x533]); (0x564, [0x534]);
   (0x565, [0x535]); (0x566, [0x536]); (0x567, [0x537]); (0x568, [0x538]);
   (0x569, [0x539]); (0x56A, [0x53A]); (0x56B, [0x53B]); (0x56C, [0x53C]);
   (0x56D, [0x53D]); (0x56E, [0x53E]); (0x56F, [0x53F]); (0x570, [0x540]);
   (0x571, [0x541]); (0x572, [0x542]); (0x573, [0x543]); (0x574, [0x544]);
   (0x575, [0x545]); (0x576, [0x546]); (0x577, [0x547]); (0x578, [0x548]);
   (0x579, [0x549]); (0x57A, [0x54A]); (0x57B, [0x54B]); (0x57C, [0x54C]);
   (0x57D, [0x54D]); (0x57E, [0x54E]); (0x57F, [0x54F]); (0x580, [0x550]);
   (0x581, [0x551]); (0x582, [0x552]); (0x583, [0x553]); (0x584, [0x554]);
   (0x585, [0x555]); (0x586, [0x556]); (0x587, [0x535; 0x552]); (0x10D0, [0x1C90]);
   (0x10D1, [0x1C91]); (0x10D2, [0x1C92]); (0x10D3, [0x1C93]); (0x10D4, [0x1C94]);
   (0x10D5, [0x1C95]); (0x10D6, [0x1C96]); (0x10D7, [0x1C97]); (0x10D8, [0x1C98]);
   (0x10D9, [0x1C99]); (0x10DA, [0x1C9A]); (0x10DB, [0x1C9B]); (0x10DC, [0x1C9C]);
   (0x10DD, [0x1C9D]); (0x10DE, [0x1C9E]); (0x10DF, [0x1C9F]); (0x10E0, [0x1CA0]);
   (0x10E1, [0x1CA1]); (0x10E2, [0x1CA2]); (0x10E3, [0x1CA3]); (0x10E4, [0x1CA4]);
   (0x10E5, [0x1CA5]); (0x10E6, [0x1CA6]); (0x10E7, [0x1CA7]); (0x10E8, [0x1CA8]);
   (0x10E9, [0x1CA9]); (0x10EA, [0x1CAA]); (0x10EB, [0x1CAB]); (0x10EC, [0x1CAC]);
   (0x10ED, [0x1CAD]); (0x10EE, [0x1CAE]); (0x10EF, [0x1CAF]); (0x10F0, [0x1CB0]);
   (0x10F1, [0x1CB1]); (0x10F2, [0x1CB2]); (0x10F3, [0x1CB3]); (0x10F4, [0x1CB4]);
   (0x10F5, [0x1CB5]); (0x10F6, [0x1CB6]); (0x10F7, [0x1CB7]); (0x10F8, [0x1CB8]);
   (0x10F9, [0x1CB9]); (0x10FA, [0x1CBA]); (0x10FD, [0x1CBD]); (0x10FE, [0x1CBE]);
   (0x10FF, [0x1CBF]); (0x13F8, [0x13F0]); (0x13F9, [0x13F1]); (0x13FA, [0x13F2]);
   (0x13FB, [0x13F3]); (0x13FC, [0x13F4]); (0x13FD, [0x13F5]); (0x1C80, [0x412]);
   (0x1C81, [0x414]); (0x1C82, [0x41E]); (0x1C83, [0x421]); (0x1C84, [0x422]);
   (0x1C85, [0x422]); (0x1C86, [0x42A]); (0x1C87, [0x462]); (0x1C88, [0xA64A]);
   (0x1D79, [0xA77D]); (0x1D7D, [0x2C63]); (0x1D8E, [0xA7C6]); (0x1E01, [0x1E00]);
   (0x1E03, [0x1E02]); (0x1E05, [0x1E04]); (0x1E07, [0x1E06]); (0x1E09, [0x1E08]);
   (0x1E0B, [0x1E0A]); (0x1E0D, [0x1E0C]); (0x1E0F, [0x1E0E]); (0x1E11, [0x1E10]);
   (0x1E13, [0x1E12]); (0x1E15, [0x1E14]); (0x1E17, [0x1E16]); (0x1E19, [0x1E18]);
   (0x1E1B, [0x1E1A]); (0x1E1D, [0x1E1C]); (0x1E1F, [0x1E1E]); (0x1E21, [0x1E20]);
   (0x1E23, [0x1E22]); (0x1E25, [0x1E24]); (0x1E27, [0x1E26]); (0x1E29, [0x1E28]);
   (0x1E2B, [0x1E2A]); (0x1E2D, [0x1E2C]); (0x1E2F, [0x1E2E]); (0x1E31, [0x1E30]);
   (0x1E33, [0x1E32]); (0x1E35, [0x1E34]); (0x1E37, [0x1E36]); (0x1E39, [0x1E38]);
   (0x1E3B, [0x1E3A]); (0x1E3D, [0x1E3C]); (0x1E3F, [0x1E3E]); (0x1E41, [0x1E40]);
   (0x1E43, [0x1E42]); (0x1E45, [0x1E44]); (0x1E47, [0x1E46]); (0x1E49, [0x1E48]);
   (0x1E4B, [0x1E4A]); (0x1E4D, [0x1E4C]); (0x1E4F, [0x1E4E]); (0x1E51, [0x1E50]);
   (0x1E53, [0x1E52]); (0x1E55, [0x1E54]); (0x1E57, [0x1E56]); (0x1E59, [0x1E58]);
   (0x1E5B, [0x1E5A]); (0x1E5D, [0x1E5C]); (0x1E5F, [0x1E5E]); (0x1E61, [0x1E60]);
   (0x1E63, [0x1E62]); (0x1E65, [0x1E64]); (0x1E67, [0x1E66]); (0x1E69, [0x1E68]);
   (0x1E6B, [0x1E6A]); (0x1E6D, [0x1E6C]); (0x1E6F, [0x1E6E]); (0x1E71, [0x1E70]);
   (0x1E73, [0x1E72]); (0x1E75, [0x1E74]); (0x1E77, [0x1E76]); (0x1E79, [0x1E78]);
   (0x1E7B, [0x1E7A]); (0x1E7D, [0x1E7C]); (0x1E7F, [0x1E7E]); (0x1E81, [0x1E80]);
   (0x1E83, [0x1E82]); (0x1E85, [0x1E84]); (0x1E87, [0x1E86]); (0x1E89, [0x1E88]);
   (0x1E8B, [0x1E8A]); (0x1E8D, [0x1E8C]); (0x1E8F, [0x1E8E]); (0x1E91, [0x1E90]);
   (0x1E93, [0x1E92]); (0x1E95, [0x1E94]); (0x1E96, [0x48; 0x331]); (0x1E97, [0x54; 0x308]);
   (0x1E98, [0x57; 0x30A]); (0x1E99, [0x59; 0x30A]); (0x1E9A, [0x41; 0x2BE]); (0x1E9B, [0x1E60]);
   (0x1EA1, [0x1EA0]); (0x1EA3, [0x1EA2]); (0x1EA5, [0x1EA4]); (0x1EA7, [0x1EA6]);
   (0x1EA9, [0x1EA8]); (0x1EAB, [0x1EAA]); (0x1EAD, [0x1EAC]); (0x1EAF, [0x1EAE]);
   (0x1EB1, [0x1EB0]); (0x1EB3, [0x1EB2]); (0x1EB5, [0x1EB4]); (0x1EB7, [0x1EB6]);
   (0x1EB9, [0x1EB8]); (0x1EBB, [0x1EBA]); (0x1EBD, [0x1EBC]); (0x1EBF, [0x1EBE]);
   (0x1EC1, [0x1EC0]); (0x1EC3, [0x1EC2]); (0x1EC5, [0x1EC4]); (0x1EC7, [0x1EC6]);
   (0x1EC9, [0x1EC8]); (0x1ECB, [0x1ECA]); (0x1ECD, [0x1ECC]); (0x1ECF, [0x1ECE]);
   (0x1ED1, [0x1ED0]); (0x1ED3, [0x1ED2]); (0x1ED5, [0x1ED4]); (0x1ED7, [0x1ED6]);
   (0x1ED9, [0x1ED8]); (0x1EDB, [0x1EDA]); (0x1EDD, [0x1EDC]); (0x1EDF, [0x1EDE]);
   (0x1EE1, [0x1EE0]); (0x1EE3, [0x1EE2]); (0x1EE5, [0x1EE4]); (0x1EE7, [0x1EE6]);
   (0x1EE9, [0x1EE8]); (0x1EEB, [0x1EEA]); (0x1EED, [0x1EEC]); (0x1EEF, [0x1EEE]);
   (0x1EF1, [0x1EF0]); (0x1EF3, [0x1EF2]); (0x1EF5, [0x1EF4]); (0x1EF7, [0x1EF6]);
   (0x1EF9, [0x1EF8]); (0x1EFB, [0x1EFA]); (0x1EFD, [0x1EFC]); (0x1EFF, [0x1EFE]);
   (0x1F00, [0x1F08]); (0x1F01, [0x1F09]); (0x1F02, [0x1F0A]); (0x1F03, [0x1F0B]);
   (0x1F04, [0x1F0C]); (0x1F05, [0x1F0D]); (0x1F06, [0x1F0E]); (0x1F07, [0x1F0F]);
   (0x1F10, [0x1F18]); (0x1F11, [0x1F19]); (0x1F12, [0x1F1A]); (0x1F13, [0x1F1B]);
   (0x1F14, [0x1F1C]); (0x1F15, [0x1F1D]); (0x1F20, [0x1F28]); (0x1F21, [0x1F29]);
   (0x1F22, [0x1F2A]); (0x1F23, [0x1F2B]); (0x1F24, [0x1F2C]); (0x1F25, [0x1F2D]);
   (0x1F26, [0x1F2E]); (0x1F27, [0x1F2F]); (0x1F30, [0x1F38]); (0x1F31, [0x1F39]);
   (0x1F32, [0x1F3A]); (0x1F33, [0x1F3B]); (0x1F34, [0x1F3C]); (0x1F35, [0x1F3D]);
   (0x1F36, [0x1F3E]); (0x1F37, [0x1F3F]); (0x1F40, [0x1F48]); (0x1F41, [0x1F49]);
   (0x1F42, [0x1F4A]); (0x1F43, [0x1F4B]); (0x1F44, [0x1F4C]); (0x1F45, [0x1F4D]);
   (0x1F50, [0x3A5; 0x313]); (0x1F51, [0x1F59]); (0x1F52, [0x3A5; 0x313; 0x300]); (0x1F53, [0x1F5B]);
   (0x1F54, [0x3A5; 0x313; 0x301]); (0x1F55, [0x1F5D]); (0x1F56, [0x3A5; 0x313; 0x342]); (0x1F57, [0x1F5F]);
   (0x1F60, [0x1F68]); (0x1F61, [0x1F69]); (0x1F62, [0x1F6A]); (0x1F63, [0x1F6B]);
   (0x1F64, [0x1F6C]); (0x1F65, [0x1F6D]); (0x1F66, [0x1F6E]); (0x1F67, [0x1F6F]);
   (0x1F70, [0x1FBA]); (0x1F71, [0x1FBB]); (0x1F72, [0x1FC8]); (0x1F73, [0x1FC9]);
   (0x1F74, [0x1FCA]); (0x1F75, [0x1FCB]); (0x1F76, [0x1FDA]); (0x1F77, [0x1FDB]);
   (0x1F78, [0x1FF8]); (0x1F79, [0x1FF9]); (0x1F7A, [0x1FEA]); (0x1F7B, [0x1FEB]);
   (0x1F7C, [0x1FFA]); (0x1F7D, [0x1FFB]); (0x1F80, [0x1F08; 0x399]); (0x1F81, [0x1F09; 0x399]);
   (0x1F82, [0x1F0A; 0x399]); (0x1F83, [0x1F0B; 0x399]); (0x1F84, [0x1F0C; 0x399]); (0x1F85, [0x1F0D; 0x399]);
   (0x1F86, [0x1F0E; 0x399]); (0x1F87, [0x1F0F; 0x399]); (0x1F88, [0x1F08; 0x399]); (0x1F89, [0x1F09; 0x399]);
   (0x1F8A, [0x1F0A; 0x399]); (0x1F8B, [0x1F0B; 0x399]); (0x1F8C, [0x1F0C; 0x399]); (0x1F8D, [0x1F0D; 0x399]);
   (0x1F8E, [0x1F0E; 0x399]); (0x1F8F, [0x1F0F; 0x399]); (0x1F90, [0x1F28; 0x399]); (0x1F91, [0x1F29; 0x399]);
   (0x1F92, [0x1F2A; 0x399]); (0x1F93, [0x1F2B; 0x399]); (0x1F94, [0x1F2C; 0x399]); (0x1F95, [0x1F2D; 0x399]);
   (0x1F96, [0x1F2E; 0x399]); (0x1F97, [0x1F2F; 0x399]); (0x1F98, [0x1F28; 0x399]); (0x1F99, [0x1F29; 0x399]);
   (0x1F9A, [0x1F2A; 0x399]); (0x1F9B, [0x1F2B; 0x399]); (0x1F9C, [0x1F2C; 0x399]); (0x1F9D, [0x1F2D; 0x399]);
   (0x1F9E, [0x1F2E; 0x399]); (0x1F9F, [0x1F2F; 0x399]); (0x1FA0, [0x1F68; 0x399]); (0x1FA1, [0x1F69; 0x399]);
   (0x1FA2, [0x1F6A; 0x399]); (0x1FA3, [0x1F6B; 0x399]); (0x1FA4, [0x1F6C; 0x399]); (0x1FA5, [0x1F6D; 0x399]);
   (0x1FA6, [0x1F6E; 0x399]); (0x1FA7, [0x1F6F; 0x399]); (0x1FA8, [0x1F68; 0x399]); (0x1FA9, [0x1F69; 0x399]);
   (0x1FAA, [0x1F6A; 0x399]); (0x1FAB, [0x1F6B; 0x399]); (0x1FAC, [0x1F6C; 0x399]); (0x1FAD, [0x1F6D; 0x399]);
   (0x1FAE, [0x1F6E; 0x399]); (0x1FAF, [0x1F6F; 0x399]); (0x1FB0, [0x1FB8]); (0x1FB1, [0x1FB9]);
   (0x1FB2, [0x1FBA; 0x399]); (0x1FB3, [0x391; 0x399]); (0x1FB4, [0x386; 0x399]); (0x1FB6, [0x391; 0x342]);
   (0x1FB7, [0x391; 0x342; 0x399]); (0x1FBC, [0x391; 0x399]); (0x1FBE, [0x399]); (0x1FC2, [0x1FCA; 0x399]);
   (0x1FC3, [0x397; 0x399]); (0x1FC4, [0x389; 0x399]); (0x1FC6, [0x397; 0x342]); (0x1FC7, [0x397; 0x342; 0x399]);
   (0x1FCC, [0x397; 0x399]); (0x1FD0, [0x1FD8]); (0x1FD1, [0x1FD9]); (0x1FD2, [0x399; 0x308; 0x300]);
   (0x1FD3, [0x399; 0x308; 0x301]); (0x1FD6, [0x399; 0x342]); (0x1FD7, [0x399; 0x308; 0x342]); (0x1FE0, [0x1FE8]);
   (0x1FE1, [0x1FE9]); (0x1FE2, [0x3A5; 0x308; 0x300]); (0x1FE3, [0x3A5; 0x308; 0x301]); (0x1FE4, [0x3A1; 0x313]);
   (0x1FE5, [0x1FEC]); (0x1FE6, [0x3A5; 0x342]); (0x1FE7, [0x3A5; 0x308; 0x342]); (0x1FF2, [0x1FFA; 0x399]);
   (0x1FF3, [0x3A9; 0x399]); (0x1FF4, [0x38F; 0x399]); (0x1FF6, [0x3A9; 0x342]); (0x1FF7, [0x3A9; 0x342; 0x399]);
   (0x1FFC, [0x3A9; 0x399]); (0x214E, [0x2132]); (0x2170, [0x2160]); (0x2171, [0x2161]);
   (0x2172, [0x2162]); (0x2173, [0x2163]); (0x2174, [0x2164]); (0x2175, [0x2165]);
   (0x2176, [0x2166]); (0x2177, [0x2167]); (0x2178, [0x2168]); (0x2179, [0x2169]);
   (0x217A, [0x216A]); (0x217B, [0x216B]); (0x217C, [0x216C]); (0x217D, [0x216D]);
   (0x217E, [0x216E]); (0x217F, [0x216F]); (0x2184, [0x2183]); (0x24D0, [0x24B6]);
   (0x24D1, [0x24B7]); (0x24D2, [0x24B8]); (0x24D3, [0x24B9]); (0x24D4, [0x24BA]);
   (0x24D5, [0x24BB]); (0x24D6, [0x24BC]); (0x24D7, [0x24BD]); (0x24D8, [0x24BE]);
   (0x24D9, [0x24BF]); (0x24DA, [0x24C0]); (0x24DB, [0x24C1]); (0x24DC, [0x24C2]);
   (0x24DD, [0x24C3]); (0x24DE, [0x24C4]); (0x24DF, [0x24C5]); (0x24E0, [0x24C6]);
   (0x24E1, [0x24C7]); (0x24E2, [0x24C8]); (0x24E3, [0x24C9]); (0x24E4, [0x24CA]);
   (0x24E5, [0x24CB]); (0x24E6, [0x24CC]); (0x24E7, [0x24CD]); (0x24E8, [0x24CE]);
   (0x24E9, [0x24CF]); (0x2C30, [0x2C00]); (0x2C31, [0x2C01]); (0x2C32, [0x2C02]);
   (0x2C33, [0x2C03]); (0x2C34, [0x2C04]); (0x2C35, [0x2C05]); (0x2C36, [0x2C06]);
   (0x2C37, [0x2C07]); (0x2C38, [0x2C08]); (0x2C39, [0x2C09]); (0x2C3A, [0x2C0A]);
   (0x2C3B, [0x2C0B]); (0x2C3C, [0x2C0C]); (0x2C3D, [0x2C0D]); (0x2C3E, [0x2C0E]);
   (0x2C3F, [0x2C0F]); (0x2C40, [0x2C10]); (0x2C41, [0x2C11]); (0x2C42, [0x2C12]);
   (0x2C43, [0x2C13]); (0x2C44, [0x2C14]); (0x2C45, [0x2C15]); (0x2C46, [0x2C16]);
   (0x2C47, [0x2C17]); (0x2C48, [0x2C18]); (0x2C49, [0x2C19]); (0x2C4A, [0x2C1A]);
   (0x2C4B, [0x2C1B]); (0x2C4C, [0x2C1C]); (0x2C4D, [0x2C1D]); (0x2C4E, [0x2C1E]);
   (0x2C4F, [0x2C1F]); (0x2C50, [0x2C20]); (0x2C51, [0x2C21]); (0x2C52, [0x2C22]);
   (0x2C53, [0x2C23]); (0x2C54, [0x2C24]); (0x2C55, [0x2C25]); (0x2C56, [0x2C26]);
   (0x2C57, [0x2C27]); (0x2C58, [0x2C28]); (0x2C59, [0x2C29]); (0x2C5A, [0x2C2A]);
   (0x2C5B, [0x2C2B]); (0x2C5C, [0x2C2C]); (0x2C5D, [0x2C2D]); (0x2C5E, [0x2C2E]);
   (0x2C5F, [0x2C2F]); (0x2C61, [0x2C60]); (0x2C65, [0x23A]); (0x2C66, [0x23E]);
   (0x2C68, [0x2C67]); (0x2C6A, [0x2C69]); (0x2C6C, [0x2C6B]); (0x2C73, [0x2C72]);
   (0x2C76, [0x2C75]); (0x2C81, [0x2C80]); (0x2C83, [0x2C82]); (0x2C85, [0x2C84]);
   (0x2C87, [0x2C86]); (0x2C89, [0x2C88]); (0x2C8B, [0x2C8A]); (0x2C8D, [0x2C8C]);
   (0x2C8F, [0x2C8E]); (0x2C91, [0x2C90]); (0x2C93, [0x2C92]); (0x2C95, [0x2C94]);
   (0x2C97, [0x2C96]); (0x2C99, [0x2C98]); (0x2C9B, [0x2C9A]); (0x2C9D, [0x2C9C]);
   (0x2C9F, [0x2C9E]); (0x2CA1, [0x2CA0]); (0x2CA3, [0x2CA2]); (0x2CA5, [0x2CA4]);
   (0x2CA7, [0x2CA6]); (0x2CA9, [0x2CA8]); (0x2CAB, [0x2CAA]); (0x2CAD, [0x2CAC]);
   (0x2CAF, [0x2CAE]); (0x2CB1, [0x2CB0]); (0x2CB3, [0x2CB2]); (0x2CB5, [0x2CB4]);
   (0x2CB7, [0x2CB6]); (0x2CB9, [0x2CB8]); (0x2CBB, [0x2CBA]); (0x2CBD, [0x2CBC]);
   (0x2CBF, [0x2CBE]); (0x2CC1, [0x2CC0]); (0x2CC3, [0x2CC2]); (0x2CC5, [0x2CC4]);
   (0x2CC7, [0x2CC6]); (0x2CC9, [0x2CC8]); (0x2CCB, [0x2CCA]); (0x2CCD, [0x2CCC]);
   (0x2CCF, [0x2CCE]); (0x2CD1, [0x2CD0]); (0x2CD3, [0x2CD2]); (0x2CD5, [0x2CD4]);
   (0x2CD7, [0x2CD6]); (0x2CD9, [0x2CD8]); (0x2CDB, [0x2CDA]); (0x2CDD, [0x2CDC]);
   (0x2CDF, [0x2CDE]); (0x2CE1, [0x2CE0]); (0x2CE3, [0x2CE2]); (0x2CEC, [0x2CEB]);
   (0x2CEE, [0x2CED]); (0x2CF3, [0x2CF2]); (0x2D00, [0x10A0]); (0x2D01, [0x10A1]);
   (0x2D02, [0x10A2]); (0x2D03, [0x10A3]); (0x2D04, [0x10A4]); (0x2D05, [0x10A5]);
   (0x2D06, [0x10A6]); (0x2D07, [0x10A7]); (0x2D08, [0x10A8]); (0x2D09, [0x10A9]);
   (0x2D0A, [0x10AA]); (0x2D0B, [0x10AB]); (0x2D0C, [0x10AC]); (0x2D0D, [0x10AD]);
   (0x2D0E, [0x10AE]); (0x2D0F, [0x10AF]); (0x2D10, [0x10B0]); (0x2D11, [0x10B1]);
   (0x2D12, [0x10B2]); (0x2D13, [0x10B3]); (0x2D14, [0x10B4]); (0x2D15, [0x10B5]);
   (0x2D16, [0x10B6]); (0x2D17, [0x10B7]); (0x2D18, [0x10B8]); (0x2D19, [0x10B9]);
   (0x2D1A, [0x10BA]); (0x2D1B, [0x10BB]); (0x2D1C, [0x10BC]); (0x2D1D, [0x10BD]);
   (0x2D1E, [0x10BE]); (0x2D1F, [0x10BF]); (0x2D20, [0x10C0]); (0x2D21, [0x10C1]);
   (0x2D22, [0x10C2]); (0x2D23, [0x10C3]); (0x2D24, [0x10C4]); (0x2D25, [0x10C5]);
   (0x2D27, [0x10C7]); (0x2D2D, [0x10CD]); (0xA641, [0xA640]); (0xA643, [0xA642]);
   (0xA645, [0xA644]); (0xA647, [0xA646]); (0xA649, [0xA648]); (0xA64B, [0xA64A]);
   (0xA64D, [0xA64C]); (0xA64F, [0xA64E]); (0xA651, [0xA650]); (0xA653, [0xA652]);
   (0xA655, [0xA654]); (0xA657, [0xA656]); (0xA659, [0xA658]); (0xA65B, [0xA65A]);
   (0xA65D, [0xA65C]); (0xA65F, [0xA65E]); (0xA661, [0xA660]); (0xA663, [0xA662]);
   (0xA665, [0xA664]); (0xA667, [0xA666]); (0xA669, [0xA668]); (0xA66B, [0xA66A]);
   (0xA66D, [0xA66C]); (0xA681, [0xA680]); (0xA683, [0xA682]); (0xA685, [0xA684]);
   (0xA687, [0xA686]); (0xA689, [0xA688]); (0xA68B, [0xA68A]); (0xA68D, [0xA68C]);
   (0xA68F, [0xA68E]); (0xA691, [0xA690]); (0xA693, [0xA692]); (0xA695, [0xA694]);
   (0xA697, [0xA696]); (0xA699, [0xA698]); (0xA69B, [0xA69A]); (0xA723, [0xA722]);
   (0xA725, [0xA724]); (0xA727, [0xA726]); (0xA729, [0xA728]); (0xA72B, [0xA72A]);
   (0xA72D, [0xA72C]); (0xA72F, [0xA72E]); (0xA733, [0xA732]); (0xA735, [0xA734]);
   (0xA737, [0xA736]); (0xA739, [0xA738]); (0xA73B, [0xA73A]); (0xA73D, [0xA73C]);
   (0xA73F, [0xA73E]); (0xA741, [0xA740]); (0xA743, [0xA742]); (0xA745, [0xA744]);
   (0xA747, [0xA746]); (0xA749, [0xA748]); (0xA74B, [0xA74A]); (0xA74D, [0xA74C]);
   (0xA74F, [0xA74E]); (0xA751, [0xA750]); (0xA753, [0xA752]); (0xA755, [0xA754]);
   (0xA757, [0xA756]); (0xA759, [0xA758]); (0xA75B, [0xA75A]); (0xA75D, [0xA75C]);
   (0xA75F, [0xA75E]); (0xA761, [0xA760]); (0xA763, [0xA762]); (0xA765, [0xA764]);
   (0xA767, [0xA766]); (0xA769, [0xA768]); (0xA76B, [0xA76A]); (0xA76D, [0xA76C]);
   (0xA76F, [0xA76E]); (0xA77A, [0xA779]); (0xA77C, [0xA77B]); (0xA77F, [0xA77E]);
   (0xA781, [0xA780]); (0xA783, [0xA782]); (0xA785, [0xA784]); (0xA787, [0xA786]);
   (0xA78C, [0xA78B]); (0xA791, [0xA790]); (0xA793, [0xA792]); (0xA794, [0xA7C4]);
   (0xA797, [0xA796]); (0xA799, [0xA798]); (0xA79B, [0xA79A]); (0xA79D, [0xA79C]);
   (0xA79F, [0xA79E]); (0xA7A1, [0xA7A0]); (0xA7A3, [0xA7A2]); (0xA7A5, [0xA7A4]);
   (0xA7A7, [0xA7A6]); (0xA7A9, [0xA7A8]); (0xA7B5, [0xA7B4]); (0xA7B7, [0xA7B6]);
   (0xA7B9, [0xA7B8]); (0xA7BB, [0xA7BA]); (0xA7BD, [0xA7BC]); (0xA7BF, [0xA7BE]);
   (0xA7C1, [0xA7C0]); (0xA7C3, [0xA7C2]); (0xA7C8, [0xA7C7]); (0xA7CA, [0xA7C9]);
   (0xA7D1, [0xA7D0]); (0xA7D7, [0xA7D6]); (0xA7D9, [0xA7D8]); (0xA7F6, [0xA7F5]);
   (0xAB53, [0xA7B3]); (0xAB70, [0x13A0]); (0xAB71, [0x13A1]); (0xAB72, [0x13A2]);
   (0xAB73, [0x13A3]); (0xAB74, [0x13A4]); (0xAB75, [0x13A5]); (0xAB76, [0x13A6]);
   (0xAB77, [0x13A7]); (0xAB78, [0x13A8]); (0xAB79, [0x13A9]); (0xAB7A, [0x13AA]);
   (0xAB7B, [0x13AB]); (0xAB7C, [0x13AC]); (0xAB7D, [0x13AD]); (0xAB7E, [0x13AE]);
   (0xAB7F, [0x13AF]); (0xAB80, [0x13B0]); (0xAB81, [0x13B1]); (0xAB82, [0x13B2]);
   (0xAB83, [0x13B3]); (0xAB84, [0x13B4]); (0xAB85, [0x13B5]); (0xAB86, [0x13B6]);
   (0xAB87, [0x13B7]); (0xAB88, [0x13B8]); (0xAB89, [0x13B9]); (0xAB8A, [0x13BA]);
   (0xAB8B, [0x13BB]); (0xAB8C, [0x13BC]); (0xAB8D, [0x13BD]); (0xAB8E, [0x13BE]);
   (0xAB8F, [0x13BF]); (0xAB90, [0x13C0]); (0xAB91, [0x13C1]); (0xAB92, [0x13C2]);
   (0xAB93, [0x13C3]); (0xAB94, [0x13C4]); (0xAB95, [0x13C5]); (0xAB96, [0x13C6]);
   (0xAB97, [0x13C7]); (0xAB98, [0x13C8]); (0xAB99, [0x13C9]); (0xAB9A, [0x13CA]);
   (0xAB9B, [0x13CB]); (0xAB9C, [0x13CC]); (0xAB9D, [0x13CD]); (0xAB9E, [0x13CE]);
   (0xAB9F, [0x13CF]); (0xABA0, [0x13D0]); (0xABA1, [0x13D1]); (0xABA2, [0x13D2]);
   (0xABA3, [0x13D3]); (0xABA4, [0x13D4]); (0xABA5, [0x13D5]); (0xABA6, [0x13D6]);
   (0xABA7, [0x13D7]); (0xABA8, [0x13D8]); (0xABA9, [0x13D9]); (0xABAA, [0x13DA]);
   (0xABAB, [0x13DB]); (0xABAC, [0x13DC]); (0xABAD, [0x13DD]); (0xABAE, [0x13DE]);
   (0xABAF, [0x13DF]); (0xABB0, [0x13E0]); (0xABB1, [0x13E1]); (0xABB2, [0x13E2]);
   (0xABB3, [0x13E3]); (0xABB4, [0x13E4]); (0xABB5, [0x13E5]); (0xABB6, [0x13E6]);
   (0xABB7, [0x13E7]); (0xABB8, [0x13E8]); (0xABB9, [0x13E9]); (0xABBA, [0x13EA]);
   (0xABBB, [0x13EB]); (0xABBC, [0x13EC]); (0xABBD, [0x13ED]); (0xABBE, [0x13EE]);
   (0xABBF, [0x13EF]); (0xFB00, [0x46; 0x46]); (0xFB01, [0x46; 0x49]); (0xFB02, [0x46; 0x4C]);
   (0xFB03, [0x46; 0x46; 0x49]); (0xFB04, [0x46; 0x46; 0x4C]); (0xFB05, [0x53; 0x54]); (0xFB06, [0x53; 0x54]);
   (0xFB13, [0x544; 0x546]); (0xFB14, [0x544; 0x535]); (0xFB15, [0x544; 0x53B]); (0xFB16, [0x54E; 0x546]);
   (0xFB17, [0x544; 0x53D]); (0xFF41, [0xFF21]); (0xFF42, [0xFF22]); (0xFF43, [0xFF23]);
   (0xFF44, [0xFF24]); (0xFF45, [0xFF25]); (0xFF46, [0xFF26]); (0xFF47, [0xFF27]);
   (0xFF48, [0xFF28]); (0xFF49, [0xFF29]); (0xFF4A, [0xFF2A]); (0xFF4B, [0xFF2B]);
   (0xFF4C, [0xFF2C]); (0xFF4D, [0xFF2D]); (0xFF4E, [0xFF2E]); (0xFF4F, [0xFF2F]);
   (0xFF50, [0xFF30]); (0xFF51, [0xFF31]); (0xFF52, [0xFF32]); (0xFF53, [0xFF33]);
   (0xFF54, [0xFF34]); (0xFF55, [0xFF35]); (0xFF56, [0xFF36]); (0xFF57, [0xFF37]);
   (0xFF58, [0xFF38]); (0xFF59, [0xFF39]); (0xFF5A, [0xFF3A]); (0x10428, [0x10400]);
   (0x10429, [0x10401]); (0x1042A, [0x10402]); (0x1042B, [0x10403]); (0x1042C, [0x10404]);
   (0x1042D, [0x10405]); (0x1042E, [0x10406]); (0x1042F, [0x10407]); (0x10430, [0x10408]);
   (0x10431, [0x10409]); (0x10432, [0x1040A]); (0x10433, [0x1040B]); (0x10434, [0x1040C]);
   (0x10435, [0x1040D]); (0x10436, [0x1040E]); (0x10437, [0x1040F]); (0x10438, [0x10410]);
   (0x10439, [0x10411]); (0x1043A, [0x10412]); (0x1043B, [0x10413]); (0x1043C, [0x10414]);
   (0x1043D, [0x10415]); (0x1043E, [0x10416]); (0x1043F, [0x10417]); (0x10440, [0x10418]);
   (0x10441, [0x10419]); (0x10442, [0x1041A]); (0x10443, [0x1041B]); (0x10444, [0x1041C]);
   (0x10445, [0x1041D]); (0x10446, [0x1041E]); (0x10447, [0x1041F]); (0x10448, [0x10420]);
   (0x10449, [0x10421]); (0x1044A, [0x10422]); (0x1044B, [0x10423]); (0x1044C, [0x10424]);
   (0x1044D, [0x10425]); (0x1044E, [0x10426]); (0x1044F, [0x10427]); (0x104D8, [0x104B0]);
   (0x104D9, [0x104B1]); (0x104DA, [0x104B2]); (0x104DB, [0x104B3]); (0x104DC, [0x104B4]);
   (0x104DD, [0x104B5]); (0x104DE, [0x104B6]); (0x104DF, [0x104B7]); (0x104E0, [0x104B8]);
   (0x104E1, [0x104B9]); (0x104E2, [0x104BA]); (0x104E3, [0x104BB]); (0x104E4, [0x104BC]);
   (0x104E5, [0x104BD]); (0x104E6, [0x104BE]); (0x104E7, [0x104BF]); (0x104E8, [0x104C0]);
   (0x104E9, [0x104C1]); (0x104EA, [0x104C2]); (0x104EB, [0x104C3]); (0x104EC, [0x104C4]);
   (0x104ED, [0x104C5]); (0x104EE, [0x104C6]); (0x104EF, [0x104C7]); (0x104F0, [0x104C8]);
   (0x104F1, [0x104C9]); (0x104F2, [0x104CA]); (0x104F3, [0x104CB]); (0x104F4, [0x104CC]);
   (0x104F5, [0x104CD]); (0x104F6, [0x104CE]); (0x104F7, [0x104CF]); (0x104F8, [0x104D0]);
   (0x104F9, [0x104D1]); (0x104FA, [0x104D2]); (0x104FB, [0x104D3]); (0x10597, [0x10570]);
   (0x10598, [0x10571]); (0x10599, [0x10572]); (0x1059A, [0x10573]); (0x1059B, [0x10574]);
   (0x1059C, [0x10575]); (0x1059D, [0x10576]); (0x1059E, [0x10577]); (0x1059F, [0x10578]);
   (0x105A0, [0x10579]); (0x105A1, [0x1057A]); (0x105A3, [0x1057C]); (0x105A4, [0x1057D]);
   (0x105A5, [0x1057E]); (0x105A6, [0x1057F]); (0x105A7, [0x10580]); (0x105A8, [0x10581]);
   (0x105A9, [0x10582]); (0x105AA, [0x10583]); (0x105AB, [0x10584]); (0x105AC, [0x10585]);
   (0x105AD, [0x10586]); (0x105AE, [0x10587]); (0x105AF, [0x10588]); (0x105B0, [0x10589]);
   (0x105B1, [0x1058A]); (0x105B3, [0x1058C]); (0x105B4, [0x1058D]); (0x105B5, [0x1058E]);
   (0x105B6, [0x1058F]); (0x105B7, [0x10590]); (0x105B8, [0x10591]); (0x105B9, [0x10592]);
   (0x105BB, [0x10594]); (0x105BC, [0x10595]); (0x10CC0, [0x10C80]); (0x10CC1, [0x10C81]);
   (0x10CC2, [0x10C82]); (0x10CC3, [0x10C83]); (0x10CC4, [0x10C84]); (0x10CC5, [0x10C85]);
   (0x10CC6, [0x10C86]); (0x10CC7, [0x10C87]); (0x10CC8, [0x10C88]); (0x10CC9, [0x10C89]);
   (0x10CCA, [0x10C8A]); (0x10CCB, [0x10C8B]); (0x10CCC, [0x10C8C]); (0x10CCD, [0x10C8D]);
   (0x10CCE, [0x10C8E]); (0x10CCF, [0x10C8F]); (0x10CD0, [0x10C90]); (0x10CD1, [0x10C91]);
   (0x10CD2, [0x10C92]); (0x10CD3, [0x10C93]); (0x10CD4, [0x10C94]); (0x10CD5, [0x10C95]);
   (0x10CD6, [0x10C96]); (0x10CD7, [0x10C97]); (0x10CD8, [0x10C98]); (0x10CD9, [0x10C99]);
   (0x10CDA, [0x10C9A]); (0x10CDB, [0x10C9B]); (0x10CDC, [0x10C9C]); (0x10CDD, [0x10C9D]);
   (0x10CDE, [0x10C9E]); (0x10CDF, [0x10C9F]); (0x10CE0, [0x10CA0]); (0x10CE1, [0x10CA1]);
   (0x10CE2, [0x10CA2]); (0x10CE3, [0x10CA3]); (0x10CE4, [0x10CA4]); (0x10CE5, [0x10CA5]);
   (0x10CE6, [0x10CA6]); (0x10CE7, [0x10CA7]); (0x10CE8, [0x10CA8]); (0x10CE9, [0x10CA9]);
   (0x10CEA, [0x10CAA]); (0x10CEB, [0x10CAB]); (0x10CEC, [0x10CAC]); (0x10CED, [0x10CAD]);
   (0x10CEE, [0x10CAE]); (0x10CEF, [0x10CAF]); (0x10CF0, [0x10CB0]); (0x10CF1, [0x10CB1]);
   (0x10CF2, [0x10CB2]); (0x118C0, [0x118A0]); (0x118C1, [0x118A1]); (0x118C2, [0x118A2]);
   (0x118C3, [0x118A3]); (0x118C4, [0x118A4]); (0x118C5, [0x118A5]); (0x118C6, [0x118A6]);
   (0x118C7, [0x118A7]); (0x118C8, [0x118A8]); (0x118C9, [0x118A9]); (0x118CA, [0x118AA]);
   (0x118CB, [0x118AB]); (0x118CC, [0x118AC]); (0x118CD, [0x118AD]); (0x118CE, [0x118AE]);
   (0x118CF, [0x118AF]); (0x118D0, [0x118B0]); (0x118D1, [0x118B1]); (0x118D2, [0x118B2]);
   (0x118D3, [0x118B3]); (0x118D4, [0x118B4]); (0x118D5, [0x118B5]); (0x118D6, [0x118B6]);
   (0x118D7, [0x118B7]); (0x118D8, [0x118B8]); (0x118D9, [0x118B9]); (0x118DA, [0x118BA]);
   (0x118DB, [0x118BB]); (0x118DC, [0x118BC]); (0x118DD, [0x118BD]); (0x118DE, [0x118BE]);
   (0x118DF, [0x118BF]); (0x16E60, [0x16E40]); (0x16E61, [0x16E41]); (0x16E62, [0x16E42]);
   (0x16E63, [0x16E43]); (0x16E64, [0x16E44]); (0x16E65, [0x16E45]); (0x16E66, [0x16E46]);
   (0x16E67, [0x16E47]); (0x16E68, [0x16E48]); (0x16E69, [0x16E49]); (0x16E6A, [0x16E4A]);
   (0x16E6B, [0x16E4B]); (0x16E6C, [0x16E4C]); (0x16E6D, [0x16E4D]); (0x16E6E, [0x16E4E]);
   (0x16E6F, [0x16E4F]); (0x16E70, [0x16E50]); (0x16E71, [0x16E51]); (0x16E72, [0x16E52]);
   (0x16E73, [0x16E53]); (0x16E74, [0x16E54]); (0x16E75, [0x16E55]); (0x16E76, [0x16E56]);
   (0x16E77, [0x16E57]); (0x16E78, [0x16E58]); (0x16E79, [0x16E59]); (0x16E7A, [0x16E5A]);
   (0x16E7B, [0x16E5B]); (0x16E7C, [0x16E5C]); (0x16E7D, [0x16E5D]); (0x16E7E, [0x16E5E]);
   (0x16E7F, [0x16E5F]); (0x1E922, [0x1E900]); (0x1E923, [0x1E901]); (0x1E924, [0x1E902]);
   (0x1E925, [0x1E903]); (0x1E926, [0x1E904]); (0x1E927, [0x1E905]); (0x1E928, [0x1E906]);
   (0x1E929, [0x1E907]); (0x1E92A, [0x1E908]); (0x1E92B, [0x1E909]); (0x1E92C, [0x1E90A]);
   (0x1E92D, [0x1E90B]); (0x1E92E, [0x1E90C]); (0x1E92F, [0x1E90D]); (0x1E930, [0x1E90E]);
   (0x1E931, [0x1E90F]); (0x1E932, [0x1E910]); (0x1E933, [0x1E911]); (0x1E934, [0x1E912]);
   (0x1E935, [0x1E913]); (0x1E936, [0x1E914]); (0x1E937, [0x1E915]); (0x1E938, [0x1E916]);
   (0x1E939, [0x1E917]); (0x1E93A, [0x1E918]); (0x1E93B, [0x1E919]); (0x1E93C, [0x1E91A]);
   (0x1E93D, [0x1E91B]); (0x1E93E, [0x1E91C]); (0x1E93F, [0x1E91D]); (0x1E940, [0x1E91E]);
   (0x1E941, [0x1E91F]); (0x1E942, [0x1E920]); (0x1E943, [0x1E921])
  ]%N.

(** A continuation byte of UTF-8 *)
Definition is_cont (c : ascii) : bool :=
  let n := N_of_ascii c in
  ((128 <=? n) && (n <? 192))%N.

(** The number of bytes of the character whose first byte is [c]; [1] for
    an ASCII character and for a byte that starts no character. *)
Definition width (c : ascii) : nat :=
  let n := N_of_ascii c in
  if (n <? 0xC2)%N then 1
  else if (n <? 0xE0)%N then 2
  else if (n <? 0xF0)%N then 3
  else if (n <? 0xF5)%N then 4
  else 1.

(** The continuation bytes that [l] starts with, [k] at most *)
Fixpoint take_cont (k : nat) (l : list ascii) : list ascii :=
  match k, l with
  | S k', c :: t => if is_cont c then c :: take_cont k' t else []
  | _, _ => []
  end.

(** The code point of the character with first byte [c] and continuation
    bytes [conts] *)
Definition code_point (c : ascii) (conts : list ascii) : N :=
  let n := N_of_ascii c in
  let lead :=
    if (n <? 0xE0)%N then (n - 0xC0)%N
    else if (n <? 0xF0)%N then (n - 0xE0)%N
    else (n - 0xF0)%N in
  fold_left (fun acc d => (acc * 64 + (N_of_ascii d - 128))%N) conts lead.

(** The UTF-8 form of a code point *)
Definition utf8 (cp : N) : list ascii :=
  if (cp <? 0x80)%N then [ascii_of_N cp]
  else if (cp <? 0x800)%N then
    [ascii_of_N (0xC0 + cp / 64); ascii_of_N (0x80 + cp mod 64)]
  else if (cp <? 0x10000)%N then
    [ascii_of_N (0xE0 + cp / 4096); ascii_of_N (0x80 + (cp / 64) mod 64);
     ascii_of_N (0x80 + cp mod 64)]
  else
    [ascii_of_N (0xF0 + cp / 262144); ascii_of_N (0x80 + (cp / 4096) mod 64);
     ascii_of_N (0x80 + (cp / 64) mod 64); ascii_of_N (0x80 + cp mod 64)].

Fixpoint lookup_upper (cp : N) (table : list (N * list N)) : option (list N) :=
  match table with
  | [] => None
  | (k, r) :: rest => if (cp =? k)%N then Some r else lookup_upper cp rest
  end.

(** The smallest code point that takes [w] bytes *)
Definition least_of_width (w : nat) : N :=
  match w with
  | 2 => 0x80%N
  | 3 => 0x800%N
  | _ => 0x10000%N
  end.

(** The upper-case form of the character that starts with the byte [c] and
    goes on in [t], when the character is outside ASCII, is complete, and
    has one. *)
Definition special_upper (c : ascii) (t : list ascii) : option (list ascii) :=
  let w := width c in
  if w <=? 1 then None
  else
    let conts := take_cont (w - 1) t in
    if List.length conts <? w - 1 then None
    else
      let cp := code_point c conts in
      if (cp <? least_of_width w)%N then None
      else
        match lookup_upper cp upper_table with
        | Some r => Some (flat_map utf8 r)
        | None => None
        end.

(** The bytes of the upper-case form; [skip] bytes still belong to a
    character that has been mapped. *)
Fixpoint upper_bytes (skip : nat) (l : list ascii) : list ascii :=
  match l with
  | [] => []
  | c :: t =>
      match skip with
      | S k => upper_bytes k t
      | 0 =>
          match special_upper c t with
          | Some r => r ++ upper_bytes (width c - 1) t
          | None => upper_char c :: upper_bytes 0 t
          end
      end
  end.

(** [s.toUpperCase()] *)
Definition toUpperCase (s : string) : string :=
  string_of_list_ascii (upper_bytes 0 (list_ascii_of_string s)).

Fixpoint mem_str (x : string) (l : list string) : bool :=
  match l with
  | [] => false
  | y :: t => String.eqb x y || mem_str x t
  end.

(** [set.add(x)] on a [Set] of strings kept in insertion order. *)
Definition set_add (set : list string) (x : string) : list string :=
  if mem_str x set then set else set ++ [x].

(** [Array.from(new Set(l))] for an array of strings. *)
Definition array_from_set (l : list string) : list string :=
  fold_left set_add l [].

(** SameValueZero, the equality a [Set] uses.  Objects and arrays compare
    by reference; a freshly parsed one is equal to nothing else. *)
Definition same_value_zero (a b : jsval) : bool :=
  match a, b with
  | VUndef, VUndef | VNull, VNull => true
  | VBool x, VBool y => Bool.eqb x y
  | VNum x, VNum y =>
      PrimFloat.eqb x y || (PrimFloat.is_nan x && PrimFloat.is_nan y)
  | VStr x, VStr y => String.eqb x y
  | _, _ => false
  end.

Fixpoint mem_val (x : jsval) (l : list jsval) : bool :=
  match l with
  | [] => false
  | y :: t => same_value_zero x y || mem_val x t
  end.

Definition set_add_val (set : list jsval) (x : jsval) : list jsval :=
  if mem_val x set then set else set ++ [x].

Definition array_from_set_val (l : list jsval) : list jsval :=
  fold_left set_add_val l [].

(** [arr.slice(0, n)] *)
Definition slice0 {A : Type} (n : nat) (l : list A) : list A := firstn n l.

(** [arr.sort(cmp)]: the stable sort; an element moves behind another one
    only when the comparator is positive on the pair. *)
Fixpoint insert_sorted {A : Type} (cmp : A -> A -> float) (x : A) (l : list A)
  : list A :=
  match l with
  | [] => [x]
  | y :: t =>
      if PrimFloat.ltb 0 (cmp x y) then y :: insert_sorted cmp x t
      else x :: l
  end.

Fixpoint sort {A : Type} (cmp : A -> A -> float) (l : list A) : list A :=
  match l with
  | [] => []
  | x :: t => insert_sorted cmp x (sort cmp t)
  end.

(** An exception: its [message], and the HTTP status of [e.response] when
    the HTTP client raised it for an error response. *)
Record exn : Type := mkExn { message : string; response_status : option Z }.

Inductive result (A : Type) : Type :=
| Ok (a : A)
| Throw (e : exn).
Arguments Ok {A} a.
Arguments Throw {A} e.

(** A surrogate in the UTF-8 form of a string: the three bytes [ED],
    [A0..BF], [xx].  Two surrogates that pair are one character of four
    bytes, so these three bytes are a lone surrogate. *)
Fixpoint has_lone_surrogate (l : list ascii) : bool :=
  match l with
  | [] => false
  | c :: t =>
      match t with
      | d :: _ =>
          (nat_of_ascii c =? 237) && (160 <=? nat_of_ascii d) && (nat_of_ascii d <=? 191)
      | [] => false
      end
      || has_lone_surrogate t
  end.

(** The characters that [encodeURIComponent] leaves as they are. *)
Definition uri_unreserved (c : ascii) : bool :=
  let n := nat_of_ascii c in
  ((65 <=? n) && (n <=? 90)) || ((97 <=? n) && (n <=? 122))
  || ((48 <=? n) && (n <=? 57))
  || existsb (Ascii.eqb c) (list_ascii_of_string "-_.!~*'()").

Definition hex_digit (n : nat) : ascii :=
  nth n (list_ascii_of_string "0123456789ABCDEF") "0"%char.

(** [%XX] for one byte *)
Definition percent_encoded (c : ascii) : list ascii :=
  let n := nat_of_ascii c in
  ["%"%char; hex_digit (n / 16); hex_digit (n mod 16)].

(** [encodeURIComponent(s)]: every byte of the UTF-8 form of a character
    that is not unreserved becomes [%XX]; a [URIError] on a lone
    surrogate. *)
Definition encodeURIComponent (s : string) : result string :=
  let l := list_ascii_of_string s in
  if has_lone_surrogate l
  then Throw {| message := "URI malformed"; response_status := None |}
  else
    Ok (string_of_list_ascii
          (flat_map (fun c => if uri_unreserved c then [c] else percent_encoded c) l)).

(** The [TypeError] that reading the property [k] of [null] or [undefined]
    raises, with the message the engine gives it. *)
Definition type_error_read (v : jsval) (k : string) : exn :=
  {| message :=
       String.append "Cannot read properties of "
         (String.append (match v with VUndef => "undefined" | _ => "null" end)
            (String.append " (reading '" (String.append k "')")));
     response_status := None |}.

End JS.
Export JS.

(* ====================================================================== *)
(** * Regular expressions, as far as [extractModelHints] uses them *)
(* ====================================================================== *)

Module Regex.

(** Pattern syntax: character classes given by ranges, sequence, greedy
    bounded repetition, positive lookahead and the word boundary. *)
Inductive regex : Type :=
| Cls (ranges : list (ascii * ascii))
| Seq (r1 r2 : regex)
| Rep (min : nat) (max : option nat) (r : regex)
| Look (r : regex)
| WordB.

Definition Lit (c : ascii) : regex := Cls [(c, c)].

Definition in_range (c : ascii) (r : ascii * ascii) : bool :=
  (nat_of_ascii (fst r) <=? nat_of_ascii c) && (nat_of_ascii c <=? nat_of_ascii (snd r)).

Definition in_ranges (rs : list (ascii * ascii)) (c : ascii) : bool :=
  existsb (in_range c) rs.

(** A class matches [c] when one of its members canonicalises like [c]:
    without the [i] flag that is membership, with it the members to look for
    are the two cases of [c].  (Canonicalisation never maps a character
    outside ASCII into ASCII, and the classes used here are ASCII, so no
    byte of a longer UTF-8 sequence ever matches.) *)
Definition cls_match (icase : bool) (rs : list (ascii * ascii)) (c : ascii) : bool :=
  if icase then in_ranges rs (upper_char c) || in_ranges rs (lower_char c)
  else in_ranges rs c.

(** [\w] *)
Definition is_word (c : ascii) : bool :=
  in_ranges [("A", "Z"); ("a", "z"); ("0", "9"); ("_", "_")]%char c.

Definition is_word_opt (o : option ascii) : bool :=
  match o with Some c => is_word c | None => false end.

(** A position in the subject: the code unit before it, and what follows. *)
Definition pos : Type := (option ascii * list ascii)%type.

Definition remaining (p : pos) : nat := List.length (snd p).

(** The repetition matcher.  Greedy: one more iteration is tried before
    stopping; an iteration that consumed nothing once [min] is met is
    rejected.  [fuel] bounds the iterations ([min] plus the remaining
    length, plus one, is enough). *)
Fixpoint rep_loop (m : pos -> list pos) (fuel min : nat) (max : option nat)
  (p : pos) : list pos :=
  match fuel with
  | 0 => []
  | S fuel' =>
      match max with
      | Some 0 => [p]
      | _ =>
          let again (q : pos) :=
            if (min =? 0) && (remaining q =? remaining p) then []
            else rep_loop m fuel' (pred min) (option_map pred max) q in
          let more := flat_map again (m p) in
          if min =? 0 then more ++ [p] else more
      end
  end.

(** All the positions at which a match of [r] started at [p] can end, in
    the order in which backtracking tries them. *)
Fixpoint run (icase : bool) (r : regex) (p : pos) : list pos :=
  match r with
  | Cls rs =>
      match snd p with
      | c :: t => if cls_match icase rs c then [(Some c, t)] else []
      | [] => []
      end
  | Seq r1 r2 => flat_map (run icase r2) (run icase r1 p)
  | Rep min max r1 => rep_loop (run icase r1) (S (min + remaining p)) min max p
  | Look r1 => match run icase r1 p with [] => [] | _ :: _ => [p] end
  | WordB =>
      if xorb (is_word_opt (fst p)) (is_word_opt (hd_error (snd p))) then [p] else []
  end.

(** The text between two positions of the same subject. *)
Definition consumed (p q : pos) : list ascii :=
  firstn (remaining p - remaining q) (snd p).

(** [s.match(re)] for a global [re]: the leftmost match from the current
    index, then on from its end (one further after an empty match). *)
Fixpoint scan (icase : bool) (r : regex) (fuel : nat) (p : pos) : list string :=
  match fuel with
  | 0 => []
  | S fuel' =>
      match run icase r p with
      | q :: _ =>
          let m := string_of_list_ascii (consumed p q) in
          if remaining q =? remaining p then
            match snd p with
            | c :: t => m :: scan icase r fuel' (Some c, t)
            | [] => [m]
            end
          else m :: scan icase r fuel' q
      | [] =>
          match snd p with
          | c :: t => scan icase r fuel' (Some c, t)
          | [] => []
          end
      end
  end.

(** [(s.match(re) || [])] *)
Definition js_match (icase : bool) (r : regex) (s : string) : list string :=
  let l := list_ascii_of_string s in
  scan icase r (S (List.length l)) (None, l).

Definition digit : regex := Cls [("0", "9")]%char.
Definition model_char : regex := Cls [("A", "Z"); ("0", "9"); ("-", "-")]%char.
Definition upper_letter : regex := Cls [("A", "Z")]%char.

(** [/\b[0-9]{4,6}\b/g] *)
Definition re_digits : regex :=
  Seq WordB (Seq (Rep 4 (Some 6) digit) WordB).

(** [/\bSM-[A-Z0-9-]+\b/gi] *)
Definition re_sm : regex :=
  Seq WordB (Seq (Lit "S") (Seq (Lit "M") (Seq (Lit "-")
    (Seq (Rep 1 None model_char) WordB)))).

(** [/\b(?=[A-Z0-9-]*[0-9])(?=[A-Z0-9-]*[A-Z])[A-Z0-9-]{5,}\b/gi] *)
Definition re_alnum : regex :=
  Seq WordB
    (Seq (Look (Seq (Rep 0 None model_char) digit))
      (Seq (Look (Seq (Rep 0 None model_char) upper_letter))
        (Seq (Rep 5 None model_char) WordB))).

End Regex.

(* ====================================================================== *)
(** * Model-number hints *)
(* ====================================================================== *)

(** [extractModelHints(ocrText)] *)
Definition extractModelHints (ocrText : string) : list string :=
  let hints := [] in
  let hints := fold_left set_add (Regex.js_match false Regex.re_digits ocrText) hints in
  let hints :=
    fold_left (fun h n => set_add h (toUpperCase n))
      (Regex.js_match true Regex.re_sm ocrText) hints in
  let hints :=
    fold_left (fun h n => set_add h (toUpperCase n))
      (Regex.js_match true Regex.re_alnum ocrText) hints in
  slice0 10 hints.

(* ====================================================================== *)
(** * Effects: state, exceptions, try/catch *)
(* ====================================================================== *)

Module Eff.

(** A computation over a mutable state [S] that returns or throws.  What was
    written to the state before a throw stays written, as in JavaScript. *)
Definition M (S A : Type) : Type := S -> result A * S.

Definition ret {S A : Type} (a : A) : M S A := fun s => (Ok a, s).

Definition bind {S A B : Type} (c : M S A) (k : A -> M S B) : M S B :=
  fun s =>
    match c s with
    | (Ok a, s') => k a s'
    | (Throw e, s') => (Throw e, s')
    end.

Definition throw {S A : Type} (e : exn) : M S A := fun s => (Throw e, s).

(** [try { c } catch (e) { h e }] *)
Definition try_catch {S A : Type} (c : M S A) (h : exn -> M S A) : M S A :=
  fun s =>
    match c s with
    | (Ok a, s') => (Ok a, s')
    | (Throw e, s') => h e s'
    end.

(** The answer of the outside world to a call, entered into the run. *)
Definition lift {S A : Type} (r : result A) : M S A := fun s => (r, s).

Definition modify {S : Type} (f : S -> S) : M S unit := fun s => (Ok tt, f s).

Definition gets {S A : Type} (f : S -> A) : M S A := fun s => (Ok (f s), s).

End Eff.
Export Eff.

Declare Scope eff_scope.
Delimit Scope eff_scope with eff.
Notation "x <- c1 ;; c2" := (bind c1 (fun x => c2))
  (at level 61, c1 at next level, right associativity) : eff_scope.
Notation "c1 ;; c2" := (bind c1 (fun _ => c2))
  (at level 61, right associativity) : eff_scope.
Local Open Scope eff_scope.

(* ====================================================================== *)
(** * [Math] on doubles *)
(* ====================================================================== *)

Module JSMath.

(** [x || 0] on a number *)
Definition or_zero (x : float) : float := if num_truthy x then x else 0%float.

(** [Math.min(a, b)] *)
Definition min2 (a b : float) : float :=
  if PrimFloat.is_nan a || PrimFloat.is_nan b then PrimFloat.nan
  else if PrimFloat.ltb a b then a
  else if PrimFloat.ltb b a then b
  else if PrimFloat.get_sign a then a else b.

(** [Math.max(a, b)] *)
Definition max2 (a b : float) : float :=
  if PrimFloat.is_nan a || PrimFloat.is_nan b then PrimFloat.nan
  else if PrimFloat.ltb a b then b
  else if PrimFloat.ltb b a then a
  else if PrimFloat.get_sign a then b else a.

(** [Math.min(...xs)], [Math.max(...xs)] *)
Definition min_of (xs : list float) : float := fold_left min2 xs PrimFloat.infinity.
Definition max_of (xs : list float) : float := fold_left max2 xs PrimFloat.neg_infinity.

Definition float_of_Z (z : Z) : float :=
  if (z <? 0)%Z then PrimFloat.opp (PrimFloat.of_uint63 (Uint63.of_Z (- z)))
  else PrimFloat.of_uint63 (Uint63.of_Z z).

(** [Math.floor(x)]: a double with a non-negative exponent is an integer
    already; otherwise the mantissa is shifted down, rounding to minus
    infinity. *)
Definition floor (x : float) : float :=
  match Prim2SF x with
  | S754_finite s m e =>
      if (0 <=? e)%Z then x
      else float_of_Z (Z.shiftr (if s then Z.neg m else Z.pos m) (- e))
  | _ => x
  end.

(** [Math.ceil(x)] *)
Definition ceil (x : float) : float := PrimFloat.opp (floor (PrimFloat.opp x)).

End JSMath.

(* ====================================================================== *)
(** * The image pipeline *)
(* ====================================================================== *)

Module Vision.

Definition bytes : Type := list Byte.byte.

(** ** What the vision client answers

    Answers are modelled at the shape the code reads; where the code
    defaults a missing field ([|| []], [?.]) the field is optional. *)

Record vertex : Type := { vx : float; vy : float }.
Record bounding_poly : Type := { normalizedVertices : option (list vertex) }.
Record label_annotation : Type := { la_description : string; la_score : float }.
Record logo_annotation : Type := { lg_description : string }.
Record object_annotation : Type :=
  { oa_name : string; oa_score : float; boundingPoly : option bounding_poly }.
Record text_annotation : Type := { ta_description : string }.
Record full_text_annotation : Type := { text : string }.
Record best_guess_label : Type := { bg_label : string }.
Record web_entity : Type := { we_description : string; we_score : float }.
Record web_detection : Type :=
  { bestGuessLabels : option (list best_guess_label);
    wd_webEntities : option (list web_entity) }.

Record annotate_response : Type :=
  { labelAnnotations : option (list label_annotation);
    logoAnnotations : option (list logo_annotation);
    localizedObjectAnnotations : option (list object_annotation);
    safeSearchAnnotation : option jsval;
    faceAnnotations : option (list jsval);
    fullTextAnnotation : option full_text_annotation;
    textAnnotations : option (list text_annotation);
    webDetection : option web_detection }.

Record localize_response : Type :=
  { lr_localizedObjectAnnotations : option (list object_annotation) }.

Record image_metadata : Type := { width : option float; height : option float }.

(** ** What the chat-completion client answers *)

Record chat_message : Type := { content : option string }.
Record chat_choice : Type := { choice_message : option chat_message }.
Record chat_completion : Type := { choices : option (list chat_choice) }.

(** ** The environment of a request *)

Record env : Type :=
  { OPENAI_MODEL : option string;
    Buffer_from_base64 : string -> bytes;
    (** the sharp chain of [prepForOCR] *)
    sharp_prep : bytes -> result bytes;
    annotateImage : bytes -> result annotate_response;
    objectLocalization : bytes -> result localize_response;
    sharp_metadata : bytes -> result image_metadata;
    (** [img.extract({left, top, width, height}).toBuffer()] *)
    sharp_extract : bytes -> float -> float -> float -> float -> result bytes;
    chat_create : string -> string -> result (option chat_completion);
    JSON_parse : string -> option jsval }.

Inductive event : Type :=
| EvSharpPrep (input : bytes)
| EvAnnotateImage (image : bytes)
| EvObjectLocalization (image : bytes)
| EvSharpMetadata (image : bytes)
| EvSharpExtract (image : bytes) (left top width height : float)
| EvChatCreate (model dataUrl : string)
| EvWarn (what detail : string)
| EvError (what : string) (e : exn).

Definition trace : Type := list event.

Definition emit (ev : event) : M trace unit := modify (fun t => t ++ [ev]).

(** ** Signal bundles *)

Record label : Type := { description : string; score : float }.
Record detected_object : Type :=
  { name : string; obj_score : float; box : list vertex }.

Record bundle : Type :=
  { labels : list label;
    logos : list string;
    objects : list detected_object;
    safeSearch : jsval;
    faceCount : nat;
    ocrText : string;
    bestGuess : string;
    webEntities : list string }.

Definition or_nil {A : Type} (o : option (list A)) : list A :=
  match o with Some l => l | None => [] end.

(** [(b.score || 0) - (a.score || 0)]: descending by score *)
Definition by_score_desc {A : Type} (sc : A -> float) (a b : A) : float :=
  PrimFloat.sub (JSMath.or_zero (sc b)) (JSMath.or_zero (sc a)).

Definition vertices_of (o : object_annotation) : list vertex :=
  match boundingPoly o with
  | Some bp => or_nil (normalizedVertices bp)
  | None => []
  end.

Definition normalize (resp : annotate_response) : bundle :=
  let web := webDetection resp in
  {| labels :=
       map (fun l => {| description := la_description l; score := la_score l |})
         (or_nil (labelAnnotations resp));
     logos := map lg_description (or_nil (logoAnnotations resp));
     objects :=
       map (fun x => {| name := oa_name x; obj_score := oa_score x;
                        box := vertices_of x |})
         (or_nil (localizedObjectAnnotations resp));
     safeSearch :=
       match safeSearchAnnotation resp with
       | Some v => js_or v (VObj [])
       | None => VObj []
       end;
     faceCount := List.length (or_nil (faceAnnotations resp));
     ocrText :=
       str_or
         (match fullTextAnnotation resp with Some f => text f | None => "" end)
         (str_or
            (match textAnnotations resp with
             | Some (t0 :: _) => ta_description t0
             | _ => ""
             end)
            "");
     bestGuess :=
       str_or
         (match web with
          | Some w =>
              match bestGuessLabels w with
              | Some (g :: _) => bg_label g
              | _ => ""
              end
          | None => ""
          end)
         "";
     webEntities :=
       map we_description
         (slice0 12
            (sort (by_score_desc we_score)
               (filter (fun e => str_truthy (we_description e))
                  (match web with
                   | Some w => or_nil (wd_webEntities w)
                   | None => []
                   end)))) |}.

(** [prepForOCR(buf)] *)
Definition prepForOCR (E : env) (buf : bytes) : M trace bytes :=
  emit (EvSharpPrep buf) ;;
  lift (sharp_prep E buf).

(** [runVisionAllFeatures(imageBytes)] *)
Definition runVisionAllFeatures (E : env) (imageBytes : bytes) : M trace bundle :=
  emit (EvAnnotateImage imageBytes) ;;
  resp <- lift (annotateImage E imageBytes) ;;
  ret (normalize resp).

Definition clamp01 (x : float) : float :=
  JSMath.max2 0 (JSMath.min2 1 (JSMath.or_zero x)).

(** [pad = 0.06] *)
Definition pad : float := 0x1.eb851eb851eb8p-5%float.

(** [cropPrimaryObject(imageBytes)]; [None] is the [null] result. *)
Definition cropPrimaryObject (E : env) (imageBytes : bytes) : M trace (option bytes) :=
  emit (EvObjectLocalization imageBytes) ;;
  objResp <- lift (objectLocalization E imageBytes) ;;
  let anns := or_nil (lr_localizedObjectAnnotations objResp) in
  match sort (by_score_desc oa_score) anns with
  | [] => ret None
  | top :: _ =>
      let verts := vertices_of top in
      if List.length verts <? 4 then ret None
      else
        emit (EvSharpMetadata imageBytes) ;;
        meta <- lift (sharp_metadata E imageBytes) ;;
        let W := match width meta with Some w => JSMath.or_zero w | None => 0%float end in
        let H := match height meta with Some h => JSMath.or_zero h | None => 0%float end in
        if negb (num_truthy W) || negb (num_truthy H) then ret None
        else
          let xs := map (fun v => clamp01 (vx v)) verts in
          let ys := map (fun v => clamp01 (vy v)) verts in
          let minX := JSMath.min_of xs in
          let maxX := JSMath.max_of xs in
          let minY := JSMath.min_of ys in
          let maxY := JSMath.max_of ys in
          let minX := JSMath.max2 0 (PrimFloat.sub minX pad) in
          let maxX := JSMath.min2 1 (PrimFloat.add maxX pad) in
          let minY := JSMath.max2 0 (PrimFloat.sub minY pad) in
          let maxY := JSMath.min2 1 (PrimFloat.add maxY pad) in
          let left := JSMath.floor (PrimFloat.mul minX W) in
          let topY := JSMath.floor (PrimFloat.mul minY H) in
          let width :=
            JSMath.min2 (PrimFloat.sub W left)
              (JSMath.ceil (PrimFloat.mul (PrimFloat.sub maxX minX) W)) in
          let height :=
            JSMath.min2 (PrimFloat.sub H topY)
              (JSMath.ceil (PrimFloat.mul (PrimFloat.sub maxY minY) H)) in
          if PrimFloat.ltb width 50 || PrimFloat.ltb height 50 then ret None
          else
            emit (EvSharpExtract imageBytes left topY width height) ;;
            buf <- lift (sharp_extract E imageBytes left topY width height) ;;
            ret (Some buf)
  end.

(** ** The model-based second opinion *)

Record second_opinion : Type :=
  { brand : jsval;
    model : jsval;
    product_type : jsval;
    synonyms : list jsval;
    confidence : float }.

Definition first_content (out : option chat_completion) : option string :=
  match out with
  | Some o =>
      match choices o with
      | Some (c :: _) =>
          match choice_message c with
          | Some m => content m
          | None => None
          end
      | _ => None
      end
  | None => None
  end.

(** [json.k]; reading a property of [null] raises a [TypeError]. *)
Definition read_prop (json : jsval) (k : string) : M trace jsval :=
  match get_prop json k with
  | Some v => ret v
  | None => throw (type_error_read json k)
  end.

(** [`data:image/jpeg;base64,${base64}`] *)
Definition data_url (base64 : string) : string :=
  String.append "data:image/jpeg;base64," base64.

(** [process.env.OPENAI_MODEL || 'gpt-4o-mini'] *)
Definition request_model (E : env) : string :=
  match OPENAI_MODEL E with
  | Some m => str_or m "gpt-4o-mini"
  | None => "gpt-4o-mini"
  end.

(** [out?.choices?.[0]?.message?.content?.trim?.() || '{}'] *)
Definition reply_text (out : option chat_completion) : string :=
  match first_content out with
  | Some c => str_or (trim c) "{}"
  | None => "{}"
  end.

(** [runOpenAIVisionExtract(base64)]; [None] is the [null] result. *)
Definition runOpenAIVisionExtract (E : env) (base64 : string)
  : M trace (option second_opinion) :=
  try_catch
    (let dataUrl := data_url base64 in
     let mdl := request_model E in
     emit (EvChatCreate mdl dataUrl) ;;
     out <- lift (chat_create E mdl dataUrl) ;;
     let raw := reply_text out in
     let json := match JSON_parse E raw with Some j => j | None => VObj [] end in
     b <- read_prop json "brand" ;;
     m <- read_prop json "model" ;;
     p <- read_prop json "product_type" ;;
     sy <- read_prop json "synonyms" ;;
     cf <- read_prop json "confidence" ;;
     ret (Some {| brand := js_or b (VStr "");
                  model := js_or m (VStr "");
                  product_type := js_or p (VStr "");
                  synonyms := match sy with VArr l => l | _ => [] end;
                  confidence := match cf with VNum x => x | _ => 0%float end |}))
    (fun e =>
       emit (EvWarn "OpenAI Vision second-opinion failed:" (message e)) ;;
       ret None).

(** ** Fusion *)

Definition newline : string := String (ascii_of_nat 10) EmptyString.

(** The object literal that merges the crop pass into [merged]. *)
Definition merge (merged cropSignals : bundle) : bundle :=
  {| labels := labels merged ++ labels cropSignals;
     logos := array_from_set (logos merged ++ logos cropSignals);
     objects := objects merged ++ objects cropSignals;
     safeSearch := safeSearch merged;
     faceCount := faceCount merged;
     ocrText :=
       String.concat newline
         (filter str_truthy [str_or (ocrText merged) ""; str_or (ocrText cropSignals) ""]);
     bestGuess := str_or (bestGuess merged) (bestGuess cropSignals);
     webEntities := array_from_set (webEntities merged ++ webEntities cropSignals) |}.

(** The optional crop pass: [let merged = {...base}; try { ... } catch ...] *)
Definition crop_pass (E : env) (cleaned : bytes) (base : bundle) : M trace bundle :=
  try_catch
    (crop <- cropPrimaryObject E cleaned ;;
     match crop with
     | Some c =>
         cropClean <- prepForOCR E c ;;
         cropSignals <- runVisionAllFeatures E cropClean ;;
         ret (merge base cropSignals)
     | None => ret base
     end)
    (fun e => emit (EvWarn "Auto-crop skipped:" (message e)) ;; ret base).

(** The body of a successful answer: [{ ...merged, modelHints, secondOpinion }].
    After the second opinion is folded in, [logos] and [webEntities] may hold
    whatever values the model put in [brand] and [product_type]. *)
Record vision_result : Type :=
  { vr_labels : list label;
    vr_logos : list jsval;
    vr_objects : list detected_object;
    vr_safeSearch : jsval;
    vr_faceCount : nat;
    vr_ocrText : string;
    vr_bestGuess : string;
    vr_webEntities : list jsval;
    vr_modelHints : list string;
    vr_secondOpinion : option second_opinion }.

Definition fold_in (l : list string) (v : jsval) : list jsval :=
  if truthy v then array_from_set_val (map VStr l ++ [v]) else map VStr l.

Definition finish (merged : bundle) (modelHints : list string)
  (secondOpinion : option second_opinion) : vision_result :=
  {| vr_labels := labels merged;
     vr_logos :=
       match secondOpinion with
       | Some so => fold_in (logos merged) (brand so)
       | None => map VStr (logos merged)
       end;
     vr_objects := objects merged;
     vr_safeSearch := safeSearch merged;
     vr_faceCount := faceCount merged;
     vr_ocrText := ocrText merged;
     vr_bestGuess := bestGuess merged;
     vr_webEntities :=
       match secondOpinion with
       | Some so => fold_in (webEntities merged) (product_type so)
       | None => map VStr (webEntities merged)
       end;
     vr_modelHints := modelHints;
     vr_secondOpinion := secondOpinion |}.

Inductive response_body : Type :=
| ErrorBody (error : string)
| VisionBody (r : vision_result).

Record http_response : Type := { status : nat; body : response_body }.

Record vision_request : Type := { imageBase64 : option string }.

Definition faces_rejection : http_response :=
  {| status := 400;
     body := ErrorBody "Image contains faces. Please upload only product images." |}.

(** [app.post('/api/vision', ...)] *)
Definition api_vision (E : env) (req : vision_request) : M trace http_response :=
  try_catch
    (match imageBase64 req with
     | None => ret {| status := 400; body := ErrorBody "imageBase64 required" |}
     | Some b64 =>
         if negb (str_truthy b64)
         then ret {| status := 400; body := ErrorBody "imageBase64 required" |}
         else
           let raw := Buffer_from_base64 E b64 in
           if List.length raw =? 0
           then ret {| status := 400; body := ErrorBody "bad image" |}
           else
             cleaned <- prepForOCR E raw ;;
             base <- runVisionAllFeatures E cleaned ;;
             if 0 <? faceCount base then ret faces_rejection
             else
               merged <- crop_pass E cleaned base ;;
               let modelHints := extractModelHints (ocrText merged) in
               secondOpinion <- runOpenAIVisionExtract E b64 ;;
               ret {| status := 200;
                      body := VisionBody (finish merged modelHints secondOpinion) |}
     end)
    (fun err =>
       emit (EvError "Vision error:" err) ;;
       ret {| status := 500;
              body := ErrorBody (str_or (message err) "vision error") |}).

End Vision.

(* ====================================================================== *)
(** * The marketplace aggregator *)
(* ====================================================================== *)

Module Market.

(** [process.env], as far as the aggregator reads it *)
Record config : Type :=
  { EBAY_CLIENT_ID : option string;
    EBAY_CLIENT_SECRET : option string;
    EBAY_APP_ID : option string }.

Record listing : Type :=
  { title : string;
    source : string;
    price : option float;
    currency : string;
    url : option string }.

(** ** Payloads of the back ends

    Modelled at the shape the adapters read, every field that they guard
    with [||], [?.] or a ternary being optional. *)

Record browse_price : Type := { bp_value : option string; bp_currency : option string }.
Record item_summary : Type :=
  { is_title : option string;
    is_price : option browse_price;
    itemWebUrl : option string;
    itemAffiliateWebUrl : option string }.
Record browse_data : Type := { itemSummaries : option (list item_summary) }.

Record price_info : Type := { currencyId : option string; value__ : option string }.
Record selling_status : Type := { currentPrice : option (list price_info) }.
Record finding_item : Type :=
  { fi_title : option (list string);
    sellingStatus : option (list selling_status);
    viewItemURL : option (list string) }.
Record search_result : Type := { item : option (list finding_item) }.
Record finding_response : Type := { searchResult : option (list search_result) }.
Record finding_data : Type :=
  { findItemsByKeywordsResponse : option (list finding_response) }.

(** The answer of the token endpoint; [expires_in] is a number of seconds
    when it is there. *)
Record token_data : Type := { access_token : option string; expires_in : option float }.

(** What the selectors find in one result card of a scraped page: the text
    of the first title node, the text of the first price node, the [href]
    of the first link. *)
Record card : Type :=
  { card_title : string; card_price : string; card_href : option string }.

Record url_parts : Type := { origin : string; href : string }.

(** ** The outside world during one request *)

Record world : Type :=
  { (** [Math.floor(Date.now() / 1000)] *)
    now : float;
    token_post : string -> string -> result token_data;
    browse_get : string -> string -> string -> result browse_data;
    finding_get : string -> string -> string -> result (option finding_data);
    (** the cards of the page at a URL *)
    donedeal_get : string -> result (list card);
    adverts_get : string -> result (list card);
    parseFloat : string -> float;
    (** [new URL(url, base)]; [None] when it throws *)
    URL_new : string -> string -> option url_parts;
    Number_toString : float -> string }.

Inductive provider : Type := Browse | Finding | DoneDeal | Adverts.

(** The trace of a request: the entry into each provider adapter, every
    request that leaves the process, and what is logged. *)
Inductive event : Type :=
| EvProvider (p : provider)
| EvTokenPost (id secret : string)
| EvBrowseGet (query token marketplace : string)
| EvFindingGet (globalId appId query : string)
| EvDoneDealGet (url : string)
| EvAdvertsGet (url : string)
| EvWarn (what : string) (e : exn)
| EvError (what : string) (e : exn).

(** The module-level token cache, the [results] array of the request in
    progress, and the trace. *)
Record state : Type :=
  { ebayToken : option string;
    ebayTokenExp : float;
    results : list listing;
    trace : list event }.

Definition initial : state :=
  {| ebayToken := None; ebayTokenExp := 0%float; results := []; trace := [] |}.

Definition emit (ev : event) : M state unit :=
  modify (fun s =>
    {| ebayToken := ebayToken s; ebayTokenExp := ebayTokenExp s;
       results := results s; trace := trace s ++ [ev] |}).

(** [results.push(l)] *)
Definition push (l : listing) : M state unit :=
  modify (fun s =>
    {| ebayToken := ebayToken s; ebayTokenExp := ebayTokenExp s;
       results := results s ++ [l]; trace := trace s |}).

Definition store_token (tok : option string) (exp : float) : M state unit :=
  modify (fun s =>
    {| ebayToken := tok; ebayTokenExp := exp;
       results := results s; trace := trace s |}).

(** [const results = []] *)
Definition fresh_results : M state unit :=
  modify (fun s =>
    {| ebayToken := ebayToken s; ebayTokenExp := ebayTokenExp s;
       results := []; trace := trace s |}).

(** ** Helpers *)

Definition opt_truthy (o : option string) : bool :=
  match o with Some s => str_truthy s | None => false end.

(** [a || b] where [a] may be absent *)
Definition opt_or (a : option string) (b : string) : string :=
  match a with Some s => if str_truthy s then s else b | None => b end.

Definition first {A : Type} (o : option (list A)) : option A :=
  match o with Some (x :: _) => Some x | _ => None end.

Definition toLowerCase (s : string) : string :=
  string_of_list_ascii (map lower_char (list_ascii_of_string s)).

(** [/^https?:\/\//i.test(s)] *)
Definition is_http_url (s : string) : bool :=
  let l := toLowerCase s in
  String.prefix "http://" l || String.prefix "https://" l.

Definition euro : string := "€".

(** [sanitizeUrl(url)] *)
Definition sanitizeUrl (w : world) (url : option string) : option string :=
  match url with
  | None => None
  | Some url =>
      if negb (str_truthy url) then None
      else
        match URL_new w url "https://example.com" with
        | None => None
        | Some u =>
            let href :=
              if String.prefix "http" url then Some url
              else if String.eqb (origin u) "https://example.com" then None
              else Some (href u) in
            match href with
            | None => None
            | Some h =>
                if negb (str_truthy h) then None
                else if negb (is_http_url h) then None
                else Some h
            end
        end
  end.

(** [normCurrency(cur)] *)
Definition normCurrency (cur : string) : string :=
  if negb (str_truthy cur) then "EUR"
  else if String.eqb cur euro then "EUR"
  else toUpperCase cur.

(** [trimTitle(t)] *)
Definition trimTitle (t : option string) : string :=
  trim (replace_ws_runs (opt_or t "")).

(** [parseFloat(v)]; [parseFloat(undefined)] is [NaN]. *)
Definition parse_float (w : world) (v : option string) : float :=
  match v with Some s => parseFloat w s | None => PrimFloat.nan end.

(** [if (title) results.push({ title, ... })], the listing being absent
    when the guard fails *)
Definition push_if (l : option listing) : M state unit :=
  match l with
  | Some l => push l
  | None => ret tt
  end.

(** [items.forEach(f)] *)
Fixpoint for_each {A : Type} (items : list A) (f : A -> M state unit) : M state unit :=
  match items with
  | [] => ret tt
  | x :: rest => f x ;; for_each rest f
  end.

(** [resp.data.expires_in || 7200] *)
Definition lifetime (data : token_data) : float :=
  match expires_in data with
  | Some n => if num_truthy n then n else 7200%float
  | None => 7200%float
  end.

(** ** Token cache *)

(** [getEbayAppToken()] *)
Definition getEbayAppToken (cfg : config) (w : world) : M state (option string) :=
  let now := now w in
  tok <- gets ebayToken ;;
  exp <- gets ebayTokenExp ;;
  if opt_truthy tok && PrimFloat.ltb now (PrimFloat.sub exp 60) then ret tok
  else
    match EBAY_CLIENT_ID cfg, EBAY_CLIENT_SECRET cfg with
    | Some id, Some secret =>
        if negb (str_truthy id) || negb (str_truthy secret) then ret None
        else
          emit (EvTokenPost id secret) ;;
          data <- lift (token_post w id secret) ;;
          store_token (access_token data) (PrimFloat.add now (lifetime data)) ;;
          gets ebayToken
    | _, _ => ret None
    end.

(** ** Structured API *)

Definition browse_source (mp : string) : string :=
  String.append "eBay (" (String.append mp ")").

(** The body of [items.forEach] in [callEbayBrowse] *)
Definition browse_listing (w : world) (mp : string) (it : item_summary) : option listing :=
  let title := trimTitle (is_title it) in
  let price :=
    match is_price it with
    | Some p => Some (parse_float w (bp_value p))
    | None => None
    end in
  let currency :=
    normCurrency
      (opt_or (match is_price it with Some p => bp_currency p | None => None end) "EUR") in
  let link :=
    sanitizeUrl w
      (if opt_truthy (itemWebUrl it) then itemWebUrl it else itemAffiliateWebUrl it) in
  if str_truthy title
  then Some {| title := title; source := browse_source mp; price := price;
               currency := currency; url := link |}
  else None.

(** [for (const mp of marketplaces) { ...; if (results.length >= 6) break; }] *)
Fixpoint browse_loop (w : world) (query token : string) (marketplaces : list string)
  : M state unit :=
  match marketplaces with
  | [] => ret tt
  | mp :: rest =>
      emit (EvBrowseGet query token mp) ;;
      data <- lift (browse_get w query token mp) ;;
      for_each (match itemSummaries data with Some l => l | None => [] end)
        (fun it => push_if (browse_listing w mp it)) ;;
      n <- gets (fun s => List.length (results s)) ;;
      if 6 <=? n then ret tt else browse_loop w query token rest
  end.

(** [callEbayBrowse(results, query)] *)
Definition callEbayBrowse (cfg : config) (w : world) (query : string) : M state bool :=
  emit (EvProvider Browse) ;;
  try_catch
    (token <- getEbayAppToken cfg w ;;
     match token with
     | Some token =>
         if negb (str_truthy token) then ret false
         else browse_loop w query token ["EBAY_GB"] ;; ret true
     | None => ret false
     end)
    (fun e => emit (EvWarn "eBay Browse failed:" e) ;; ret false).

(** ** Legacy API *)

Definition finding_source (globalId : string) : string :=
  String.append "eBay (" (String.append globalId ")").

(** The body of [items.forEach] in [callFinding] *)
Definition finding_listing (w : world) (globalId : string) (it : finding_item)
  : option listing :=
  let title := trimTitle (first (fi_title it)) in
  let pinfo :=
    match first (sellingStatus it) with
    | Some st =>
        match first (currentPrice st) with
        | Some p => p
        | None => {| currencyId := None; value__ := None |}
        end
    | None => {| currencyId := None; value__ := None |}
    end in
  let currency := normCurrency (opt_or (currencyId pinfo) "EUR") in
  let price :=
    if opt_truthy (value__ pinfo) then Some (parse_float w (value__ pinfo)) else None in
  let link := sanitizeUrl w (first (viewItemURL it)) in
  if str_truthy title
  then Some {| title := title; source := finding_source globalId; price := price;
               currency := currency; url := link |}
  else None.

Definition finding_items (data : option finding_data) : list finding_item :=
  match data with
  | Some d =>
      match first (findItemsByKeywordsResponse d) with
      | Some resp =>
          match first (searchResult resp) with
          | Some sr => match item sr with Some l => l | None => [] end
          | None => []
          end
      | None => []
      end
  | None => []
  end.

(** The inner [callFinding(globalId)] *)
Definition callFinding (w : world) (appId query globalId : string) : M state bool :=
  try_catch
    (emit (EvFindingGet globalId appId query) ;;
     data <- lift (finding_get w globalId appId query) ;;
     for_each (finding_items data)
       (fun it => push_if (finding_listing w globalId it)) ;;
     ret true)
    (fun e =>
       emit (EvWarn (String.append "[eBay] " (String.append globalId " failed:")) e) ;;
       ret false).

(** [callEbayFinding(results, query)] *)
Definition callEbayFinding (cfg : config) (w : world) (query : string) : M state bool :=
  emit (EvProvider Finding) ;;
  match EBAY_APP_ID cfg with
  | None => ret false
  | Some appId =>
      if negb (str_truthy appId) then ret false
      else
        ok <- callFinding w appId query "EBAY-IE" ;;
        ok <- (if negb ok then callFinding w appId query "EBAY-GB" else ret ok) ;;
        ok <- (if negb ok then callFinding w appId query "EBAY-US" else ret ok) ;;
        ret ok
  end.

(** ** Scraped sites *)

Definition is_price_char (c : ascii) : bool :=
  Regex.in_ranges [("0", "9"); (".", "."); (",", ",")]%char c.

(** [s.replace(',', '.')]: the first comma only *)
Fixpoint replace_first_comma (l : list ascii) : list ascii :=
  match l with
  | [] => []
  | c :: t => if Ascii.eqb c ","%char then "."%char :: t else c :: replace_first_comma t
  end.

(** [text.replace(/[^0-9.,]/g, '').replace(',', '.')] *)
Definition price_text (s : string) : string :=
  string_of_list_ascii
    (replace_first_comma (filter is_price_char (list_ascii_of_string s))).

(** The body of [.each] in the two scrapers *)
Definition scraped_listing (w : world) (site base : string) (c : card) : option listing :=
  let title := trimTitle (Some (card_title c)) in
  let priceText := price_text (card_price c) in
  let price := if str_truthy priceText then Some (parseFloat w priceText) else None in
  let href := opt_or (card_href c) "" in
  let href :=
    if str_truthy href && negb (is_http_url href) then String.append base href else href in
  let link := sanitizeUrl w (Some href) in
  if str_truthy title
  then Some {| title := title; source := site; price := price;
               currency := "EUR"; url := link |}
  else None.

(** [`https://www.donedeal.ie/search?q=${q}`] *)
Definition donedeal_url (q : string) : string :=
  String.append "https://www.donedeal.ie/search?q=" q.

(** [`https://www.adverts.ie/for-sale/q_${q}/`] *)
Definition adverts_url (q : string) : string :=
  String.append "https://www.adverts.ie/for-sale/q_" (String.append q "/").

(** [scrapeDoneDeal(results, query)] *)
Definition scrapeDoneDeal (w : world) (query : string) : M state unit :=
  emit (EvProvider DoneDeal) ;;
  try_catch
    (q <- lift (encodeURIComponent query) ;;
     let url := donedeal_url q in
     emit (EvDoneDealGet url) ;;
     cards <- lift (donedeal_get w url) ;;
     for_each (slice0 12 cards)
       (fun c => push_if (scraped_listing w "DoneDeal" "https://www.donedeal.ie" c)))
    (fun _ => ret tt).

(** [scrapeAdverts(results, query)] *)
Definition scrapeAdverts (w : world) (query : string) : M state unit :=
  emit (EvProvider Adverts) ;;
  try_catch
    (q <- lift (encodeURIComponent query) ;;
     let url := adverts_url q in
     emit (EvAdvertsGet url) ;;
     cards <- lift (adverts_get w url) ;;
     for_each (slice0 12 cards)
       (fun c => push_if (scraped_listing w "Adverts.ie" "https://www.adverts.ie" c)))
    (fun _ => ret tt).

(** ** De-duplication *)

(** [(r.price || '')], as it enters the key *)
Definition price_key (w : world) (p : option float) : string :=
  match p with
  | Some x => if num_truthy x then Number_toString w x else ""
  | None => ""
  end.

(** [(r.title || '') + '|' + (r.price || '') + '|' + (r.source || '')] *)
Definition key (w : world) (r : listing) : string :=
  String.append (title r)
    (String.append "|"
       (String.append (price_key w (price r))
          (String.append "|" (source r)))).

(** The loop [for (const r of results) { ... }] over what is left of
    [results], with the [seen] set and the [dedup] array built so far. *)
Fixpoint dedup_loop (w : world) (rs : list listing) (seen : list string)
  (dedup : list listing) : list listing :=
  match rs with
  | [] => dedup
  | r :: rest =>
      let k := key w r in
      if negb (mem_str k seen) && str_truthy (title r)
      then dedup_loop w rest (set_add seen k) (dedup ++ [r])
      else dedup_loop w rest seen dedup
  end.

Definition dedup (w : world) (rs : list listing) : list listing :=
  dedup_loop w rs [] [].

(** ** The handler *)

Record search_request : Type := { query : option string }.

Inductive response_body : Type :=
| ErrorBody (error : string)
| SearchBody (regionNote : string) (listings : list listing).

Record http_response : Type := { status : nat; body : response_body }.

(** Steps 1 to 3 of the handler: all providers, in order. *)
Definition collect (cfg : config) (w : world) (query : string) : M state unit :=
  fresh_results ;;
  used <- callEbayBrowse cfg w query ;;
  n <- gets (fun s => List.length (results s)) ;;
  (if negb used || (n <? 4) then callEbayFinding cfg w query ;; ret tt else ret tt) ;;
  scrapeDoneDeal w query ;;
  scrapeAdverts w query.

(** [app.post('/api/search', ...)] *)
Definition api_search (cfg : config) (w : world) (req : search_request)
  : M state http_response :=
  try_catch
    (if negb (opt_truthy (query req))
     then ret {| status := 400; body := ErrorBody "query required" |}
     else
       let q := opt_or (query req) "" in
       collect cfg w q ;;
       rs <- gets results ;;
       ret {| status := 200;
              body := SearchBody "Irish & British marketplaces" (dedup w rs) |})
    (fun err =>
       emit (EvError "Search error:" err) ;;
       ret {| status := 500;
              body := ErrorBody (str_or (message err) "search error") |}).

End Market.

(* ====================================================================== *)
(** * The intent endpoint *)
(* ====================================================================== *)

Module Intent.

(** ** The request body

    A field of the body is absent, [null], or given; the destructuring
    defaults only replace an absent one. *)
Inductive field (A : Type) : Type :=
| Absent
| Null
| Given (a : A).
Arguments Absent {A}.
Arguments Null {A}.
Arguments Given {A} a.

(** A label as the front end sends it: a string, or an object with a
    description. *)
Inductive label_item : Type :=
| LabelText (s : string)
| LabelObject (description : option string).

Record opinion : Type :=
  { brand : option string;
    model : option string;
    product_type : option string;
    confidence : option float }.

Record request : Type :=
  { labels : field (list label_item);
    logos : field (list string);
    webEntities : option (list string);
    bestGuess : option string;
    ocrText : option string;
    modelHints : option (list string);
    userPrompt : option string;
    secondOpinion : option opinion }.

Record env : Type :=
  { OPENAI_MODEL : option string;
    chat_create : string -> string -> string -> result (option Vision.chat_completion);
    JSON_parse : string -> option jsval;
    Number_toString : float -> string }.

Inductive event : Type :=
| EvChatCreate (model system user : string)
| EvError (what : string) (e : exn).

Definition trace : Type := list event.

Definition emit (ev : event) : M trace unit := modify (fun t => t ++ [ev]).

Record http_response : Type := { status : nat; body : jsval }.

(** ** Strings *)

Definition nl : string := String (ascii_of_nat 10) EmptyString.

Definition dq : string := String (ascii_of_nat 34) EmptyString.

(** [a + b + ...] *)
Fixpoint cat (parts : list string) : string :=
  match parts with
  | [] => ""
  | p :: rest => String.append p (cat rest)
  end.

(** [a || b] where [a] may be missing *)
Definition opt_or (a : option string) (b : string) : string :=
  match a with Some s => str_or s b | None => b end.

(** [arr.join(sep)] for an array of strings *)
Definition join (sep : string) (l : list string) : string := String.concat sep l.

(** [s.split(',')[0]]: what comes before the first comma *)
Fixpoint before_comma (l : list ascii) : list ascii :=
  match l with
  | [] => []
  | c :: t => if Ascii.eqb c ","%char then [] else c :: before_comma t
  end.

Definition first_segment (s : string) : string :=
  string_of_list_ascii (before_comma (list_ascii_of_string s)).

(** The high surrogate of the character whose four UTF-8 bytes are given,
    in the three-byte form of a lone surrogate. *)
Definition high_surrogate (b0 b1 b2 b3 : N) : list ascii :=
  let cp := ((b0 mod 8) * 262144 + (b1 mod 64) * 4096 + (b2 mod 64) * 64 + b3 mod 64)%N in
  let hs := (55296 + (cp - 65536) / 1024)%N in
  [ascii_of_N 237; ascii_of_N (128 + (hs / 64) mod 64);
   ascii_of_N (128 + hs mod 64)].

(** The first [n] UTF-16 code units of a text kept in UTF-8.  A character
    of four bytes counts for two units; [cont] bytes still belong to the
    character that was counted last. *)
Fixpoint take_units (n cont : nat) (l : list ascii) : list ascii :=
  match l with
  | [] => []
  | c :: t =>
      match cont with
      | S k => c :: take_units n k t
      | 0 =>
          match n with
          | 0 => []
          | S n' =>
              let b := nat_of_ascii c in
              if b <? 192 then c :: take_units n' 0 t
              else if b <? 224 then c :: take_units n' 1 t
              else if b <? 240 then c :: take_units n' 2 t
              else
                match n' with
                | S n'' => c :: take_units n'' 3 t
                | 0 =>
                    match map N_of_ascii (firstn 3 t) with
                    | [b1; b2; b3] => high_surrogate (N_of_ascii c) b1 b2 b3
                    | _ => [c]
                    end
                end
          end
      end
  end.

(** [s.slice(0, n)] *)
Definition slice_to (n : nat) (s : string) : string :=
  string_of_list_ascii (take_units n 0 (list_ascii_of_string s)).

(** ** Objects *)

(** [obj.k = v] on the properties of an object: an own property keeps its
    place, a new one goes last. *)
Fixpoint set_assoc (k : string) (v : jsval) (ps : list (string * jsval))
  : list (string * jsval) :=
  match ps with
  | [] => [(k, v)]
  | (k', v') :: rest =>
      if String.eqb k k' then (k, v) :: rest else (k', v') :: set_assoc k v rest
  end.

(** [parsed.k = v] as far as the answer shows it: a property set on an
    array is not serialised, and outside strict mode setting one on a
    primitive does nothing. *)
Definition set_prop (parsed : jsval) (k : string) (v : jsval) : jsval :=
  match parsed with
  | VObj ps => VObj (set_assoc k v ps)
  | _ => parsed
  end.

(** [parsed.k]; a [TypeError] on [null]. *)
Definition read (parsed : jsval) (k : string) : M trace jsval :=
  match get_prop parsed k with
  | Some v => ret v
  | None => throw (type_error_read parsed k)
  end.

(** ** The prompt *)

Definition label_text (l : label_item) : string :=
  match l with
  | LabelText s => s
  | LabelObject (Some d) => d
  | LabelObject None => ""
  end.

(** [[a, b, ...].filter(Boolean).join(' ')] *)
Definition words (l : list string) : string := join " " (filter str_truthy l).

Definition or_nil {A : Type} (o : option (list A)) : list A :=
  match o with Some l => l | None => [] end.

Definition system_prompt : string :=
  cat ["You classify intent and craft a concrete marketplace query."; nl;
       "Return JSON:"; nl;
       "- intent: ["; dq; "buy"; dq; ","; dq; "sell"; dq; ","; dq; "compare"; dq;
       ","; dq; "clarify"; dq; "]"; nl;
       "- confidence: 0..1"; nl;
       "- bestQuery: <=5 tokens; prefer BRAND + MODEL (e.g., "; dq; "lego 75288"; dq;
       ", "; dq; "dyson v8 absolute"; dq; ")"; nl;
       "- followUp: optional"].

(** The signals as the handler extracts them from the body. *)
Record signals : Type :=
  { labelList : string;
    brandList : string;
    entities : string;
    hints : string;
    soBrand : string;
    soModel : string;
    soType : string;
    soConf : float }.

Definition user_prompt (E : env) (req : request) (sg : signals) : string :=
  cat ["Signals:"; nl;
       "Logos: "; str_or (brandList sg) "none"; nl;
       "OpenAI Vision: "; words [soBrand sg; soModel sg; soType sg];
       " (conf="; Number_toString E (soConf sg); ")"; nl;
       "Best guess: "; opt_or (bestGuess req) "none"; nl;
       "Entities: "; str_or (entities sg) "none"; nl;
       "Labels: "; str_or (labelList sg) "none"; nl;
       "OCR: "; slice_to 180 (opt_or (ocrText req) ""); nl;
       "Model hints: "; str_or (hints sg) "none"; nl;
       "User prompt: "; opt_or (userPrompt req) "none"; nl;
       nl;
       "Rule: Prefer BRAND + MODEL when available. No filler words."].

(** [labels = []] and [labels.slice(...)]: the default replaces an absent
    field only, and [.slice] on [null] throws. *)
Definition array_field {A : Type} (f : field (list A)) : M trace (list A) :=
  match f with
  | Absent => ret []
  | Given l => ret l
  | Null => throw (type_error_read VNull "slice")
  end.

Definition extract_signals (req : request) : M trace signals :=
  ls <- array_field (labels req) ;;
  let labelList := join ", " (map label_text (slice0 12 ls)) in
  lg <- array_field (logos req) ;;
  let brandList := join ", " (slice0 8 lg) in
  let entities := join ", " (slice0 10 (or_nil (webEntities req))) in
  let hints := join " " (slice0 8 (or_nil (modelHints req))) in
  let so := secondOpinion req in
  ret {| labelList := labelList;
         brandList := brandList;
         entities := entities;
         hints := hints;
         soBrand := opt_or (match so with Some o => brand o | None => None end) "";
         soModel := opt_or (match so with Some o => model o | None => None end) "";
         soType := opt_or (match so with Some o => product_type o | None => None end) "";
         soConf :=
           match so with
           | Some o =>
               match confidence o with
               | Some x => JSMath.or_zero x
               | None => 0%float
               end
           | None => 0%float
           end |}.

(** [0.6] *)
Definition point_six : float := 0x1.3333333333333p-1%float.

(** The query used when the reply does not parse. *)
Definition fallback_query (sg : signals) : string :=
  str_or (words [soBrand sg; soModel sg])
    (str_or (hints sg) (str_or (first_segment (entities sg)) "product")).

(** The query used when the reply has none. *)
Definition default_query (sg : signals) : string :=
  str_or (words [soBrand sg; soModel sg]) (str_or (hints sg) "product").

Definition fallback_reply (sg : signals) : jsval :=
  VObj [("intent", VStr "clarify");
        ("confidence", VNum point_six);
        ("bestQuery", VStr (fallback_query sg));
        ("followUp", VStr "Which exact product name/model?")].

(** [app.post('/api/openai/intent', ...)] *)
Definition api_intent (E : env) (req : request) : M trace http_response :=
  try_catch
    (sg <- extract_signals req ;;
     let mdl := match OPENAI_MODEL E with
                | Some m => str_or m "gpt-4o-mini"
                | None => "gpt-4o-mini"
                end in
     let user := user_prompt E req sg in
     emit (EvChatCreate mdl system_prompt user) ;;
     completion <- lift (chat_create E mdl system_prompt user) ;;
     let raw :=
       match Vision.first_content completion with
       | Some c => str_or (trim c) ""
       | None => ""
       end in
     let parsed :=
       match JSON_parse E raw with
       | Some j => j
       | None => fallback_reply sg
       end in
     i <- read parsed "intent" ;;
     let parsed := if truthy i then parsed else set_prop parsed "intent" (VStr "clarify") in
     c <- read parsed "confidence" ;;
     let parsed :=
       match c with
       | VNum _ => parsed
       | _ => set_prop parsed "confidence" (VNum point_six)
       end in
     b <- read parsed "bestQuery" ;;
     let parsed :=
       if truthy b then parsed
       else set_prop parsed "bestQuery" (VStr (default_query sg)) in
     ret {| status := 200; body := parsed |})
    (fun err =>
       emit (EvError "OpenAI intent error:" err) ;;
       ret {| status := 500;
              body := VObj [("error", VStr (str_or (message err) "openai error"))] |}).

End Intent.

(* ====================================================================== *)
(** * Facts about sets kept as arrays *)
(* ====================================================================== *)

Section SetFacts.

Lemma mem_str_In (x : string) (l : list string) : mem_str x l = true <-> In x l.
Proof.
  induction l as [|y l IH]; simpl.
  - split; [discriminate | tauto].
  - rewrite orb_true_iff, IH, String.eqb_eq. split; intros [H|H]; auto.
Qed.

Lemma mem_str_not_In (x : string) (l : list string) : mem_str x l = false <-> ~ In x l.
Proof.
  rewrite <- mem_str_In. destruct (mem_str x l); split; congruence.
Qed.

Lemma set_add_In (set : list string) (x y : string) :
  In y (set_add set x) <-> In y set \/ y = x.
Proof.
  unfold set_add. destruct (mem_str x set) eqn:Hm.
  - apply mem_str_In in Hm. split; [tauto | intros [H| ->]; assumption].
  - rewrite in_app_iff. simpl. split; intros [H|H]; auto.
    + destruct H as [H|[]]; auto.
Qed.

Lemma set_add_NoDup (set : list string) (x : string) :
  NoDup set -> NoDup (set_add set x).
Proof.
  intros Hn. unfold set_add. destruct (mem_str x set) eqn:Hm; [assumption|].
  apply mem_str_not_In in Hm.
  apply NoDup_rev in Hn. rewrite <- (rev_involutive (set ++ [x])).
  apply NoDup_rev. rewrite rev_app_distr. simpl. constructor; [|assumption].
  now rewrite <- in_rev.
Qed.

(** Adding through any renaming [f] of the candidates keeps what is there,
    in place, and adds exactly the renamed candidates. *)
Lemma fold_add_In (f : string -> string) (l set : list string) (y : string) :
  In y (fold_left (fun h n => set_add h (f n)) l set) <-> In y set \/ In y (map f l).
Proof.
  revert set. induction l as [|a l IH]; intros set; simpl.
  - tauto.
  - rewrite IH, set_add_In. split; intros H; intuition auto.
Qed.

Lemma fold_add_NoDup (f : string -> string) (l set : list string) :
  NoDup set -> NoDup (fold_left (fun h n => set_add h (f n)) l set).
Proof.
  revert set. induction l as [|a l IH]; intros set Hn; simpl; [assumption|].
  apply IH, set_add_NoDup, Hn.
Qed.

Lemma array_from_set_In (l : list string) (y : string) :
  In y (array_from_set l) <-> In y l.
Proof.
  unfold array_from_set.
  change set_add with (fun h n => set_add h ((fun z : string => z) n)).
  rewrite fold_add_In, map_id. simpl. tauto.
Qed.

Lemma array_from_set_NoDup (l : list string) : NoDup (array_from_set l).
Proof.
  unfold array_from_set.
  change set_add with (fun h n => set_add h ((fun z : string => z) n)).
  apply fold_add_NoDup. constructor.
Qed.

End SetFacts.

(** Unfolds the plumbing of a run so that the answers of the environment
    can be rewritten in. *)
Ltac run_steps :=
  unfold Eff.bind, Eff.ret, Eff.lift, Eff.throw, Eff.try_catch, Eff.modify,
    Eff.gets in *; simpl in *.

(* ====================================================================== *)
(** * Facts about doubles that are whole numbers *)
(* ====================================================================== *)

(** The clock of the token cache counts whole seconds.  On whole numbers
    between 0 and [2^53] the addition, the subtraction and the comparison of
    doubles are exact; this is shown here from the specification of the
    operations on doubles. *)
Section DoubleFacts.

Local Open Scope Z_scope.

Lemma digits2_size (p : positive) : digits2_pos p = Pos.size p.
Proof. induction p; simpl; congruence. Qed.

Lemma iter_pos_iter {A : Type} (f : A -> A) (n : positive) (x : A) :
  SpecFloat.iter_pos f n x = Pos.iter f x n.
Proof.
  revert x. induction n as [n IH|n IH|]; intros x; simpl.
  - rewrite !IH. now rewrite !Pos.iter_swap.
  - now rewrite !IH.
  - reflexivity.
Qed.

Lemma Zpos_shiftl (p : positive) (k : N) :
  Zpos (Pos.shiftl p k) = Zpos p * 2 ^ Z.of_N k.
Proof.
  destruct k as [|k]; [simpl; lia|].
  change (Pos.shiftl p (Npos k)) with (Pos.iter xO p k).
  change (Z.of_N (Npos k)) with (Zpos k).
  induction k as [|k IH] using Pos.peano_ind.
  - simpl. lia.
  - rewrite Pos.iter_succ, Pos2Z.inj_xO, IH, Pos2Z.inj_succ, Z.pow_succ_r by lia. lia.
Qed.

Lemma shiftl_shiftl (p : positive) (a b : N) :
  Pos.shiftl (Pos.shiftl p a) b = Pos.shiftl p (a + b).
Proof.
  apply Pos2Z.inj. rewrite !Zpos_shiftl, N2Z.inj_add, Z.pow_add_r by lia. lia.
Qed.

Lemma size_shiftl (p : positive) (k : N) :
  Zpos (Pos.size (Pos.shiftl p k)) = Zpos (Pos.size p) + Z.of_N k.
Proof.
  destruct k as [|k]; [simpl; lia|].
  change (Pos.shiftl p (Npos k)) with (Pos.iter xO p k).
  change (Z.of_N (Npos k)) with (Zpos k).
  induction k as [|k IH] using Pos.peano_ind.
  - simpl. lia.
  - rewrite Pos.iter_succ. simpl Pos.size. rewrite !Pos2Z.inj_succ, IH. lia.
Qed.

Lemma size_bounds (p : positive) :
  2 ^ (Zpos (Pos.size p) - 1) <= Zpos p < 2 ^ Zpos (Pos.size p).
Proof.
  pose proof (Pos.size_gt p) as Hgt. pose proof (Pos.size_le p) as Hle.
  apply Pos2Z.pos_lt_pos in Hgt. apply Pos2Z.pos_le_pos in Hle.
  rewrite Pos2Z.inj_pow in Hgt, Hle. 
  change (Z.pos 2) with 2 in Hle.
  replace (Zpos (Pos.size p)) with (Z.succ (Zpos (Pos.size p) - 1)) in Hle at 1 by lia.
  rewrite Z.pow_succ_r in Hle by lia. lia.
Qed.

Lemma size_mono (a b : positive) :
  (a <= b)%positive -> Zpos (Pos.size a) <= Zpos (Pos.size b).
Proof.
  intros Hab. destruct (Z.le_gt_cases (Zpos (Pos.size a)) (Zpos (Pos.size b))) as [H|H];
    [exact H|exfalso].
  pose proof (size_bounds a) as [Ha _]. pose proof (size_bounds b) as [_ Hb].
  assert (2 ^ Zpos (Pos.size b) <= 2 ^ (Zpos (Pos.size a) - 1))
    by (apply Z.pow_le_mono_r; lia).
  apply Pos2Z.pos_le_pos in Hab. lia.
Qed.

Lemma size_le_53 (p : positive) : Zpos p < 2 ^ 53 -> Zpos (Pos.size p) <= 53.
Proof.
  intros Hp. pose proof (size_bounds p) as [Hlo _].
  destruct (Z.le_gt_cases (Zpos (Pos.size p)) 53) as [H|H]; [exact H|exfalso].
  assert (2 ^ 53 <= 2 ^ (Zpos (Pos.size p) - 1)) by (apply Z.pow_le_mono_r; lia).
  lia.
Qed.

Lemma shr_exact (n : positive) (q : positive) :
  Pos.iter shr_1 {| shr_m := Zpos (Pos.iter xO q n); shr_r := false; shr_s := false |} n
  = {| shr_m := Zpos q; shr_r := false; shr_s := false |}.
Proof.
  induction n as [|n IH] using Pos.peano_ind.
  - reflexivity.
  - rewrite Pos.iter_succ_r, Pos.iter_succ. simpl. exact IH.
Qed.

Lemma fexp_normal (x : Z) : -1021 <= x -> fexp prec emax x = x - 53.
Proof. intros H. unfold fexp, emin, prec, emax. lia. Qed.

(** Rounding a mantissa of 53 bits leaves it as it is. *)
Lemma round_aux_53 (q : positive) (e : Z) :
  Zpos (Pos.size q) = 53 -> -1074 <= e <= 971 ->
  binary_round_aux prec emax false (Zpos q) e loc_Exact = S754_finite false q e.
Proof.
  intros Hq He. unfold binary_round_aux, shr_fexp. cbn [Zdigits2].
  rewrite digits2_size, Hq, fexp_normal by lia.
  replace (53 + e - 53 - e) with 0 by lia.
  cbn [shr shr_record_of_loc shr_m loc_of_shr_record round_nearest_even Zdigits2].
  rewrite digits2_size, Hq, fexp_normal by lia.
  replace (53 + e - 53 - e) with 0 by lia.
  cbn [shr shr_record_of_loc shr_m].
  unfold emax, prec.
  replace (e <=? 1024 - 53) with true by (symmetry; apply Z.leb_le; lia).
  reflexivity.
Qed.

Lemma round_aux_shifted (q : positive) (n : positive) (e : Z) :
  Zpos (Pos.size q) = 53 -> -1074 <= e + Zpos n <= 971 ->
  binary_round_aux prec emax false (Zpos (Pos.iter xO q n)) e loc_Exact
  = S754_finite false q (e + Zpos n).
Proof.
  intros Hq He.
  assert (Hs : Zpos (Pos.size (Pos.iter xO q n)) = 53 + Zpos n).
  { change (Pos.iter xO q n) with (Pos.shiftl q (Npos n)).
    rewrite size_shiftl, Hq. reflexivity. }
  unfold binary_round_aux, shr_fexp. cbn [Zdigits2].
  rewrite digits2_size, Hs, fexp_normal by lia.
  replace (53 + Zpos n + e - 53 - e) with (Zpos n) by lia.
  cbn [shr shr_record_of_loc]. rewrite iter_pos_iter, shr_exact.
  cbn [shr_m loc_of_shr_record round_nearest_even Zdigits2].
  rewrite digits2_size, Hq, fexp_normal by lia.
  replace (53 + (e + Zpos n) - 53 - (e + Zpos n)) with 0 by lia.
  cbn [shr shr_record_of_loc shr_m].
  unfold emax, prec.
  replace (e + Zpos n <=? 1024 - 53) with true by (symmetry; apply Z.leb_le; lia).
  reflexivity.
Qed.

(** The double of a positive integer below [2^53]: the integer shifted to
    53 bits. *)
Definition nf (p : positive) : spec_float :=
  S754_finite false (Pos.shiftl p (Z.to_N (53 - Zpos (Pos.size p))))
    (Zpos (Pos.size p) - 53).

(** Rounding [p * 2^k * 2^e], for [p] below [2^53] and a result that is a
    normal number, is exact. *)
Lemma round_exact (p : positive) (k : N) (e : Z) :
  Zpos (Pos.size p) <= 53 ->
  -1074 <= e + Z.of_N k + Zpos (Pos.size p) - 53 <= 971 ->
  binary_round prec emax false (Pos.shiftl p k) e
  = S754_finite false (Pos.shiftl p (Z.to_N (53 - Zpos (Pos.size p))))
      (e + Z.of_N k + Zpos (Pos.size p) - 53).
Proof.
  intros Hp He. unfold binary_round, shl_align.
  rewrite digits2_size, size_shiftl, fexp_normal by lia.
  set (s := Zpos (Pos.size p)) in *.
  destruct (s + Z.of_N k + e - 53 - e) as [|d|d] eqn:Hd.
  - (* already 53 bits *)
    assert (Hk : Z.to_N (53 - s) = k) by lia. rewrite Hk.
    rewrite round_aux_53; [f_equal; lia | rewrite size_shiftl; fold s; lia | lia].
  - (* more than 53 bits: d trailing zeros go *)
    assert (Hk : k = (Z.to_N (53 - s) + Npos d)%N) by lia.
    rewrite Hk at 1. rewrite <- shiftl_shiftl.
    change (Pos.shiftl ?x (Npos d)) with (Pos.iter xO x d).
    rewrite round_aux_shifted; [f_equal; lia | rewrite size_shiftl; fold s; lia | lia].
  - (* fewer than 53 bits: shifted left *)
    change (Pos.iter xO (Pos.shiftl p k) d) with (Pos.shiftl (Pos.shiftl p k) (Npos d)).
    rewrite shiftl_shiftl.
    assert (Hk : (k + Npos d)%N = Z.to_N (53 - s)) by lia. rewrite Hk.
    rewrite round_aux_53; [f_equal; lia | rewrite size_shiftl; fold s; lia | lia].
Qed.

Lemma normalize_nf (p : positive) :
  Zpos p < 2 ^ 53 -> binary_normalize prec emax (Zpos p) 0 false = nf p.
Proof.
  intros Hp. apply size_le_53 in Hp. unfold binary_normalize, nf.
  change p with (Pos.shiftl p 0) at 1.
  rewrite round_exact by (simpl Z.of_N; lia). f_equal; simpl Z.of_N; lia.
Qed.

Lemma sub_nf (a b : positive) :
  Zpos a < 2 ^ 53 -> (b < a)%positive ->
  SFsub prec emax (nf a) (nf b) = nf (a - b).
Proof.
  intros Ha Hlt.
  assert (Hsa := size_le_53 a Ha).
  assert (Hb : Zpos b < 2 ^ 53) by (apply Pos2Z.pos_lt_pos in Hlt; lia).
  assert (Hsb := size_le_53 b Hb).
  assert (Hmono := size_mono b a (Pos.lt_le_incl _ _ Hlt)).
  assert (Hd : Zpos (a - b) < 2 ^ 53) by (rewrite Pos2Z.inj_sub by assumption; lia).
  assert (Hsd := size_le_53 (a - b) Hd).
  assert (Hmd : Zpos (Pos.size (a - b)) <= Zpos (Pos.size a))
    by (apply size_mono; lia).
  unfold nf at 1 2. unfold SFsub. cbn [cond_Zopp].
  set (sa := Zpos (Pos.size a)) in *. set (sb := Zpos (Pos.size b)) in *.
  replace (Z.min (sa - 53) (sb - 53)) with (sb - 53) by lia.
  assert (Hfa : fst (shl_align (Pos.shiftl a (Z.to_N (53 - sa))) (sa - 53) (sb - 53))
                = Pos.shiftl a (Z.to_N (53 - sb))).
  { unfold shl_align. destruct (sb - 53 - (sa - 53)) as [|d|d] eqn:Hdd; cbn [fst].
    - f_equal. lia.
    - lia.
    - change (Pos.iter xO ?x d) with (Pos.shiftl x (Npos d)).
      rewrite shiftl_shiftl. f_equal. lia. }
  assert (Hfb : fst (shl_align (Pos.shiftl b (Z.to_N (53 - sb))) (sb - 53) (sb - 53))
                = Pos.shiftl b (Z.to_N (53 - sb))).
  { unfold shl_align. rewrite Z.sub_diag. reflexivity. }
  rewrite Hfa, Hfb.
  assert (Hdiff : Zpos (Pos.shiftl a (Z.to_N (53 - sb))) - Zpos (Pos.shiftl b (Z.to_N (53 - sb)))
                  = Zpos (Pos.shiftl (a - b) (Z.to_N (53 - sb)))).
  { rewrite !Zpos_shiftl, Pos2Z.inj_sub by assumption. lia. }
  rewrite Hdiff. unfold binary_normalize, nf.
  rewrite round_exact by lia. f_equal. lia.
Qed.

Lemma compare_nf (a b : positive) :
  Zpos a < 2 ^ 53 -> Zpos b < 2 ^ 53 ->
  SFcompare (nf a) (nf b) = Some (Pos.compare a b).
Proof.
  intros Ha Hb. assert (Hsa := size_le_53 a Ha). assert (Hsb := size_le_53 b Hb).
  unfold nf, SFcompare. f_equal.
  set (sa := Zpos (Pos.size a)) in *. set (sb := Zpos (Pos.size b)) in *.
  destruct (Z.compare_spec (sa - 53) (sb - 53)) as [Heq|Hlt|Hgt].
  - assert (Hs : sa = sb) by lia. rewrite Hs.
    change (Pos.compare_cont Eq ?x ?y) with (Pos.compare x y).
    rewrite !Pos2Z.inj_compare, !Zpos_shiftl.
    assert (Hc : 0 < 2 ^ Z.of_N (Z.to_N (53 - sb))) by (apply Z.pow_pos_nonneg; lia).
    set (c := 2 ^ Z.of_N (Z.to_N (53 - sb))) in *.
    destruct (Z.compare_spec (Zpos a) (Zpos b));
      destruct (Z.compare_spec (Zpos a * c) (Zpos b * c));
      try reflexivity; exfalso; nia.
  - symmetry. apply Pos.compare_lt_iff. apply Pos2Z.pos_lt_pos.
    destruct (Z.lt_ge_cases (Zpos a) (Zpos b)) as [H|H]; [exact H|exfalso].
    assert (sb <= sa) by (apply size_mono; lia). lia.
  - symmetry. apply Pos.compare_gt_iff. apply Pos2Z.pos_lt_pos.
    destruct (Z.lt_ge_cases (Zpos b) (Zpos a)) as [H|H]; [exact H|exfalso].
    assert (sa <= sb) by (apply size_mono; lia). lia.
Qed.


Lemma add_nf_ordered (a b : positive) :
  Zpos (a + b) < 2 ^ 53 -> (b <= a)%positive ->
  SFadd prec emax (nf a) (nf b) = nf (a + b)
  /\ SFadd prec emax (nf b) (nf a) = nf (a + b).
Proof.
  intros Hab Hle.
  assert (Ha : Zpos a < 2 ^ 53) by (rewrite Pos2Z.inj_add in Hab; lia).
  assert (Hb : Zpos b < 2 ^ 53) by (rewrite Pos2Z.inj_add in Hab; lia).
  assert (Hsa := size_le_53 a Ha). assert (Hsb := size_le_53 b Hb).
  assert (Hss := size_le_53 (a + b) Hab).
  assert (Hmono := size_mono b a Hle).
  assert (Hms : Zpos (Pos.size a) <= Zpos (Pos.size (a + b)))
    by (apply size_mono; lia).
  unfold nf at 1 2 4 5. unfold SFadd. cbn [cond_Zopp].
  set (sa := Zpos (Pos.size a)) in *. set (sb := Zpos (Pos.size b)) in *.
  replace (Z.min (sa - 53) (sb - 53)) with (sb - 53) by lia.
  replace (Z.min (sb - 53) (sa - 53)) with (sb - 53) by lia.
  assert (Hfa : fst (shl_align (Pos.shiftl a (Z.to_N (53 - sa))) (sa - 53) (sb - 53))
                = Pos.shiftl a (Z.to_N (53 - sb))).
  { unfold shl_align. destruct (sb - 53 - (sa - 53)) as [|d|d] eqn:Hdd; cbn [fst].
    - f_equal. lia.
    - lia.
    - change (Pos.iter xO ?x d) with (Pos.shiftl x (Npos d)).
      rewrite shiftl_shiftl. f_equal. lia. }
  assert (Hfb : fst (shl_align (Pos.shiftl b (Z.to_N (53 - sb))) (sb - 53) (sb - 53))
                = Pos.shiftl b (Z.to_N (53 - sb))).
  { unfold shl_align. rewrite Z.sub_diag. reflexivity. }
  rewrite Hfa, Hfb.
  assert (Hsum : Zpos (Pos.shiftl a (Z.to_N (53 - sb))) + Zpos (Pos.shiftl b (Z.to_N (53 - sb)))
                 = Zpos (Pos.shiftl (a + b) (Z.to_N (53 - sb)))).
  { rewrite !Zpos_shiftl, Pos2Z.inj_add. lia. }
  rewrite (Z.add_comm (Zpos (Pos.shiftl b _))), Hsum. unfold binary_normalize, nf.
  rewrite round_exact by lia. split; f_equal; lia.
Qed.

Lemma Prim2SF_float_of_Z (z : Z) :
  0 < z < 2 ^ 53 -> Prim2SF (JSMath.float_of_Z z) = nf (Z.to_pos z).
Proof.
  intros Hz. unfold JSMath.float_of_Z.
  replace (z <? 0) with false by (symmetry; apply Z.ltb_ge; lia).
  rewrite of_uint63_spec, Uint63.of_Z_spec, Z.mod_small
    by (change Uint63.wB with (2 ^ 63); split; [lia|];
        apply Z.lt_trans with (2 ^ 53); [lia | reflexivity]).
  destruct z as [|p|p]; try lia. apply normalize_nf. lia.
Qed.

(** On whole numbers between 0 and [2^53] the comparison and the
    subtraction of doubles are those of the integers. *)
Lemma ltb_float_of_Z (a b : Z) :
  0 < a < 2 ^ 53 -> 0 < b < 2 ^ 53 ->
  PrimFloat.ltb (JSMath.float_of_Z a) (JSMath.float_of_Z b) = (a <? b).
Proof.
  intros Ha Hb. rewrite FloatAxioms.ltb_spec, !Prim2SF_float_of_Z by assumption.
  unfold SFltb. rewrite compare_nf by (rewrite Z2Pos.id; lia).
  rewrite <- Z2Pos.inj_compare by lia.
  destruct (Z.compare_spec a b) as [H|H|H]; symmetry;
    [apply Z.ltb_ge | apply Z.ltb_lt | apply Z.ltb_ge]; lia.
Qed.

Lemma sub_float_of_Z (a b : Z) :
  0 < b -> b < a -> a < 2 ^ 53 ->
  PrimFloat.sub (JSMath.float_of_Z a) (JSMath.float_of_Z b) = JSMath.float_of_Z (a - b).
Proof.
  intros Hb Hlt Ha. apply Prim2SF_inj.
  rewrite FloatAxioms.sub_spec, !Prim2SF_float_of_Z by lia. unfold SF64sub.
  rewrite sub_nf; [| rewrite Z2Pos.id; lia | lia].
  now rewrite Z2Pos.inj_sub.
Qed.

Lemma add_float_of_Z (a b : Z) :
  0 < a -> 0 < b -> a + b < 2 ^ 53 ->
  PrimFloat.add (JSMath.float_of_Z a) (JSMath.float_of_Z b) = JSMath.float_of_Z (a + b).
Proof.
  intros Ha Hb Hab. apply Prim2SF_inj.
  rewrite FloatAxioms.add_spec, !Prim2SF_float_of_Z by lia. unfold SF64add.
  destruct (Z.le_ge_cases b a) as [H|H].
  - destruct (add_nf_ordered (Z.to_pos a) (Z.to_pos b)) as [-> _];
      [rewrite Pos2Z.inj_add, !Z2Pos.id; lia | lia|].
    now rewrite Z2Pos.inj_add.
  - destruct (add_nf_ordered (Z.to_pos b) (Z.to_pos a)) as [_ ->];
      [rewrite Pos2Z.inj_add, !Z2Pos.id; lia | lia|].
    rewrite Z.add_comm. now rewrite Z2Pos.inj_add.
Qed.

Lemma truthy_float_of_Z (z : Z) :
  0 < z < 2 ^ 53 -> num_truthy (JSMath.float_of_Z z) = true.
Proof.
  intros Hz. unfold num_truthy, PrimFloat.is_nan, PrimFloat.is_zero.
  rewrite !FloatAxioms.eqb_spec, Prim2SF_float_of_Z by assumption.
  unfold SFeqb. rewrite compare_nf by (rewrite Z2Pos.id; lia).
  rewrite Pos.compare_refl. reflexivity.
Qed.

End DoubleFacts.

(* ====================================================================== *)
(** * Facts about upper case *)
(* ====================================================================== *)

Section UpperCaseFacts.

Ltac each_byte c :=
  destruct c as [[] [] [] [] [] [] [] []].

Lemma upper_char_idempotent (c : ascii) : upper_char (upper_char c) = upper_char c.
Proof. each_byte c; reflexivity. Qed.

(** The case mapping of a byte changes ASCII letters only. *)
Lemma upper_char_cases (c : ascii) :
  upper_char c = c \/ (width c = 1 /\ width (upper_char c) = 1).
Proof. each_byte c; vm_compute; auto. Qed.

Lemma upper_char_wide (c : ascii) : width c <> 1 -> upper_char c = c.
Proof. each_byte c; vm_compute; intros H; first [reflexivity | now elim H]. Qed.

Lemma upper_char_cont (c : ascii) :
  is_cont (upper_char c) = is_cont c /\ (is_cont c = true -> upper_char c = c).
Proof.
  each_byte c; vm_compute;
    (split; [reflexivity | intros H; first [reflexivity | discriminate H]]).
Qed.

Lemma wide_not_cont (c : ascii) : width c <> 1 -> is_cont c = false.
Proof. each_byte c; vm_compute; intros H; first [reflexivity | now elim H]. Qed.

Lemma cont_narrow (c : ascii) : is_cont c = true -> width c = 1.
Proof. each_byte c; vm_compute; intros H; first [reflexivity | discriminate H]. Qed.

Lemma special_upper_narrow (c : ascii) (t : list ascii) :
  width c = 1 -> special_upper c t = None.
Proof. intros H. unfold special_upper. now rewrite H. Qed.

Lemma special_upper_wide (c : ascii) (t : list ascii) (r : list ascii) :
  special_upper c t = Some r -> width c <> 1.
Proof. intros H Hw. now rewrite special_upper_narrow in H. Qed.

(** On text without a character of several bytes, the upper-case form is
    the case mapping of the bytes. *)
Lemma upper_bytes_narrow (l : list ascii) :
  Forall (fun c => width c = 1) l -> upper_bytes 0 l = map upper_char l.
Proof.
  induction 1 as [|c l Hc _ IH]; simpl; [reflexivity|].
  now rewrite (special_upper_narrow c l Hc), IH.
Qed.

Lemma special_upper_ext (c : ascii) (t1 t2 : list ascii) :
  take_cont (width c - 1) t1 = take_cont (width c - 1) t2 ->
  special_upper c t1 = special_upper c t2.
Proof. intros H. unfold special_upper. now rewrite H. Qed.

Lemma take_cont_length (k : nat) (l : list ascii) : List.length (take_cont k l) <= k.
Proof.
  revert l. induction k as [|k IH]; intros [|c t]; simpl; try lia.
  destruct (is_cont c); simpl; [specialize (IH t)|]; lia.
Qed.

Lemma take_cont_app (k : nat) (l y : list ascii) :
  List.length (take_cont k l) = k -> take_cont k (l ++ y) = take_cont k l.
Proof.
  revert l. induction k as [|k IH]; intros [|c t] H; simpl in *;
    try reflexivity; try discriminate.
  destruct (is_cont c); [|discriminate]. simpl in H. f_equal. apply IH. lia.
Qed.

(** A text on which upper-casing does nothing, whatever follows it: every
    byte is its own upper case, and every character of several bytes is
    complete and has no upper-case form. *)
Fixpoint settled (l : list ascii) : bool :=
  match l with
  | [] => true
  | c :: t =>
      (if width c <=? 1 then Ascii.eqb (upper_char c) c
       else
         (List.length (take_cont (width c - 1) t) =? width c - 1)
         && match special_upper c t with Some _ => false | None => true end)
      && settled t
  end.

Lemma settled_stable (l : list ascii) :
  settled l = true -> forall y, upper_bytes 0 (l ++ y) = l ++ upper_bytes 0 y.
Proof.
  induction l as [|c t IH]; intros H y; [reflexivity|].
  simpl in H. apply andb_true_iff in H. destruct H as [Hc Ht].
  simpl app. simpl upper_bytes.
  destruct (width c <=? 1) eqn:Hw.
  - apply Nat.leb_le in Hw. apply Ascii.eqb_eq in Hc.
    assert (Hn : width c = 1).
    { unfold width in *. repeat match goal with
        | |- context [if ?b then _ else _] => destruct b end; lia. }
    rewrite special_upper_narrow, Hc, IH by assumption. reflexivity.
  - apply andb_true_iff in Hc. destruct Hc as [Hlen Hsp].
    apply Nat.eqb_eq in Hlen. apply Nat.leb_gt in Hw.
    rewrite (special_upper_ext c (t ++ y) t) by now apply take_cont_app.
    destruct (special_upper c t); [discriminate|].
    rewrite upper_char_wide, IH by (assumption || lia). reflexivity.
Qed.

Lemma lookup_upper_In (cp : N) (table : list (N * list N)) (r : list N) :
  lookup_upper cp table = Some r -> In (cp, r) table.
Proof.
  induction table as [|[k x] rest IH]; simpl; [discriminate|].
  destruct (N.eqb_spec cp k) as [->|_].
  - intros H. injection H as ->. now left.
  - intros H. right. now apply IH.
Qed.

(** What a replacement of the table is like. *)
Definition replacement_ok (r : list ascii) : bool :=
  settled r
  && match r with c :: _ => negb (is_cont c) | [] => false end
  && negb (String.prefix (string_of_list_ascii r) "€").

Lemma upper_table_ok :
  forallb (fun e => replacement_ok (flat_map utf8 (snd e))) upper_table = true.
Proof. vm_compute. reflexivity. Qed.

Lemma special_upper_ok (c : ascii) (t r : list ascii) :
  special_upper c t = Some r -> replacement_ok r = true.
Proof.
  unfold special_upper.
  destruct (width c <=? 1); [discriminate|].
  destruct (_ <? _); [discriminate|].
  destruct (_ <? _)%N; [discriminate|].
  destruct (lookup_upper _ upper_table) as [x|] eqn:Hl; [|discriminate].
  intros H. injection H as <-. apply lookup_upper_In in Hl.
  pose proof upper_table_ok as Hall. rewrite forallb_forall in Hall.
  exact (Hall _ Hl).
Qed.

(** Upper-casing keeps the continuation bytes that a text starts with. *)
Lemma take_cont_upper (k : nat) (l : list ascii) :
  take_cont k (upper_bytes 0 l) = take_cont k l.
Proof.
  revert k. induction l as [|c t IH]; intros k; [reflexivity|].
  simpl upper_bytes. destruct (special_upper c t) as [r|] eqn:Hs.
  - pose proof (wide_not_cont c (special_upper_wide c t r Hs)) as Hc.
    apply special_upper_ok in Hs. unfold replacement_ok in Hs.
    apply andb_true_iff in Hs. destruct Hs as [Hs _].
    apply andb_true_iff in Hs. destruct Hs as [_ Hs].
    destruct r as [|d r]; [discriminate|]. apply negb_true_iff in Hs.
    destruct k; simpl; [reflexivity|]. now rewrite Hs, Hc.
  - destruct k; simpl; [reflexivity|].
    destruct (upper_char_cont c) as [Hsame Hfix]. rewrite Hsame.
    destruct (is_cont c) eqn:Hc; [|reflexivity].
    now rewrite (Hfix eq_refl), IH.
Qed.

(** Upper-casing twice is upper-casing once. *)
Lemma upper_bytes_idempotent (l : list ascii) (skip : nat) :
  upper_bytes 0 (upper_bytes skip l) = upper_bytes skip l.
Proof.
  revert skip. induction l as [|c t IH]; intros skip; [reflexivity|].
  simpl upper_bytes at 2 3. destruct skip as [|k]; [|apply IH].
  destruct (special_upper c t) as [r|] eqn:Hs.
  - pose proof (special_upper_ok c t r Hs) as Hok. unfold replacement_ok in Hok.
    apply andb_true_iff in Hok. destruct Hok as [Hok _].
    apply andb_true_iff in Hok. destruct Hok as [Hok _].
    now rewrite (settled_stable r Hok), IH.
  - simpl upper_bytes.
    destruct (upper_char_cases c) as [Hc|[Hw Hw']].
    + rewrite Hc, (special_upper_ext c (upper_bytes 0 t) t) by apply take_cont_upper.
      now rewrite Hs, Hc, IH.
    + now rewrite special_upper_narrow, upper_char_idempotent, IH.
Qed.

Lemma upper_bytes_nonempty (l : list ascii) : upper_bytes 0 l = [] -> l = [].
Proof.
  destruct l as [|c t]; [reflexivity|]. simpl.
  destruct (special_upper c t) as [r|] eqn:Hs; [|discriminate].
  apply special_upper_ok in Hs. unfold replacement_ok in Hs.
  destruct r; [|discriminate]. discriminate Hs.
Qed.

Lemma toUpperCase_idempotent (s : string) :
  toUpperCase (toUpperCase s) = toUpperCase s.
Proof.
  unfold toUpperCase. rewrite list_ascii_of_string_of_list_ascii.
  now rewrite upper_bytes_idempotent.
Qed.

Lemma toUpperCase_narrow (m : list ascii) :
  Forall (fun c => width c = 1) m ->
  toUpperCase (string_of_list_ascii m) = string_of_list_ascii (map upper_char m).
Proof.
  intros H. unfold toUpperCase.
  now rewrite list_ascii_of_string_of_list_ascii, upper_bytes_narrow.
Qed.

Lemma toUpperCase_truthy (s : string) :
  str_truthy s = true -> str_truthy (toUpperCase s) = true.
Proof.
  unfold toUpperCase. intros H.
  destruct (upper_bytes 0 (list_ascii_of_string s)) as [|c r] eqn:Hu; [|reflexivity].
  apply upper_bytes_nonempty in Hu. destruct s; [discriminate H | discriminate Hu].
Qed.


Lemma take_cont_prefix (k : nat) (l p : list ascii) :
  take_cont k l = p -> exists rest, l = p ++ rest.
Proof.
  revert l p. induction k as [|k IH]; intros l p H.
  - destruct l; simpl in H; subst p; eexists; reflexivity.
  - destruct l as [|c t]; simpl in H; [subst p; now exists []|].
    destruct (is_cont c); [|subst p; eexists; reflexivity].
    destruct p as [|d p]; [discriminate|]. injection H as -> H.
    destruct (IH t p H) as (rest & ->). now exists rest.
Qed.

Lemma prefix_app (r rest : list ascii) :
  String.prefix (string_of_list_ascii r) (string_of_list_ascii (r ++ rest)) = true.
Proof.
  induction r as [|c r IH]; simpl; [destruct rest; reflexivity|].
  destruct (ascii_dec c c) as [_|H]; [exact IH | now elim H].
Qed.

Lemma upper_char_high (c : ascii) :
  (128 <=? nat_of_ascii (upper_char c)) = true -> upper_char c = c.
Proof. each_byte c; vm_compute; intros H; first [reflexivity | discriminate H]. Qed.

(** Nothing but the euro sign has the euro sign as its upper-case form. *)
Lemma upper_euro (s : string) : toUpperCase s = "€" -> s = "€".
Proof.
  unfold toUpperCase. intros H.
  apply (f_equal list_ascii_of_string) in H.
  rewrite list_ascii_of_string_of_list_ascii in H.
  rewrite <- (string_of_list_ascii_of_string s).
  destruct (list_ascii_of_string s) as [|c t]; [discriminate H|].
  simpl upper_bytes in H. destruct (special_upper c t) as [r|] eqn:Hs.
  - apply special_upper_ok in Hs. unfold replacement_ok in Hs.
    apply andb_true_iff in Hs. destruct Hs as [_ Hs]. apply negb_true_iff in Hs.
    pose proof (prefix_app r (upper_bytes (width c - 1) t)) as Hp.
    rewrite H in Hp. simpl string_of_list_ascii in Hp. congruence.
  - simpl in H. injection H as Hc Ht.
    assert (Hc' : upper_char c = c) by (apply upper_char_high; now rewrite Hc).
    rewrite Hc' in Hc. subst c.
    pose proof (take_cont_upper 2 t) as Hk. rewrite Ht in Hk.
    symmetry in Hk. apply take_cont_prefix in Hk. destruct Hk as (rest & ->).
    change (take_cont 2 [?a; ?b]) with [a; b] in Ht.
    rewrite (settled_stable ["130"; "172"]%char eq_refl rest) in Ht.
    assert (Hr : upper_bytes 0 rest = []) by (simpl in Ht; now injection Ht).
    apply upper_bytes_nonempty in Hr. subst rest. reflexivity.
Qed.

(** Every character of the table is mapped to the form the table gives. *)
Lemma upper_table_applied :
  forallb (fun e =>
             String.eqb (toUpperCase (string_of_list_ascii (utf8 (fst e))))
                        (string_of_list_ascii (flat_map utf8 (snd e))))
          upper_table = true.
Proof. vm_compute. reflexivity. Qed.

Example toUpperCase_latin : toUpperCase "zł straße" = "ZŁ STRASSE".
Proof. vm_compute. reflexivity. Qed.

End UpperCaseFacts.

(* ====================================================================== *)
(** * The image pipeline: theorems *)
(* ====================================================================== *)

Section VisionTheorems.

Import Vision.

(** C7.  Merging the first pass and the crop pass: [logos] and
    [webEntities] of the merged bundle contain every element of both inputs
    and hold no string twice. *)
Theorem C7_merge_union_no_duplicates (base cropSignals : bundle) :
  (forall x, In x (logos base) \/ In x (logos cropSignals) ->
             In x (logos (merge base cropSignals)))
  /\ NoDup (logos (merge base cropSignals))
  /\ (forall x, In x (webEntities base) \/ In x (webEntities cropSignals) ->
                In x (webEntities (merge base cropSignals)))
  /\ NoDup (webEntities (merge base cropSignals)).
Proof.
  unfold merge; simpl. repeat split.
  - intros x H. apply array_from_set_In, in_or_app, H.
  - apply array_from_set_NoDup.
  - intros x H. apply array_from_set_In, in_or_app, H.
  - apply array_from_set_NoDup.
Qed.

(** ** The second opinion *)

(** The guess read off a parsed reply [json] that is not [null]. *)
Definition opinion_of (json : jsval) : second_opinion :=
  let prop k := match get_prop json k with Some v => v | None => VUndef end in
  {| brand := js_or (prop "brand") (VStr "");
     model := js_or (prop "model") (VStr "");
     product_type := js_or (prop "product_type") (VStr "");
     synonyms := match prop "synonyms" with VArr l => l | _ => [] end;
     confidence := match prop "confidence" with VNum x => x | _ => 0%float end |}.

(** Every field at its default. *)
Definition default_opinion : second_opinion :=
  {| brand := VStr ""; model := VStr ""; product_type := VStr "";
     synonyms := []; confidence := 0%float |}.

Definition is_nullish (v : jsval) : bool :=
  match v with VUndef | VNull => true | _ => false end.

Definition failure {A : Type} (msg : string) : result A :=
  Throw {| message := msg; response_status := None |}.

(** A stand-in environment for concrete runs: the answers of the vision
    client, of sharp and of the chat client are given, [JSON.parse] is
    answered for the texts the runs use. *)
Definition stub_env (annotate : bytes -> result annotate_response)
  (localize : bytes -> result localize_response)
  (chat : result (option chat_completion)) (parse : string -> option jsval) : env :=
  {| OPENAI_MODEL := None;
     Buffer_from_base64 := fun _ => [Byte.x01];
     sharp_prep := fun b => Ok b;
     annotateImage := annotate;
     objectLocalization := localize;
     sharp_metadata := fun _ => failure "no metadata";
     sharp_extract := fun _ _ _ _ _ => failure "no extract";
     chat_create := fun _ _ => chat;
     JSON_parse := parse |}.

Definition empty_response : annotate_response :=
  {| labelAnnotations := None; logoAnnotations := None;
     localizedObjectAnnotations := None; safeSearchAnnotation := None;
     faceAnnotations := None; fullTextAnnotation := None;
     textAnnotations := None; webDetection := None |}.

Definition chat_reply (text : string) : result (option chat_completion) :=
  Ok (Some {| choices :=
    Some [ {| choice_message := Some {| content := Some text |} |} ] |}).

Definition quoted (s : string) : string :=
  let q := String (ascii_of_nat 34) EmptyString in
  String.append q (String.append s q).

(** The reply text [{"brand":"Dyson"}] *)
Definition dyson_reply : string :=
  String.append "{"
    (String.append (quoted "brand")
       (String.append ":" (String.append (quoted "Dyson") "}"))).

(** A parser stub: it knows the empty object and [dyson_reply], and rejects
    every other text. *)
Definition parse_stub (s : string) : option jsval :=
  if String.eqb s "{}" then Some (VObj [])
  else if String.eqb s dyson_reply then Some (VObj [("brand", VStr "Dyson")])
  else None.

Lemma run_second_opinion (E : env) (base64 : string) (t : trace) :
  fst (runOpenAIVisionExtract E base64 t) =
  match chat_create E (request_model E) (data_url base64) with
  | Throw _ => Ok None
  | Ok out =>
      match JSON_parse E (reply_text out) with
      | None => Ok (Some default_opinion)
      | Some j => if is_nullish j then Ok None else Ok (Some (opinion_of j))
      end
  end.
Proof.
  unfold runOpenAIVisionExtract, emit, read_prop. run_steps.
  destruct (chat_create E (request_model E) (data_url base64)) as [out|e]; simpl;
    [|reflexivity].
  destruct (JSON_parse E (reply_text out)) as [j|]; simpl; [|reflexivity].
  destruct j; reflexivity.
Qed.

(** C2, as amended.  The second opinion is [null] when the request to the
    model fails.  A reply that does not parse gives the guess with every
    field at its default, not [null]; a reply that parses to a value other
    than [null] gives the guess read off that value, with its five fields,
    [synonyms] an array and [confidence] a number. *)
Theorem C2_second_opinion_outcomes (E : env) (base64 : string) (t : trace) :
  match chat_create E (request_model E) (data_url base64) with
  | Throw _ => fst (runOpenAIVisionExtract E base64 t) = Ok None
  | Ok out =>
      match JSON_parse E (reply_text out) with
      | None => fst (runOpenAIVisionExtract E base64 t) = Ok (Some default_opinion)
      | Some j =>
          is_nullish j = false ->
          fst (runOpenAIVisionExtract E base64 t) = Ok (Some (opinion_of j))
      end
  end.
Proof.
  rewrite run_second_opinion.
  destruct (chat_create E (request_model E) (data_url base64)) as [out|e];
    [|reflexivity].
  destruct (JSON_parse E (reply_text out)) as [j|]; [|reflexivity].
  intros ->. reflexivity.
Qed.

Definition dyson_env : env :=
  stub_env (fun _ => Ok empty_response) (fun _ => failure "no localization")
    (chat_reply dyson_reply) parse_stub.

Lemma C2_second_opinion_outcomes_witness :
  fst (runOpenAIVisionExtract dyson_env "aGk=" []) =
  Ok (Some {| brand := VStr "Dyson"; model := VStr ""; product_type := VStr "";
              synonyms := []; confidence := 0%float |}).
Proof.
  exact (C2_second_opinion_outcomes dyson_env "aGk=" [] eq_refl).
Defined.

Definition chatty_env : env :=
  stub_env (fun _ => Ok empty_response) (fun _ => failure "no localization")
    (chat_reply "I cannot identify this product.") parse_stub.

(** C2, as stated, fails: the reply below is not JSON, and the second
    opinion is the all-defaults guess instead of [null]. *)
Lemma C2_unparseable_reply_is_not_null :
  JSON_parse chatty_env "I cannot identify this product." = None
  /\ fst (runOpenAIVisionExtract chatty_env "aGk=" []) = Ok (Some default_opinion)
  /\ fst (runOpenAIVisionExtract chatty_env "aGk=" []) <> Ok None.
Proof.
  split; [reflexivity|]. split; [reflexivity|]. discriminate.
Qed.

(** ** The face policy *)

(** C1.  When the first analysis pass reports a face, the answer is the
    400 rejection, and the run consists of the preprocessing and that one
    analysis call: no region crop, no second pass, no second opinion. *)
Theorem C1_faces_abort_pipeline (E : env) (b64 : string) (cleaned : bytes)
  (resp : annotate_response) :
  str_truthy b64 = true ->
  Buffer_from_base64 E b64 <> [] ->
  sharp_prep E (Buffer_from_base64 E b64) = Ok cleaned ->
  annotateImage E cleaned = Ok resp ->
  0 < faceCount (normalize resp) ->
  api_vision E {| imageBase64 := Some b64 |} [] =
    (Ok faces_rejection,
     [EvSharpPrep (Buffer_from_base64 E b64); EvAnnotateImage cleaned])
  /\ status faces_rejection = 400.
Proof.
  intros Hb Hraw Hprep Hann Hface. split; [|reflexivity].
  unfold api_vision, prepForOCR, runVisionAllFeatures, emit. run_steps.
  rewrite Hb. simpl.
  destruct (Buffer_from_base64 E b64) as [|b0 raw] eqn:Hbuf; [congruence|].
  simpl. rewrite Hprep. simpl. rewrite Hann. simpl.
  apply Nat.ltb_lt in Hface. rewrite Hface. reflexivity.
Qed.

Definition one_face : annotate_response :=
  {| labelAnnotations := None; logoAnnotations := None;
     localizedObjectAnnotations := None; safeSearchAnnotation := None;
     faceAnnotations := Some [VObj []]; fullTextAnnotation := None;
     textAnnotations := None; webDetection := None |}.

Definition portrait_env : env :=
  stub_env (fun _ => Ok one_face) (fun _ => failure "no localization")
    (chat_reply dyson_reply) parse_stub.

Lemma C1_faces_abort_pipeline_witness :
  api_vision portrait_env {| imageBase64 := Some "aGk=" |} [] =
    (Ok faces_rejection, [EvSharpPrep [Byte.x01]; EvAnnotateImage [Byte.x01]])
  /\ status faces_rejection = 400.
Proof.
  apply (C1_faces_abort_pipeline portrait_env "aGk=" [Byte.x01] one_face).
  - reflexivity.
  - discriminate.
  - reflexivity.
  - reflexivity.
  - simpl. lia.
Defined.

(** ** The region cropper *)

Lemma insert_sorted_In {A : Type} (cmp : A -> A -> float) (x y : A) (l : list A) :
  In y (insert_sorted cmp x l) <-> y = x \/ In y l.
Proof.
  induction l as [|z l IH]; simpl.
  - split; intros [H|H]; auto; contradiction.
  - destruct (PrimFloat.ltb 0 (cmp x z)); simpl.
    + rewrite IH. split; intros H; intuition auto.
    + split; intros H; intuition auto.
Qed.

(** Sorting rearranges: it neither adds nor drops an element. *)
Lemma sort_In {A : Type} (cmp : A -> A -> float) (y : A) (l : list A) :
  In y (sort cmp l) <-> In y l.
Proof.
  induction l as [|x l IH]; simpl; [tauto|].
  rewrite insert_sorted_In, IH. split; intros [H|H]; auto.
Qed.

(** The annotation the cropper works on: the first after sorting by
    descending score. *)
Definition top_annotation (objResp : localize_response) : option object_annotation :=
  hd_error (sort (by_score_desc oa_score) (or_nil (lr_localizedObjectAnnotations objResp))).

Lemma top_annotation_In (objResp : localize_response) (top : object_annotation) :
  top_annotation objResp = Some top ->
  In top (or_nil (lr_localizedObjectAnnotations objResp)).
Proof.
  unfold top_annotation. intros H.
  apply (sort_In (by_score_desc oa_score)).
  destruct (sort _ _) as [|a l]; simpl in H; [discriminate|].
  injection H as ->. now left.
Qed.

(** C9.  When region detection answers with no region, or the polygon of
    its best region has fewer than 4 vertices, the cropper returns "no
    region" (it does not throw), nothing but the detection call is made, and
    the bundle after the crop step is the first-pass bundle itself. *)
Theorem C9_small_polygon_no_region (E : env) (cleaned : bytes) (base : bundle)
  (objResp : localize_response) (t : trace) :
  objectLocalization E cleaned = Ok objResp ->
  (forall top, top_annotation objResp = Some top -> List.length (vertices_of top) < 4) ->
  cropPrimaryObject E cleaned t = (Ok None, t ++ [EvObjectLocalization cleaned])
  /\ crop_pass E cleaned base t = (Ok base, t ++ [EvObjectLocalization cleaned]).
Proof.
  intros Hloc Htop.
  assert (Hcrop : cropPrimaryObject E cleaned t =
                  (Ok None, t ++ [EvObjectLocalization cleaned])).
  { unfold cropPrimaryObject, emit. run_steps. rewrite Hloc. simpl.
    unfold top_annotation in Htop.
    destruct (sort (by_score_desc oa_score)
                (or_nil (lr_localizedObjectAnnotations objResp))) as [|top rest];
      [reflexivity|].
    specialize (Htop top eq_refl). apply Nat.ltb_lt in Htop.
    rewrite Htop. reflexivity. }
  split; [exact Hcrop|].
  unfold crop_pass. unfold Eff.try_catch, Eff.bind at 1. rewrite Hcrop. reflexivity.
Qed.

Definition triangle : object_annotation :=
  {| oa_name := "Vacuum cleaner"; oa_score := 0.5%float;
     boundingPoly := Some {| normalizedVertices :=
       Some [ {| vx := 0.25%float; vy := 0.25%float |};
              {| vx := 0.75%float; vy := 0.25%float |};
              {| vx := 0.5%float; vy := 0.75%float |} ] |} |}.

Definition triangle_env : env :=
  stub_env (fun _ => Ok empty_response)
    (fun _ => Ok {| lr_localizedObjectAnnotations := Some [triangle] |})
    (chat_reply dyson_reply) parse_stub.

Lemma C9_small_polygon_no_region_witness :
  cropPrimaryObject triangle_env [Byte.x01] [] =
    (Ok None, [EvObjectLocalization [Byte.x01]])
  /\ crop_pass triangle_env [Byte.x01] (normalize empty_response) [] =
    (Ok (normalize empty_response), [EvObjectLocalization [Byte.x01]]).
Proof.
  apply (C9_small_polygon_no_region triangle_env [Byte.x01] (normalize empty_response)
           {| lr_localizedObjectAnnotations := Some [triangle] |} []).
  - reflexivity.
  - intros top H. injection H as <-. simpl. lia.
Defined.

End VisionTheorems.

Section MarketTheorems.

Import Market.

(** ** De-duplication *)

(** What the loop appends to [dedup] while it runs over [rs], given the keys
    [seen] so far. *)
Fixpoint kept (w : world) (rs : list listing) (seen : list string) : list listing :=
  match rs with
  | [] => []
  | r :: rest =>
      if negb (mem_str (key w r) seen) && str_truthy (title r)
      then r :: kept w rest (seen ++ [key w r])
      else kept w rest seen
  end.

Lemma dedup_loop_kept (w : world) (rs : list listing) (seen : list string)
  (acc : list listing) :
  dedup_loop w rs seen acc = acc ++ kept w rs seen.
Proof.
  revert seen acc. induction rs as [|r rest IH]; intros seen acc; simpl.
  - now rewrite app_nil_r.
  - destruct (mem_str (key w r) seen) eqn:Hm; simpl.
    + apply IH.
    + destruct (str_truthy (title r)); [|apply IH].
      rewrite IH. unfold set_add. rewrite Hm.
      now rewrite <- app_assoc.
Qed.

Lemma dedup_kept (w : world) (rs : list listing) : dedup w rs = kept w rs [].
Proof. unfold dedup. now rewrite dedup_loop_kept. Qed.

Lemma kept_app (w : world) (l1 l2 : list listing) (seen : list string) :
  kept w (l1 ++ l2) seen =
  kept w l1 seen ++ kept w l2 (seen ++ map (key w) (kept w l1 seen)).
Proof.
  revert seen. induction l1 as [|r l1 IH]; intros seen; simpl.
  - now rewrite app_nil_r.
  - destruct (negb (mem_str (key w r) seen) && str_truthy (title r)); simpl.
    + rewrite IH. now rewrite <- app_assoc.
    + apply IH.
Qed.

(** A kept listing comes from the input, has a title, and a key that was
    not seen before. *)
Lemma kept_inv (w : world) (rs : list listing) (seen : list string) (x : listing) :
  In x (kept w rs seen) ->
  In x rs /\ str_truthy (title x) = true /\ ~ In (key w x) seen.
Proof.
  revert seen. induction rs as [|r rest IH]; intros seen; simpl; [tauto|].
  destruct (mem_str (key w r) seen) eqn:Hm; simpl.
  - intros H. apply IH in H. tauto.
  - destruct (str_truthy (title r)) eqn:Ht.
    + intros [<-|H].
      * apply mem_str_not_In in Hm. auto.
      * apply IH in H. destruct H as (Hin & Htt & Hk).
        repeat split; auto. intros Hs. apply Hk, in_or_app. now left.
    + intros H. apply IH in H. tauto.
Qed.

Lemma kept_keys_NoDup (w : world) (rs : list listing) (seen : list string) :
  NoDup (map (key w) (kept w rs seen)).
Proof.
  revert seen. induction rs as [|r rest IH]; intros seen; simpl; [constructor|].
  destruct (negb (mem_str (key w r) seen) && str_truthy (title r)); [|apply IH].
  simpl. constructor; [|apply IH].
  intros Hin. apply in_map_iff in Hin. destruct Hin as (x & Hk & Hx).
  apply kept_inv in Hx. destruct Hx as (_ & _ & Hns).
  apply Hns, in_or_app. right. rewrite Hk. now left.
Qed.

(** Every titled input listing has its key in the output (or in [seen]). *)
Lemma kept_covers (w : world) (rs : list listing) (seen : list string) (r : listing) :
  In r rs -> str_truthy (title r) = true ->
  In (key w r) seen \/ In (key w r) (map (key w) (kept w rs seen)).
Proof.
  revert seen. induction rs as [|a rest IH]; intros seen; simpl; [tauto|].
  intros [->|Hin] Ht.
  - rewrite Ht, andb_true_r. destruct (mem_str (key w r) seen) eqn:Hm; simpl.
    + left. now apply mem_str_In.
    + right. now left.
  - destruct (negb (mem_str (key w a) seen) && str_truthy (title a)).
    + destruct (IH (seen ++ [key w a]) Hin Ht) as [H|H].
      * apply in_app_or in H. destruct H as [H|[H|[]]]; auto.
        right. simpl. now left.
      * right. simpl. now right.
    + apply IH; assumption.
Qed.

(** [l] is [m] with some elements left out, the others in their order. *)
Inductive Subseq {A : Type} : list A -> list A -> Prop :=
| Subseq_nil : Subseq [] []
| Subseq_keep x l m : Subseq l m -> Subseq (x :: l) (x :: m)
| Subseq_drop x l m : Subseq l m -> Subseq l (x :: m).

Lemma kept_Subseq (w : world) (rs : list listing) (seen : list string) :
  Subseq (kept w rs seen) rs.
Proof.
  revert seen. induction rs as [|r rest IH]; intros seen; simpl; [constructor|].
  destruct (negb (mem_str (key w r) seen) && str_truthy (title r));
    constructor; apply IH.
Qed.

(** The first listing of its key is kept, right after what the listings
    before it left in the output, and no later listing of that key is. *)
Lemma dedup_first_occurrence (w : world) (l1 l2 : list listing) (r : listing) :
  str_truthy (title r) = true ->
  (forall x, In x l1 -> key w x <> key w r) ->
  exists rest,
    dedup w (l1 ++ r :: l2) = dedup w l1 ++ r :: rest
    /\ forall x, In x rest -> key w x <> key w r.
Proof.
  intros Ht Hfirst.
  exists (kept w l2 (([] ++ map (key w) (kept w l1 [])) ++ [key w r])).
  rewrite !dedup_kept, kept_app. simpl.
  assert (Hfresh : mem_str (key w r) (map (key w) (kept w l1 [])) = false).
  { apply mem_str_not_In. intros Hin. apply in_map_iff in Hin.
    destruct Hin as (x & Hk & Hx). apply kept_inv in Hx.
    now apply (Hfirst x). }
  rewrite Hfresh, Ht. simpl. split; [reflexivity|].
  intros x Hx Hk. apply kept_inv in Hx. destruct Hx as (_ & _ & Hns).
  apply Hns, in_or_app. right. rewrite Hk. now left.
Qed.

Lemma once_per_key {A : Type} (f : A -> string) (l : list A) (k : string) :
  NoDup (map f l) -> In k (map f l) ->
  List.length (filter (fun x => String.eqb (f x) k) l) = 1.
Proof.
  induction l as [|a l IH]; simpl; [tauto|].
  intros Hn Hin. inversion Hn as [|? ? Hna Hnl]; subst.
  destruct (String.eqb (f a) k) eqn:He.
  - apply String.eqb_eq in He. subst k. simpl. f_equal.
    clear IH Hin Hn Hnl. induction l as [|b l IHl]; simpl; [reflexivity|].
    destruct (String.eqb (f b) (f a)) eqn:Hb.
    + apply String.eqb_eq in Hb. exfalso. apply Hna. simpl. now left.
    + apply IHl. intros H. apply Hna. simpl. now right.
  - apply IH; [assumption|]. destruct Hin as [H|H]; [|assumption].
    apply String.eqb_neq in He. congruence.
Qed.

(** A price that [||] replaces by the empty string: [null], [0], [-0], [NaN]. *)
Definition falsy_price (p : option float) : bool :=
  match p with
  | Some x => negb (num_truthy x)
  | None => true
  end.

Lemma falsy_price_key (w : world) (p : option float) :
  falsy_price p = true -> price_key w p = "".
Proof.
  destruct p as [x|]; simpl; [|reflexivity].
  destruct (num_truthy x); [discriminate | reflexivity].
Qed.

(** C10.  In the key, every falsy price ([null], [0], [NaN]) becomes the
    same empty string; so two listings of one title and one source whose
    prices are both falsy have one key, and wherever both occur among the
    collected listings, exactly one listing of that key is in the output. *)
Theorem C10_falsy_prices_collapse (w : world) (a b : listing) (rs : list listing) :
  title a = title b -> source a = source b ->
  str_truthy (title a) = true ->
  falsy_price (price a) = true -> falsy_price (price b) = true ->
  In a rs -> In b rs ->
  price_key w (price a) = "" /\ price_key w (price b) = ""
  /\ key w a = key w b
  /\ List.length (filter (fun x => String.eqb (key w x) (key w a)) (dedup w rs)) = 1.
Proof.
  intros Ht Hs Htt Ha Hb Hina Hinb.
  pose proof (falsy_price_key w _ Ha) as Ka.
  pose proof (falsy_price_key w _ Hb) as Kb.
  repeat split; try assumption.
  - unfold key. now rewrite Ka, Kb, Ht, Hs.
  - rewrite dedup_kept. apply once_per_key; [apply kept_keys_NoDup|].
    destruct (kept_covers w rs [] a Hina Htt) as [[]|H]. exact H.
Qed.

(** A world in which nothing answers; numbers print as [n]. *)
Definition silent_world : world :=
  {| now := 0%float;
     token_post := fun _ _ => failure "offline";
     browse_get := fun _ _ _ => failure "offline";
     finding_get := fun _ _ _ => failure "offline";
     donedeal_get := fun _ => failure "offline";
     adverts_get := fun _ => failure "offline";
     parseFloat := fun _ => PrimFloat.nan;
     URL_new := fun _ _ => None;
     Number_toString := fun _ => "n" |}.

Definition priced (p : option float) : listing :=
  {| title := "Dyson V8"; source := "DoneDeal"; price := p;
     currency := "EUR"; url := None |}.

Lemma C10_falsy_prices_collapse_witness :
  price_key silent_world (Some 0%float) = "" /\ price_key silent_world None = ""
  /\ key silent_world (priced (Some 0%float)) = key silent_world (priced None)
  /\ List.length
       (filter (fun x => String.eqb (key silent_world x)
                           (key silent_world (priced (Some 0%float))))
          (dedup silent_world
             [priced (Some 0%float); priced None; priced (Some PrimFloat.nan)])) = 1.
Proof.
  apply (C10_falsy_prices_collapse silent_world (priced (Some 0%float)) (priced None)
           [priced (Some 0%float); priced None; priced (Some PrimFloat.nan)]);
    try reflexivity.
  - simpl. auto.
  - simpl. auto.
Defined.


(** ** Runs of the provider adapters *)

(** [s] with listings appended to [results] and events to the trace. *)
Definition grow (s : state) (ls : list listing) (evs : list event) : state :=
  {| ebayToken := ebayToken s; ebayTokenExp := ebayTokenExp s;
     results := results s ++ ls; trace := trace s ++ evs |}.

Lemma grow_nothing (s : state) : grow s [] [] = s.
Proof. destruct s. unfold grow. simpl. now rewrite !app_nil_r. Qed.

Lemma grow_grow (s : state) (l1 l2 : list listing) (e1 e2 : list event) :
  grow (grow s l1 e1) l2 e2 = grow s (l1 ++ l2) (e1 ++ e2).
Proof. unfold grow. simpl. now rewrite !app_assoc. Qed.

Lemma emit_run (ev : event) (s : state) : emit ev s = (Ok tt, grow s [] [ev]).
Proof. unfold emit, modify, grow. now rewrite app_nil_r. Qed.

Lemma push_run (l : listing) (s : state) : push l s = (Ok tt, grow s [l] []).
Proof. unfold push, modify, grow. now rewrite app_nil_r. Qed.

(** The listings a provider builds from its items: those whose guard holds. *)
Fixpoint choose {A : Type} (f : A -> option listing) (items : list A) : list listing :=
  match items with
  | [] => []
  | x :: rest =>
      match f x with
      | Some l => l :: choose f rest
      | None => choose f rest
      end
  end.

Lemma for_each_push {A : Type} (f : A -> option listing) (items : list A) (s : state) :
  for_each items (fun it => push_if (f it)) s = (Ok tt, grow s (choose f items) []).
Proof.
  revert s. induction items as [|x rest IH]; intros s; simpl.
  - unfold ret. now rewrite grow_nothing.
  - unfold bind, push_if. destruct (f x) as [l|].
    + rewrite push_run, IH, grow_grow. reflexivity.
    + unfold ret. apply IH.
Qed.

(** Whether the request to a region succeeds, and what it then adds. *)
Definition region_ok (w : world) (appId query globalId : string) : bool :=
  match finding_get w globalId appId query with
  | Ok _ => true
  | Throw _ => false
  end.

Definition region_listings (w : world) (appId query globalId : string) : list listing :=
  match finding_get w globalId appId query with
  | Ok data => choose (finding_listing w globalId) (finding_items data)
  | Throw _ => []
  end.

Definition region_events (w : world) (appId query globalId : string) : list event :=
  match finding_get w globalId appId query with
  | Ok _ => [EvFindingGet globalId appId query]
  | Throw e =>
      [EvFindingGet globalId appId query;
       EvWarn (String.append "[eBay] " (String.append globalId " failed:")) e]
  end.

Lemma callFinding_run (w : world) (appId query globalId : string) (s : state) :
  callFinding w appId query globalId s =
  (Ok (region_ok w appId query globalId),
   grow s (region_listings w appId query globalId)
          (region_events w appId query globalId)).
Proof.
  unfold callFinding, try_catch, bind, lift, ret, region_ok, region_listings,
    region_events.
  rewrite emit_run.
  destruct (finding_get w globalId appId query) as [data|e].
  - rewrite for_each_push, grow_grow. reflexivity.
  - rewrite emit_run, grow_grow. reflexivity.
Qed.

(** The regions of the chain up to and including the first that succeeds:
    all of [regions] if none does. *)
Fixpoint tried (w : world) (appId query : string) (regions : list string) : list string :=
  match regions with
  | [] => []
  | g :: rest =>
      if region_ok w appId query g then [g] else g :: tried w appId query rest
  end.

Definition chain : list string := ["EBAY-IE"; "EBAY-GB"; "EBAY-US"].

Definition chain_ok (w : world) (appId query : string) : bool :=
  existsb (region_ok w appId query) chain.

Definition chain_listings (w : world) (appId query : string) : list listing :=
  flat_map (region_listings w appId query) (tried w appId query chain).

Definition chain_events (w : world) (appId query : string) : list event :=
  flat_map (region_events w appId query) (tried w appId query chain).

Lemma callEbayFinding_run (cfg : config) (w : world) (query appId : string) (s : state) :
  EBAY_APP_ID cfg = Some appId -> str_truthy appId = true ->
  callEbayFinding cfg w query s =
  (Ok (chain_ok w appId query),
   grow s (chain_listings w appId query)
          (EvProvider Finding :: chain_events w appId query)).
Proof.
  intros Hid Ht. unfold callEbayFinding. rewrite Hid, Ht. simpl.
  unfold bind at 1. rewrite emit_run.
  unfold bind at 1. rewrite callFinding_run.
  unfold chain_ok, chain_listings, chain_events, chain. simpl.
  destruct (region_ok w appId query "EBAY-IE") eqn:H1; simpl.
  - unfold bind, ret. simpl. rewrite ?grow_grow. simpl. rewrite ?app_nil_r.
    reflexivity.
  - unfold bind at 1. rewrite callFinding_run.
    destruct (region_ok w appId query "EBAY-GB") eqn:H2; simpl.
    + unfold bind, ret. simpl. rewrite ?grow_grow. simpl. rewrite ?app_nil_r.
      reflexivity.
    + unfold bind at 1. rewrite callFinding_run. unfold ret.
      rewrite ?grow_grow.
      destruct (region_ok w appId query "EBAY-US"); simpl;
        rewrite ?app_nil_r; reflexivity.
Qed.

Lemma callEbayFinding_unconfigured (cfg : config) (w : world) (query : string)
  (s : state) :
  opt_truthy (EBAY_APP_ID cfg) = false ->
  callEbayFinding cfg w query s = (Ok false, grow s [] [EvProvider Finding]).
Proof.
  intros Hid. unfold callEbayFinding, bind. rewrite emit_run.
  destruct (EBAY_APP_ID cfg) as [a|]; simpl in *; [|reflexivity].
  rewrite Hid. reflexivity.
Qed.

(** The regions for which a request went out, in the order of the requests. *)
Definition requested_regions (evs : list event) : list string :=
  flat_map (fun ev => match ev with EvFindingGet g _ _ => [g] | _ => [] end) evs.

Lemma requested_regions_app (e1 e2 : list event) :
  requested_regions (e1 ++ e2) = requested_regions e1 ++ requested_regions e2.
Proof. apply flat_map_app. Qed.

Lemma requested_chain (w : world) (appId query : string) (regions : list string) :
  requested_regions (flat_map (region_events w appId query) (tried w appId query regions))
  = tried w appId query regions.
Proof.
  induction regions as [|g rest IH]; simpl; [reflexivity|].
  destruct (region_ok w appId query g) eqn:Hok; simpl;
    unfold region_ok in Hok; unfold region_events at 1;
    destruct (finding_get w g appId query); try discriminate; simpl.
  - reflexivity.
  - f_equal. exact IH.
Qed.

(** C6.  The legacy chain asks its three regions in the order IE, GB, US
    and stops with the first request that succeeds: the regions asked are
    exactly those up to and including the first success, and the listings
    added are those of that region alone, however few. *)
Theorem C6_finding_chain_stops_at_first_success (cfg : config) (w : world)
  (query appId : string) (s : state) :
  EBAY_APP_ID cfg = Some appId -> str_truthy appId = true ->
  let ok := region_ok w appId query in
  let s' := snd (callEbayFinding cfg w query s) in
  requested_regions (trace s') =
    requested_regions (trace s) ++
      (if ok "EBAY-IE" then ["EBAY-IE"]
       else if ok "EBAY-GB" then ["EBAY-IE"; "EBAY-GB"]
       else ["EBAY-IE"; "EBAY-GB"; "EBAY-US"])
  /\ results s' =
    results s ++
      (if ok "EBAY-IE" then region_listings w appId query "EBAY-IE"
       else if ok "EBAY-GB" then region_listings w appId query "EBAY-GB"
       else region_listings w appId query "EBAY-US").
Proof.
  intros Hid Ht ok s'. subst ok s'.
  rewrite (callEbayFinding_run cfg w query appId s Hid Ht). simpl.
  rewrite requested_regions_app. simpl. unfold chain_events.
  rewrite requested_chain. unfold chain_listings, chain. simpl.
  assert (Hfail : forall g, region_ok w appId query g = false ->
                            region_listings w appId query g = []).
  { intros g. unfold region_ok, region_listings.
    destruct (finding_get w g appId query); [discriminate | reflexivity]. }
  destruct (region_ok w appId query "EBAY-IE") eqn:H1; simpl.
  - rewrite ?app_nil_r. auto.
  - rewrite (Hfail _ H1). simpl.
    destruct (region_ok w appId query "EBAY-GB") eqn:H2; simpl.
    + rewrite ?app_nil_r. auto.
    + rewrite (Hfail _ H2). simpl.
      destruct (region_ok w appId query "EBAY-US"); simpl; rewrite ?app_nil_r; auto.
Qed.

Definition three_items : option finding_data :=
  let it (t : string) :=
    {| fi_title := Some [t];
       sellingStatus := Some [ {| currentPrice :=
         Some [ {| currencyId := Some "EUR"; value__ := Some "199" |} ] |} ];
       viewItemURL := None |} in
  Some {| findItemsByKeywordsResponse := Some [ {| searchResult := Some [ {| item :=
    Some [it "Dyson V8 Absolute"; it "Dyson V8 Animal"; it "Dyson  V8 Motorhead "] |} ] |} ] |}.

(** No token can be had, every region of the legacy API would answer with
    three items. *)
Definition fallback_world : world :=
  {| now := 1000%float;
     token_post := fun _ _ => failure "connect ETIMEDOUT";
     browse_get := fun _ _ _ => failure "offline";
     finding_get := fun _ _ _ => Ok three_items;
     donedeal_get := fun _ => failure "offline";
     adverts_get := fun _ => failure "offline";
     parseFloat := fun _ => 199%float;
     URL_new := fun _ _ => None;
     Number_toString := fun _ => "199" |}.

Definition full_config : config :=
  {| EBAY_CLIENT_ID := Some "client"; EBAY_CLIENT_SECRET := Some "secret";
     EBAY_APP_ID := Some "app" |}.

Definition ie_listing (t : string) : listing :=
  {| title := t; source := "eBay (EBAY-IE)"; price := Some 199%float;
     currency := "EUR"; url := None |}.

Lemma C6_finding_chain_stops_at_first_success_witness :
  requested_regions
    (trace (snd (callEbayFinding full_config fallback_world "dyson v8 absolute" initial)))
  = ["EBAY-IE"]
  /\ results (snd (callEbayFinding full_config fallback_world "dyson v8 absolute" initial))
  = [ie_listing "Dyson V8 Absolute"; ie_listing "Dyson V8 Animal";
     ie_listing "Dyson V8 Motorhead"].
Proof.
  exact (C6_finding_chain_stops_at_first_success full_config fallback_world
           "dyson v8 absolute" "app" initial eq_refl eq_refl).
Defined.

(** ** The token cache *)

(** Both credentials, when both are configured and non-empty. *)
Definition credentials (cfg : config) : option (string * string) :=
  match EBAY_CLIENT_ID cfg, EBAY_CLIENT_SECRET cfg with
  | Some id, Some secret =>
      if str_truthy id && str_truthy secret then Some (id, secret) else None
  | _, _ => None
  end.

(** [_ebayToken && now < _ebayTokenExp - 60] *)
Definition cache_valid (s : state) (now : float) : bool :=
  opt_truthy (ebayToken s) && PrimFloat.ltb now (PrimFloat.sub (ebayTokenExp s) 60).

(** The state after a successful exchange at time [now]. *)
Definition refreshed (s : state) (now : float) (id secret : string) (data : token_data)
  : state :=
  {| ebayToken := access_token data;
     ebayTokenExp := PrimFloat.add now (lifetime data);
     results := results s;
     trace := trace s ++ [EvTokenPost id secret] |}.

Lemma getEbayAppToken_run (cfg : config) (w : world) (s : state) :
  getEbayAppToken cfg w s =
  if cache_valid s (now w) then (Ok (ebayToken s), s)
  else
    match credentials cfg with
    | None => (Ok None, s)
    | Some (id, secret) =>
        match token_post w id secret with
        | Ok data => (Ok (access_token data), refreshed s (now w) id secret data)
        | Throw e => (Throw e, grow s [] [EvTokenPost id secret])
        end
    end.
Proof.
  unfold getEbayAppToken, cache_valid, credentials, gets, bind at 1 2. simpl.
  destruct (opt_truthy (ebayToken s)
            && PrimFloat.ltb (now w) (PrimFloat.sub (ebayTokenExp s) 60));
    [reflexivity|].
  destruct (EBAY_CLIENT_ID cfg) as [id|]; [|reflexivity].
  destruct (EBAY_CLIENT_SECRET cfg) as [secret|]; [|reflexivity].
  destruct (str_truthy id); simpl; [|reflexivity].
  destruct (str_truthy secret); simpl; [|reflexivity].
  unfold bind at 1. rewrite emit_run. unfold bind, lift. simpl.
  destruct (token_post w id secret) as [data|e]; [|reflexivity].
  unfold store_token, modify, refreshed. simpl. now rewrite app_nil_r.
Qed.

(** The cache states the server can be in under a configuration: the
    initial one, and what [getEbayAppToken], the only writer of the cache,
    makes of one, whatever is done to [results] and the trace in between. *)
Inductive reachable (cfg : config) : state -> Prop :=
| reach_initial : reachable cfg initial
| reach_token (w : world) (s : state) :
    reachable cfg s -> reachable cfg (snd (getEbayAppToken cfg w s))
| reach_other (s : state) (rs : list listing) (tr : list event) :
    reachable cfg s ->
    reachable cfg {| ebayToken := ebayToken s; ebayTokenExp := ebayTokenExp s;
                     results := rs; trace := tr |}.

(** A token is only ever cached by a server that has credentials. *)
Lemma cached_token_credentials (cfg : config) (s : state) :
  reachable cfg s -> opt_truthy (ebayToken s) = true ->
  exists id secret, credentials cfg = Some (id, secret).
Proof.
  induction 1 as [|w s Hr IH|s rs tr Hr IH]; simpl.
  - discriminate.
  - rewrite getEbayAppToken_run.
    destruct (cache_valid s (now w)); simpl; [exact IH|].
    destruct (credentials cfg) as [[id secret]|]; simpl; [|exact IH].
    intros _. now exists id, secret.
  - exact IH.
Qed.

(** The cached token comes back, with nothing done, exactly when the cache
    is valid at the time of the call. *)
Lemma cached_token_returned (cfg : config) (w : world) (s : state) (tok : string) :
  reachable cfg s -> ebayToken s = Some tok -> str_truthy tok = true ->
  (getEbayAppToken cfg w s = (Ok (Some tok), s) <-> cache_valid s (now w) = true).
Proof.
  intros Hr Htok Htt.
  assert (Hc : opt_truthy (ebayToken s) = true) by now rewrite Htok.
  destruct (cached_token_credentials cfg s Hr Hc) as (id & secret & Hcred).
  rewrite getEbayAppToken_run, Hcred.
  destruct (cache_valid s (now w)); [rewrite Htok; tauto|].
  split; [|discriminate]. intros Heq. exfalso.
  destruct (token_post w id secret) as [data|e]; [|discriminate].
  apply (f_equal (fun r => List.length (trace (snd r)))) in Heq. simpl in Heq.
  rewrite length_app in Heq. simpl in Heq. lia.
Qed.

(** At whole seconds the validity test of the cache is the comparison of
    the integers. *)
Lemma cache_valid_seconds (s : state) (T n : Z) :
  opt_truthy (ebayToken s) = true ->
  ebayTokenExp s = JSMath.float_of_Z T -> (61 <= T < 2 ^ 53)%Z -> (0 < n < 2 ^ 53)%Z ->
  cache_valid s (JSMath.float_of_Z n) = (n <? T - 60)%Z.
Proof.
  intros Hc HT HTr Hn. unfold cache_valid. rewrite Hc, HT. simpl andb.
  change 60%float with (JSMath.float_of_Z 60).
  rewrite sub_float_of_Z by lia. apply ltb_float_of_Z; lia.
Qed.

(** C3.  With a token cached with expiry [T], a whole number of seconds: a
    call at [T - 61] returns it and leaves the cache and the trace as they
    are; a call at [T - 59] goes to the token endpoint and, when that
    answers, stores the new token with expiry now plus the returned
    lifetime, 7200 when none is returned; and at every whole second [n] the
    cached token comes back without an exchange exactly when [n < T - 60].
    Time is kept in doubles, as in the server: the sums and the comparison
    are those of doubles, which on whole seconds below [2^53] are those of
    the integers. *)
Theorem C3_token_cache_margin (cfg : config) (s : state) (tok : string) (T : Z) :
  reachable cfg s ->
  ebayToken s = Some tok -> str_truthy tok = true ->
  ebayTokenExp s = JSMath.float_of_Z T -> (61 < T < 2 ^ 53)%Z ->
  (forall w, now w = JSMath.float_of_Z (T - 61) ->
     getEbayAppToken cfg w s = (Ok (Some tok), s))
  /\ (forall w, now w = JSMath.float_of_Z (T - 59) ->
        exists id secret,
          credentials cfg = Some (id, secret)
          /\ match token_post w id secret with
             | Ok data =>
                 getEbayAppToken cfg w s =
                   (Ok (access_token data),
                    {| ebayToken := access_token data;
                       ebayTokenExp := PrimFloat.add (now w) (lifetime data);
                       results := results s;
                       trace := trace s ++ [EvTokenPost id secret] |})
                 /\ (forall x, expires_in data = Some x -> num_truthy x = true ->
                               lifetime data = x)
                 /\ (expires_in data = None -> lifetime data = 7200%float)
                 /\ (forall l, expires_in data = Some (JSMath.float_of_Z l) ->
                       (0 < l)%Z -> (T - 59 + l < 2 ^ 53)%Z ->
                       PrimFloat.add (now w) (lifetime data)
                       = JSMath.float_of_Z (T - 59 + l))
             | Throw e =>
                 getEbayAppToken cfg w s = (Throw e, grow s [] [EvTokenPost id secret])
             end)
  /\ (forall w n, now w = JSMath.float_of_Z n -> (0 < n < 2 ^ 53)%Z ->
        (getEbayAppToken cfg w s = (Ok (Some tok), s) <-> (n < T - 60)%Z))
  /\ (forall w, getEbayAppToken cfg w s = (Ok (Some tok), s)
                <-> PrimFloat.ltb (now w) (PrimFloat.sub (ebayTokenExp s) 60) = true).
Proof.
  intros Hr Htok Htt HT HTr.
  assert (Hc : opt_truthy (ebayToken s) = true) by now rewrite Htok.
  destruct (cached_token_credentials cfg s Hr Hc) as (id & secret & Hcred).
  assert (Hvalid : forall n, (0 < n < 2 ^ 53)%Z ->
            cache_valid s (JSMath.float_of_Z n) = (n <? T - 60)%Z)
    by (intros n Hn; apply cache_valid_seconds; auto; lia).
  split; [|split; [|split]].
  - intros w Hnow. apply (cached_token_returned cfg w s tok Hr Htok Htt).
    rewrite Hnow, Hvalid by lia. apply Z.ltb_lt. lia.
  - intros w Hnow. exists id, secret. split; [assumption|].
    rewrite getEbayAppToken_run, Hnow, Hvalid, Hcred by lia.
    replace (T - 59 <? T - 60)%Z with false by (symmetry; apply Z.ltb_ge; lia).
    destruct (token_post w id secret) as [data|e]; [|reflexivity].
    split; [reflexivity|]. split; [|split].
    + intros x Hx Hnum. unfold lifetime. now rewrite Hx, Hnum.
    + intros Hnone. unfold lifetime. now rewrite Hnone.
    + intros l Hl Hpos Hsum. unfold lifetime.
      rewrite Hl, truthy_float_of_Z by lia. apply add_float_of_Z; lia.
  - intros w n Hnow Hn.
    rewrite (cached_token_returned cfg w s tok Hr Htok Htt), Hnow, Hvalid by lia.
    apply Z.ltb_lt.
  - intros w. rewrite (cached_token_returned cfg w s tok Hr Htok Htt).
    unfold cache_valid. rewrite Hc. reflexivity.
Qed.

(** The token endpoint answers [answer] at time [t]; nothing else does. *)
Definition token_world (t : float) (answer : result token_data) : world :=
  {| now := t;
     token_post := fun _ _ => answer;
     browse_get := fun _ _ _ => failure "offline";
     finding_get := fun _ _ _ => failure "offline";
     donedeal_get := fun _ => failure "offline";
     adverts_get := fun _ => failure "offline";
     parseFloat := fun _ => PrimFloat.nan;
     URL_new := fun _ _ => None;
     Number_toString := fun _ => "n" |}.

Definition first_token : token_data :=
  {| access_token := Some "tok-1"; expires_in := None |}.

Definition second_token : token_data :=
  {| access_token := Some "tok-2"; expires_in := Some 3600%float |}.

(** The cache after a first exchange at time 1000: expiry 8200. *)
Definition warm : state :=
  snd (getEbayAppToken full_config (token_world 1000 (Ok first_token)) initial).

Lemma C3_token_cache_margin_witness :
  getEbayAppToken full_config (token_world 8139 (Ok second_token)) warm
    = (Ok (Some "tok-1"), warm)
  /\ getEbayAppToken full_config (token_world 8141 (Ok second_token)) warm
    = (Ok (Some "tok-2"),
       {| ebayToken := Some "tok-2"; ebayTokenExp := 11741%float; results := [];
          trace := [EvTokenPost "client" "secret"; EvTokenPost "client" "secret"] |})
  /\ (8139 < 8200 - 60)%Z.
Proof.
  assert (Hrange : (61 < 8200 < 2 ^ 53)%Z) by (split; reflexivity).
  destruct (C3_token_cache_margin full_config warm "tok-1" 8200%Z
              (reach_token full_config _ initial (reach_initial full_config))
              eq_refl eq_refl eq_refl Hrange) as (H61 & H59 & Hiff & _).
  split; [exact (H61 (token_world 8139 (Ok second_token)) eq_refl)|].
  split.
  - destruct (H59 (token_world 8141 (Ok second_token)) eq_refl)
      as (id & secret & Hc & Hrun).
    injection Hc as <- <-. exact (proj1 Hrun).
  - apply (Hiff (token_world 8139 (Ok second_token)) 8139%Z eq_refl).
    + split; reflexivity.
    + exact (H61 (token_world 8139 (Ok second_token)) eq_refl).
Defined.

(** ** The aggregator *)

Definition titled (l : listing) : Prop := str_truthy (title l) = true.

Lemma choose_Forall {A : Type} (P : listing -> Prop) (f : A -> option listing)
  (items : list A) :
  (forall x l, f x = Some l -> P l) -> Forall P (choose f items).
Proof.
  intros Hf. induction items as [|x rest IH]; simpl; [constructor|].
  destruct (f x) as [l|] eqn:Hx; [constructor; eauto | assumption].
Qed.

Lemma browse_listing_titled (w : world) (mp : string) (it : item_summary) (l : listing) :
  browse_listing w mp it = Some l -> titled l.
Proof.
  unfold browse_listing, titled.
  destruct (str_truthy (trimTitle (is_title it))) eqn:Ht; [|discriminate].
  intros H. injection H as <-. exact Ht.
Qed.

Lemma finding_listing_titled (w : world) (g : string) (it : finding_item) (l : listing) :
  finding_listing w g it = Some l -> titled l.
Proof.
  unfold finding_listing, titled.
  destruct (str_truthy (trimTitle (first (fi_title it)))) eqn:Ht; [|discriminate].
  intros H. injection H as <-. exact Ht.
Qed.

Lemma scraped_listing_titled (w : world) (site base : string) (c : card) (l : listing) :
  scraped_listing w site base c = Some l -> titled l.
Proof.
  unfold scraped_listing, titled.
  destruct (str_truthy (trimTitle (Some (card_title c)))) eqn:Ht; [|discriminate].
  intros H. injection H as <-. exact Ht.
Qed.

Lemma try_catch_bind {A B : Type} (c : M state A) (k : A -> M state B)
  (h : exn -> M state B) (s : state) :
  try_catch (bind c k) h s =
  match c s with
  | (Ok a, s') => try_catch (k a) h s'
  | (Throw e, s') => h e s'
  end.
Proof. unfold try_catch, bind. destruct (c s) as [[a|e] s']; reflexivity. Qed.

(** What a scraper adds for the cards of its page. *)
Definition page_listings (w : world) (site base : string) (page : result (list card))
  : list listing :=
  match page with
  | Ok cards => choose (scraped_listing w site base) (slice0 12 cards)
  | Throw _ => []
  end.

Definition donedeal_listings (w : world) (query : string) : list listing :=
  match encodeURIComponent query with
  | Ok q =>
      page_listings w "DoneDeal" "https://www.donedeal.ie"
        (donedeal_get w (donedeal_url q))
  | Throw _ => []
  end.

Definition adverts_listings (w : world) (query : string) : list listing :=
  match encodeURIComponent query with
  | Ok q =>
      page_listings w "Adverts.ie" "https://www.adverts.ie"
        (adverts_get w (adverts_url q))
  | Throw _ => []
  end.

(** The events of a scraper: its entry, and its request when the query can
    be encoded. *)
Definition donedeal_events (query : string) : list event :=
  EvProvider DoneDeal ::
  match encodeURIComponent query with
  | Ok q => [EvDoneDealGet (donedeal_url q)]
  | Throw _ => []
  end.

Definition adverts_events (query : string) : list event :=
  EvProvider Adverts ::
  match encodeURIComponent query with
  | Ok q => [EvAdvertsGet (adverts_url q)]
  | Throw _ => []
  end.

Lemma scrapeDoneDeal_run (w : world) (query : string) (s : state) :
  scrapeDoneDeal w query s =
  (Ok tt, grow s (donedeal_listings w query) (donedeal_events query)).
Proof.
  unfold scrapeDoneDeal, donedeal_listings, donedeal_events, page_listings.
  unfold bind at 1. rewrite emit_run. rewrite try_catch_bind. unfold lift at 1.
  destruct (encodeURIComponent query) as [q|e0].
  - unfold try_catch, lift, ret, bind at 1.
    rewrite emit_run. unfold bind.
    destruct (donedeal_get w (donedeal_url q)) as [cards|e].
    + rewrite for_each_push, !grow_grow. reflexivity.
    + rewrite grow_grow. reflexivity.
  - unfold ret. reflexivity.
Qed.

Lemma scrapeAdverts_run (w : world) (query : string) (s : state) :
  scrapeAdverts w query s =
  (Ok tt, grow s (adverts_listings w query) (adverts_events query)).
Proof.
  unfold scrapeAdverts, adverts_listings, adverts_events, page_listings.
  unfold bind at 1. rewrite emit_run. rewrite try_catch_bind. unfold lift at 1.
  destruct (encodeURIComponent query) as [q|e0].
  - unfold try_catch, lift, ret, bind at 1.
    rewrite emit_run. unfold bind.
    destruct (adverts_get w (adverts_url q)) as [cards|e].
    + rewrite for_each_push, !grow_grow. reflexivity.
    + rewrite grow_grow. reflexivity.
  - unfold ret. reflexivity.
Qed.

(** What the legacy provider adds to a request, configured or not. *)
Definition finding_listings (cfg : config) (w : world) (query : string) : list listing :=
  match EBAY_APP_ID cfg with
  | Some appId => if str_truthy appId then chain_listings w appId query else []
  | None => []
  end.

Definition finding_events (cfg : config) (w : world) (query : string) : list event :=
  EvProvider Finding ::
  match EBAY_APP_ID cfg with
  | Some appId => if str_truthy appId then chain_events w appId query else []
  | None => []
  end.

Lemma callEbayFinding_grow (cfg : config) (w : world) (query : string) (s : state) :
  snd (callEbayFinding cfg w query s) =
    grow s (finding_listings cfg w query) (finding_events cfg w query)
  /\ exists ok, fst (callEbayFinding cfg w query s) = Ok ok.
Proof.
  unfold finding_listings, finding_events.
  destruct (EBAY_APP_ID cfg) as [appId|] eqn:Hid.
  - destruct (str_truthy appId) eqn:Ht.
    + rewrite (callEbayFinding_run cfg w query appId s Hid Ht). simpl. eauto.
    + rewrite callEbayFinding_unconfigured by (now rewrite Hid). simpl. eauto.
  - rewrite callEbayFinding_unconfigured by (now rewrite Hid). simpl. eauto.
Qed.

(** What the structured provider does once it has asked for a token. *)
Definition after_token (w : world) (query : string) (token : option string)
  : M state bool :=
  match token with
  | Some token =>
      if negb (str_truthy token) then ret false
      else browse_loop w query token ["EBAY_GB"] ;; ret true
  | None => ret false
  end.

Definition browse_failed (e : exn) : M state bool :=
  emit (EvWarn "eBay Browse failed:" e) ;; ret false.

Lemma callEbayBrowse_unfold (cfg : config) (w : world) (query : string) :
  callEbayBrowse cfg w query =
  (emit (EvProvider Browse) ;;
   try_catch (token <- getEbayAppToken cfg w ;; after_token w query token)
     browse_failed).
Proof. reflexivity. Qed.

Definition browse_ok (w : world) (query : string) (token : option string) : bool :=
  match token with
  | Some token =>
      str_truthy token
      && match browse_get w query token "EBAY_GB" with Ok _ => true | Throw _ => false end
  | None => false
  end.

Definition browse_listings (w : world) (query : string) (token : option string)
  : list listing :=
  match token with
  | Some token =>
      if str_truthy token then
        match browse_get w query token "EBAY_GB" with
        | Ok data =>
            choose (browse_listing w "EBAY_GB")
              (match itemSummaries data with Some l => l | None => [] end)
        | Throw _ => []
        end
      else []
  | None => []
  end.

Definition browse_events (w : world) (query : string) (token : option string)
  : list event :=
  match token with
  | Some token =>
      if str_truthy token then
        match browse_get w query token "EBAY_GB" with
        | Ok _ => [EvBrowseGet query token "EBAY_GB"]
        | Throw e => [EvBrowseGet query token "EBAY_GB"; EvWarn "eBay Browse failed:" e]
        end
      else []
  | None => []
  end.

Lemma after_token_run (w : world) (query : string) (token : option string) (s : state) :
  try_catch (after_token w query token) browse_failed s =
  (Ok (browse_ok w query token),
   grow s (browse_listings w query token) (browse_events w query token)).
Proof.
  unfold after_token, browse_ok, browse_listings, browse_events.
  destruct token as [token|]; [|unfold try_catch, ret; now rewrite grow_nothing].
  destruct (str_truthy token); simpl;
    [|unfold try_catch, ret; now rewrite grow_nothing].
  rewrite try_catch_bind. unfold bind at 1. rewrite emit_run.
  unfold bind at 1, lift.
  destruct (browse_get w query token "EBAY_GB") as [data|e].
  - unfold bind at 1. rewrite for_each_push. unfold bind, gets, ret, try_catch. simpl.
    rewrite grow_grow.
    match goal with |- context [if ?c then _ else _] => destruct c end; reflexivity.
  - unfold browse_failed, bind. rewrite emit_run. unfold ret.
    rewrite grow_grow. reflexivity.
Qed.

(** An event of the structured provider. *)
Definition browse_event (ev : event) : Prop :=
  match ev with
  | EvProvider Browse | EvTokenPost _ _ | EvBrowseGet _ _ _ | EvWarn _ _ => True
  | _ => False
  end.

Lemma browse_events_own (w : world) (query : string) (token : option string) :
  Forall browse_event (browse_events w query token).
Proof.
  unfold browse_events. destruct token as [token|]; [|constructor].
  destruct (str_truthy token); [|constructor].
  destruct (browse_get w query token "EBAY_GB"); repeat constructor.
Qed.

Lemma browse_listings_titled (w : world) (query : string) (token : option string) :
  Forall titled (browse_listings w query token).
Proof.
  unfold browse_listings. destruct token as [token|]; [|constructor].
  destruct (str_truthy token); [|constructor].
  destruct (browse_get w query token "EBAY_GB"); [|constructor].
  apply choose_Forall, browse_listing_titled.
Qed.

(** The structured provider always returns; it may renew the token, adds
    titled listings only, and leaves none but its own events. *)
Lemma callEbayBrowse_summary (cfg : config) (w : world) (query : string) (s : state) :
  exists used s' ls evs,
    callEbayBrowse cfg w query s = (Ok used, s')
    /\ results s' = results s ++ ls /\ trace s' = trace s ++ evs
    /\ Forall titled ls /\ Forall browse_event evs.
Proof.
  rewrite callEbayBrowse_unfold. unfold bind at 1. rewrite emit_run.
  rewrite try_catch_bind, getEbayAppToken_run.
  assert (Hb : Forall browse_event [EvProvider Browse]) by (repeat constructor).
  destruct (cache_valid (grow s [] [EvProvider Browse]) (now w)).
  - rewrite after_token_run, grow_grow.
    eexists _, _, _, _. split; [reflexivity|]. simpl.
    repeat split; auto using browse_listings_titled.
    constructor; [exact I | apply browse_events_own].
  - destruct (credentials cfg) as [[id secret]|].
    + destruct (token_post w id secret) as [data|e].
      * rewrite after_token_run.
        exists (browse_ok w query (access_token data)).
        eexists.
        exists (browse_listings w query (access_token data)).
        exists ([EvProvider Browse; EvTokenPost id secret]
                ++ browse_events w query (access_token data)).
        split; [reflexivity|]. simpl. rewrite app_nil_r, <- !app_assoc.
        repeat split; auto using browse_listings_titled.
        repeat constructor. apply browse_events_own.
      * unfold browse_failed, bind. rewrite emit_run. unfold ret. rewrite !grow_grow.
        exists false. eexists. exists [].
        exists [EvProvider Browse; EvTokenPost id secret;
                EvWarn "eBay Browse failed:" e].
        split; [reflexivity|]. simpl. repeat split; auto. repeat constructor.
    + rewrite after_token_run, grow_grow.
      eexists _, _, _, _. split; [reflexivity|]. simpl.
      repeat split; auto using browse_listings_titled.
Qed.

(** [!used || results.length < 4], after the structured provider returned
    [used] and left the state [s1]. *)
Definition fallback (used : bool) (s1 : state) : bool :=
  negb used || (List.length (results s1) <? 4).

Definition scraper_events (query : string) : list event :=
  donedeal_events query ++ adverts_events query.

Lemma scraper_events_no_finding (query : string) :
  ~ In (EvProvider Finding) (scraper_events query)
  /\ requested_regions (scraper_events query) = [].
Proof.
  unfold scraper_events, donedeal_events, adverts_events.
  destruct (encodeURIComponent query); simpl; intuition discriminate.
Qed.

Lemma collect_run (cfg : config) (w : world) (query : string) (s s1 : state)
  (used : bool) :
  callEbayBrowse cfg w query (snd (fresh_results s)) = (Ok used, s1) ->
  collect cfg w query s =
  (Ok tt,
   grow s1
     ((if fallback used s1 then finding_listings cfg w query else [])
      ++ donedeal_listings w query ++ adverts_listings w query)
     ((if fallback used s1 then finding_events cfg w query else [])
      ++ scraper_events query)).
Proof.
  intros Hb. unfold collect. unfold bind at 1.
  change (fresh_results s) with (Ok tt, snd (fresh_results s)).
  unfold bind at 1. rewrite Hb. unfold bind at 1, gets. fold (fallback used s1).
  unfold bind at 1.
  destruct (fallback used s1).
  - unfold bind at 1.
    destruct (callEbayFinding_grow cfg w query s1) as (Hs & ok & Hf).
    destruct (callEbayFinding cfg w query s1) as [r s2]. simpl in Hs, Hf. subst r s2.
    unfold ret. unfold bind. rewrite scrapeDoneDeal_run, scrapeAdverts_run.
    rewrite !grow_grow. reflexivity.
  - unfold ret. unfold bind. rewrite scrapeDoneDeal_run, scrapeAdverts_run.
    rewrite !grow_grow. reflexivity.
Qed.

(** A request starts with an empty [results] array and an empty trace; the
    token cache is whatever earlier requests left. *)
Definition idle (tok : option string) (exp : float) : state :=
  {| ebayToken := tok; ebayTokenExp := exp; results := []; trace := [] |}.

Lemma browse_events_no_finding (evs : list event) :
  Forall browse_event evs ->
  ~ In (EvProvider Finding) evs /\ requested_regions evs = [].
Proof.
  induction 1 as [|ev evs Hev _ [IH1 IH2]]; simpl; [auto|].
  destruct ev as [[]| | | | | | |]; simpl in *; try contradiction;
    (split; [intros [H|H]; [discriminate | auto] | assumption]).
Qed.

Lemma requested_regions_finding (cfg : config) (w : world) (query : string) :
  opt_truthy (EBAY_APP_ID cfg) = true ->
  requested_regions (finding_events cfg w query) <> [].
Proof.
  unfold finding_events. destruct (EBAY_APP_ID cfg) as [appId|]; simpl; [|discriminate].
  intros ->. unfold chain_events. rewrite requested_chain. unfold chain. simpl.
  destruct (region_ok w appId query "EBAY-IE"); discriminate.
Qed.

(** C5.  The legacy provider is invoked exactly when the structured
    provider was unavailable or contributed fewer than 4 listings.  When the
    structured provider succeeded with 4 listings or more, the legacy
    provider is not entered and no request goes to the legacy API; and when
    the legacy provider is configured, a request goes to the legacy API
    exactly under the same condition. *)
Theorem C5_legacy_fallback_condition (cfg : config) (w : world) (query : string)
  (tok : option string) (exp : float) (used : bool) (s1 : state) :
  callEbayBrowse cfg w query (idle tok exp) = (Ok used, s1) ->
  let final := snd (collect cfg w query (idle tok exp)) in
  let contributed := List.length (results s1) in
  (In (EvProvider Finding) (trace final) <-> used = false \/ contributed < 4)
  /\ (used = true -> 4 <= contributed ->
      ~ In (EvProvider Finding) (trace final)
      /\ requested_regions (trace final) = [])
  /\ (opt_truthy (EBAY_APP_ID cfg) = true ->
      (requested_regions (trace final) <> [] <-> used = false \/ contributed < 4)).
Proof.
  intros Hb final contributed. subst final contributed.
  rewrite (collect_run cfg w query (idle tok exp) s1 used Hb).
  destruct (scraper_events_no_finding query) as (Hsno & Hsreq).
  remember (scraper_events query) as sc eqn:Hsc. simpl.
  destruct (callEbayBrowse_summary cfg w query (idle tok exp))
    as (used' & s' & ls & evs & Hrun & _ & Htr & _ & Hevs).
  rewrite Hb in Hrun. injection Hrun as <- <-. simpl in Htr. rewrite Htr.
  destruct (browse_events_no_finding evs Hevs) as (Hno & Hreq).
  assert (Hcond : fallback used s1 = true <-> used = false \/ List.length (results s1) < 4).
  { unfold fallback. rewrite orb_true_iff, negb_true_iff, Nat.ltb_lt. tauto. }
  rewrite !requested_regions_app, Hreq, Hsreq. simpl.
  destruct (fallback used s1) eqn:Hfb.
  - repeat split.
    + intros _. now apply Hcond.
    + intros _. apply in_or_app. right. simpl. now left.
    + exfalso. destruct Hcond as [Hc _]. destruct (Hc eq_refl); [congruence | lia].
    + exfalso. destruct Hcond as [Hc _]. destruct (Hc eq_refl); [congruence | lia].
    + intros _. now apply Hcond.
    + intros _. rewrite app_nil_r. now apply requested_regions_finding.
  - assert (Hnot : ~ (used = false \/ List.length (results s1) < 4))
      by (intros Hc; apply Hcond in Hc; discriminate).
    assert (Hin : ~ In (EvProvider Finding) (evs ++ [] ++ sc)).
    { intros Hin. apply in_app_or in Hin. destruct Hin as [Hin|Hin]; [now apply Hno|].
      simpl in Hin. now apply Hsno. }
    repeat split; try tauto.
Qed.

Definition five_summaries : browse_data :=
  let it (t : string) :=
    {| is_title := Some t;
       is_price := Some {| bp_value := Some "199"; bp_currency := Some "GBP" |};
       itemWebUrl := None; itemAffiliateWebUrl := None |} in
  {| itemSummaries :=
       Some [it "Dyson V8 Absolute"; it "Dyson V8 Animal"; it "Dyson V8 Motorhead";
             it "Dyson V8 Origin"; it "Dyson V8 Total Clean"] |}.

(** The structured API answers with five items; the legacy API would
    answer too, if asked. *)
Definition five_world : world :=
  {| now := 1000%float;
     token_post := fun _ _ => Ok first_token;
     browse_get := fun _ _ _ => Ok five_summaries;
     finding_get := fun _ _ _ => Ok three_items;
     donedeal_get := fun _ => failure "offline";
     adverts_get := fun _ => failure "offline";
     parseFloat := fun _ => 199%float;
     URL_new := fun _ _ => None;
     Number_toString := fun _ => "199" |}.

Lemma C5_legacy_fallback_condition_witness :
  ~ In (EvProvider Finding)
      (trace (snd (collect full_config five_world "dyson v8 absolute" (idle None 0%float))))
  /\ requested_regions
       (trace (snd (collect full_config five_world "dyson v8 absolute" (idle None 0%float))))
     = [].
Proof.
  assert (Hrun : callEbayBrowse full_config five_world "dyson v8 absolute" (idle None 0%float)
                 = (Ok true,
                    snd (callEbayBrowse full_config five_world "dyson v8 absolute"
                           (idle None 0%float))))
    by (vm_compute; reflexivity).
  destruct (C5_legacy_fallback_condition full_config five_world "dyson v8 absolute"
              None 0%float true _ Hrun) as (_ & Hzero & _).
  apply Hzero; [reflexivity|].
  vm_compute. lia.
Defined.

(** Every collected listing has a title. *)
Lemma collect_titled (cfg : config) (w : world) (query : string) (s : state) :
  Forall titled (results (snd (collect cfg w query s))).
Proof.
  destruct (callEbayBrowse_summary cfg w query (snd (fresh_results s)))
    as (used & s1 & ls & evs & Hrun & Hres & _ & Hls & _).
  rewrite (collect_run cfg w query s s1 used Hrun). simpl.
  rewrite Hres. simpl.
  assert (Hchain : forall appId, Forall titled (chain_listings w appId query)).
  { intros appId. unfold chain_listings. apply Forall_flat_map, Forall_forall.
    intros g _. unfold region_listings.
    destruct (finding_get w g appId query); [|constructor].
    apply choose_Forall, finding_listing_titled. }
  repeat (apply Forall_app; split); try assumption.
  - destruct (fallback used s1); [|constructor].
    unfold finding_listings. destruct (EBAY_APP_ID cfg) as [appId|]; [|constructor].
    destruct (str_truthy appId); [apply Hchain | constructor].
  - unfold donedeal_listings, page_listings.
    destruct (encodeURIComponent query) as [q|]; [|constructor].
    destruct (donedeal_get w (donedeal_url q)); [|constructor].
    apply choose_Forall, scraped_listing_titled.
  - unfold adverts_listings, page_listings.
    destruct (encodeURIComponent query) as [q|]; [|constructor].
    destruct (adverts_get w (adverts_url q)); [|constructor].
    apply choose_Forall, scraped_listing_titled.
Qed.

(** Listings of one title and one source whose prices are identical, or
    both falsy, have one key. *)
Lemma same_entry_same_key (w : world) (a b : listing) :
  title a = title b -> source a = source b ->
  price a = price b \/ (falsy_price (price a) = true /\ falsy_price (price b) = true) ->
  key w a = key w b.
Proof.
  intros Ht Hs Hp. unfold key. rewrite Ht, Hs. do 3 f_equal.
  destruct Hp as [Hp|[Ha Hb]]; [now rewrite Hp|].
  now rewrite (falsy_price_key w _ Ha), (falsy_price_key w _ Hb).
Qed.

(** C4, as amended.  The key is title, price and source joined by bars:
    a price that is a number other than [0] and [NaN] enters it as the
    string of that number, and a [null] price, like every falsy one, as the
    empty string; listings with identical (title, price, source) have one
    key.  Of the collected listings with one key exactly one is in the
    output: the first, right after what the listings before it left there;
    and the output is the collected sequence with listings left out, every
    key once. *)
Theorem C4_first_of_each_key_survives (cfg : config) (w : world) (query : string)
  (s : state) (l1 l2 : list listing) (r : listing) :
  results (snd (collect cfg w query s)) = l1 ++ r :: l2 ->
  (forall x, In x l1 -> key w x <> key w r) ->
  ((forall p, price r = Some p -> num_truthy p = true ->
      key w r =
        String.append (title r)
          (String.append "|"
             (String.append (Number_toString w p) (String.append "|" (source r)))))
   /\ (falsy_price (price r) = true ->
       key w r = String.append (title r) (String.append "||" (source r))))
  /\ (forall b, title r = title b -> price r = price b -> source r = source b ->
                key w r = key w b)
  /\ (exists rest,
        dedup w (l1 ++ r :: l2) = dedup w l1 ++ r :: rest
        /\ forall x, In x rest -> key w x <> key w r)
  /\ Subseq (dedup w (l1 ++ r :: l2)) (l1 ++ r :: l2)
  /\ NoDup (map (key w) (dedup w (l1 ++ r :: l2))).
Proof.
  intros Hrs Hfirst.
  assert (Ht : titled r).
  { pose proof (collect_titled cfg w query s) as Hall. rewrite Hrs in Hall.
    apply Forall_app in Hall. destruct Hall as [_ Hall]. now inversion Hall. }
  repeat split.
  - intros p Hp Hnum. unfold key, price_key. now rewrite Hp, Hnum.
  - intros Hp. unfold key. now rewrite (falsy_price_key w _ Hp).
  - intros b Hb Hp Hs. apply same_entry_same_key; auto.
  - now apply dedup_first_occurrence.
  - rewrite dedup_kept. apply kept_Subseq.
  - rewrite dedup_kept. apply kept_keys_NoDup.
Qed.

Definition free_cards : list card :=
  [ {| card_title := "Kitchen table"; card_price := "Free"; card_href := None |};
    {| card_title := "Kitchen table"; card_price := "€0"; card_href := None |};
    {| card_title := "Kitchen table"; card_price := "€0"; card_href := None |} ].

(** One classifieds page answers with the three cards above. *)
Definition classifieds_world : world :=
  {| now := 1000%float;
     token_post := fun _ _ => failure "offline";
     browse_get := fun _ _ _ => failure "offline";
     finding_get := fun _ _ _ => failure "offline";
     donedeal_get := fun _ => Ok free_cards;
     adverts_get := fun _ => failure "offline";
     parseFloat := fun t => if String.eqb t "0" then 0%float else PrimFloat.nan;
     URL_new := fun _ _ => None;
     Number_toString := fun _ => "n" |}.

Definition no_config : config :=
  {| EBAY_CLIENT_ID := None; EBAY_CLIENT_SECRET := None; EBAY_APP_ID := None |}.

Definition table (p : option float) : listing :=
  {| title := "Kitchen table"; source := "DoneDeal"; price := p;
     currency := "EUR"; url := None |}.

Lemma C4_first_of_each_key_survives_witness :
  exists rest,
    dedup classifieds_world ([] ++ table None :: [table (Some 0%float); table (Some 0%float)])
    = dedup classifieds_world [] ++ table None :: rest
    /\ forall x, In x rest -> key classifieds_world x <> key classifieds_world (table None).
Proof.
  apply (C4_first_of_each_key_survives no_config classifieds_world "kitchen table"
           initial [] [table (Some 0%float); table (Some 0%float)] (table None)).
  - reflexivity.
  - intros x [].
Defined.

(** C4, as stated, fails: the second and third collected listing have
    identical title, price and source, and neither is in the output (the
    first listing, whose price is [null], has taken their key). *)
Lemma C4_identical_pair_may_vanish :
  results (snd (collect no_config classifieds_world "kitchen table" initial))
    = [table None; table (Some 0%float); table (Some 0%float)]
  /\ dedup classifieds_world [table None; table (Some 0%float); table (Some 0%float)]
    = [table None]
  /\ ~ In (table (Some 0%float))
        (dedup classifieds_world
           [table None; table (Some 0%float); table (Some 0%float)]).
Proof.
  split; [reflexivity|]. split; [reflexivity|].
  intros [H|[]]. discriminate H.
Qed.

End MarketTheorems.

(* ====================================================================== *)
(** * Model-number hints: theorems *)
(* ====================================================================== *)

Section HintTheorems.

Import Regex.

(** The code units a pattern can consume. *)
Fixpoint alphabet (icase : bool) (r : regex) (c : ascii) : bool :=
  match r with
  | Cls rs => cls_match icase rs c
  | Seq r1 r2 => alphabet icase r1 c || alphabet icase r2 c
  | Rep _ _ r1 => alphabet icase r1 c
  | Look _ | WordB => false
  end.

(** [q] is further on in the subject than [p], past text over [P]. *)
Definition advances (P : ascii -> bool) (p q : pos) : Prop :=
  exists m, snd p = m ++ snd q /\ Forall (fun c => P c = true) m.

Lemma advances_refl (P : ascii -> bool) (p : pos) : advances P p p.
Proof. exists []. split; [reflexivity | constructor]. Qed.

Lemma advances_trans (P : ascii -> bool) (p q r : pos) :
  advances P p q -> advances P q r -> advances P p r.
Proof.
  intros (m1 & H1 & F1) (m2 & H2 & F2). exists (m1 ++ m2). split.
  - now rewrite H1, H2, app_assoc.
  - apply Forall_app. now split.
Qed.

Lemma advances_weaken (P Q : ascii -> bool) (p q : pos) :
  (forall c, P c = true -> Q c = true) -> advances P p q -> advances Q p q.
Proof.
  intros HPQ (m & H & F). exists m. split; [assumption|].
  eapply Forall_impl; [|exact F]. exact HPQ.
Qed.

Lemma advances_remaining (P : ascii -> bool) (p q : pos) :
  advances P p q -> remaining q <= remaining p.
Proof.
  intros (m & H & _). unfold remaining. rewrite H, length_app. lia.
Qed.

Lemma rep_loop_advances (P : ascii -> bool) (m : pos -> list pos) :
  (forall p q, In q (m p) -> advances P p q) ->
  forall fuel min max p q, In q (rep_loop m fuel min max p) -> advances P p q.
Proof.
  intros Hm. induction fuel as [|fuel IH]; intros min max p q; simpl; [tauto|].
  assert (Hmore : In q (flat_map
            (fun q0 => if (min =? 0) && (remaining q0 =? remaining p) then []
                       else rep_loop m fuel (pred min) (option_map pred max) q0)
            (m p)) -> advances P p q).
  { intros Hin. apply in_flat_map in Hin. destruct Hin as (q1 & Hq1 & Hq).
    destruct ((min =? 0) && (remaining q1 =? remaining p)); [contradiction|].
    eapply advances_trans; [apply Hm, Hq1 | eapply IH, Hq]. }
  assert (Hstop : In q [p] -> advances P p q).
  { intros [<-|[]]. apply advances_refl. }
  assert (Hgo : In q (if min =? 0
                      then flat_map
                             (fun q0 => if (min =? 0) && (remaining q0 =? remaining p)
                                        then []
                                        else rep_loop m fuel (pred min)
                                               (option_map pred max) q0) (m p) ++ [p]
                      else flat_map
                             (fun q0 => if (min =? 0) && (remaining q0 =? remaining p)
                                        then []
                                        else rep_loop m fuel (pred min)
                                               (option_map pred max) q0) (m p)) ->
                advances P p q).
  { destruct (min =? 0); [|exact Hmore].
    intros Hin. apply in_app_or in Hin. tauto. }
  destruct max as [[|k]|]; auto.
Qed.

(** A match only ever runs over text that its pattern can consume. *)
Lemma run_advances (icase : bool) (r : regex) :
  forall p q, In q (run icase r p) -> advances (alphabet icase r) p q.
Proof.
  induction r as [rs|r1 IH1 r2 IH2|min max r1 IH1|r1 IH1|]; intros p q Hin.
  - simpl in Hin. destruct p as [prev [|c t]]; simpl in *; [contradiction|].
    destruct (cls_match icase rs c) eqn:Hc; [|contradiction].
    destruct Hin as [<-|[]]. exists [c]. split; [reflexivity|]. now repeat constructor.
  - simpl in Hin. apply in_flat_map in Hin. destruct Hin as (p1 & Hp1 & Hq).
    eapply advances_trans.
    + eapply advances_weaken; [|apply IH1, Hp1]. simpl. intros c ->. reflexivity.
    + eapply advances_weaken; [|apply IH2, Hq]. simpl. intros c ->. apply orb_true_r.
  - eapply rep_loop_advances; [exact IH1 | exact Hin].
  - simpl in Hin. destruct (run icase r1 p); [contradiction|].
    destruct Hin as [<-|[]]. apply advances_refl.
  - simpl in Hin. destruct (xorb _ _); [|contradiction].
    destruct Hin as [<-|[]]. apply advances_refl.
Qed.

Lemma flat_map_agree {A B : Type} (f g : A -> list B) (l : list A) :
  (forall a, In a l -> f a = g a) -> flat_map f l = flat_map g l.
Proof.
  induction l as [|a l IH]; intros H; simpl; [reflexivity|].
  rewrite (H a) by now left. f_equal. apply IH. intros b Hb. apply H. now right.
Qed.

(** The fuel of the repetition matcher never runs out: any two amounts
    above [min] plus the remaining length give the same result. *)
Lemma rep_loop_fuel (m : pos -> list pos) :
  (forall p q, In q (m p) -> remaining q <= remaining p) ->
  forall f1 f2 min max p,
    min + remaining p < f1 -> min + remaining p < f2 ->
    rep_loop m f1 min max p = rep_loop m f2 min max p.
Proof.
  intros Hm. induction f1 as [|f1 IH]; intros f2 min max p H1 H2; [lia|].
  destruct f2 as [|f2]; [lia|]. simpl.
  assert (Hagree :
    flat_map (fun q => if (min =? 0) && (remaining q =? remaining p) then []
                       else rep_loop m f1 (pred min) (option_map pred max) q) (m p)
    = flat_map (fun q => if (min =? 0) && (remaining q =? remaining p) then []
                         else rep_loop m f2 (pred min) (option_map pred max) q) (m p)).
  { apply flat_map_agree. intros q Hq. apply Hm in Hq.
    destruct (min =? 0) eqn:Hmin; simpl.
    - apply Nat.eqb_eq in Hmin. subst min.
      destruct (remaining q =? remaining p) eqn:Heq; [reflexivity|].
      apply Nat.eqb_neq in Heq. apply IH; simpl; lia.
    - apply Nat.eqb_neq in Hmin. apply IH; lia. }
  rewrite Hagree. reflexivity.
Qed.

Lemma run_remaining (icase : bool) (r : regex) (p q : pos) :
  In q (run icase r p) -> remaining q <= remaining p.
Proof. intros H. eapply advances_remaining, run_advances, H. Qed.

(** Nor does the fuel of the scan. *)
Lemma scan_fuel (icase : bool) (r : regex) :
  forall f1 f2 p, remaining p < f1 -> remaining p < f2 ->
  scan icase r f1 p = scan icase r f2 p.
Proof.
  induction f1 as [|f1 IH]; intros f2 p H1 H2; [lia|].
  destruct f2 as [|f2]; [lia|]. simpl.
  destruct (run icase r p) as [|q qs] eqn:Hrun.
  - destruct p as [prev [|c t]]; simpl; [reflexivity|].
    apply IH; unfold remaining in *; simpl in *; lia.
  - assert (Hq : remaining q <= remaining p)
      by (eapply run_remaining; rewrite Hrun; now left).
    destruct (remaining q =? remaining p) eqn:Heq.
    + destruct p as [prev [|c t]]; simpl; [reflexivity|].
      f_equal. apply IH; unfold remaining in *; simpl in *; lia.
    + apply Nat.eqb_neq in Heq. f_equal. apply IH; lia.
Qed.

Lemma consumed_between (p q : pos) (m : list ascii) :
  snd p = m ++ snd q -> consumed p q = m.
Proof.
  intros H. unfold consumed, remaining. rewrite H, length_app.
  replace (List.length m + List.length (snd q) - List.length (snd q))
    with (List.length m + 0) by lia.
  rewrite firstn_app_2. simpl. apply app_nil_r.
Qed.

(** Every match is text over the alphabet of the pattern. *)
Lemma scan_alphabet (icase : bool) (r : regex) (fuel : nat) :
  forall p x, In x (scan icase r fuel p) ->
  exists m, x = string_of_list_ascii m
            /\ Forall (fun c => alphabet icase r c = true) m.
Proof.
  induction fuel as [|fuel IH]; intros p x Hin; simpl in Hin; [contradiction|].
  destruct (run icase r p) as [|q qs] eqn:Hrun.
  - destruct (snd p) as [|c t]; [contradiction | eapply IH, Hin].
  - assert (Hq : advances (alphabet icase r) p q)
      by (apply run_advances; rewrite Hrun; now left).
    destruct Hq as (m & Hm & Fm). rewrite (consumed_between p q m Hm) in Hin.
    assert (Hhere : string_of_list_ascii m = x ->
              exists m0, x = string_of_list_ascii m0
                         /\ Forall (fun c => alphabet icase r c = true) m0)
      by (intros <-; now exists m).
    destruct (remaining q =? remaining p).
    + destruct (snd p) as [|c t].
      * destruct Hin as [H|[]]. auto.
      * destruct Hin as [H|H]; [auto | eapply IH, H].
    + destruct Hin as [H|H]; [auto | eapply IH, H].
Qed.

Lemma js_match_alphabet (icase : bool) (r : regex) (s x : string) :
  In x (js_match icase r s) ->
  exists m, x = string_of_list_ascii m
            /\ Forall (fun c => alphabet icase r c = true) m.
Proof. unfold js_match. apply scan_alphabet. Qed.

Lemma digit_upper (c : ascii) :
  alphabet false re_digits c = true -> upper_char c = c /\ width c = 1.
Proof.
  destruct c as [[] [] [] [] [] [] [] []]; vm_compute; intros H;
    first [split; reflexivity | discriminate H].
Qed.

(** The purely numeric candidates are their own upper-case form. *)
Lemma digits_upper (s x : string) :
  In x (js_match false re_digits s) -> toUpperCase x = x.
Proof.
  intros Hin. apply js_match_alphabet in Hin. destruct Hin as (m & -> & Fm).
  rewrite toUpperCase_narrow.
  - f_equal. induction Fm as [|c m Hc _ IH]; simpl; [reflexivity|].
    now rewrite (proj1 (digit_upper c Hc)), IH.
  - eapply Forall_impl; [|exact Fm]. intros c Hc. exact (proj2 (digit_upper c Hc)).
Qed.

Lemma fold_add_map (f : string -> string) (l set : list string) :
  fold_left (fun h n => set_add h (f n)) l set = fold_left set_add (map f l) set.
Proof.
  revert set. induction l as [|a l IH]; intros set; simpl; [reflexivity | apply IH].
Qed.

Lemma In_firstn {A : Type} (n : nat) (l : list A) (x : A) : In x (firstn n l) -> In x l.
Proof.
  intros H. rewrite <- (firstn_skipn n l). apply in_or_app. now left.
Qed.


(** The three candidate lists, in the order in which the heuristics run. *)
Definition candidates (ocrText : string) : list string :=
  js_match false re_digits ocrText
  ++ js_match true re_sm ocrText
  ++ js_match true re_alnum ocrText.

Lemma hints_from_candidates (ocrText : string) :
  extractModelHints ocrText =
  slice0 10 (array_from_set (map toUpperCase (candidates ocrText))).
Proof.
  unfold extractModelHints, array_from_set, candidates.
  rewrite !map_app, !fold_left_app.
  rewrite (fold_add_map toUpperCase (js_match true re_alnum ocrText)).
  rewrite (fold_add_map toUpperCase (js_match true re_sm ocrText)).
  replace (map toUpperCase (js_match false re_digits ocrText))
    with (js_match false re_digits ocrText); [reflexivity|].
  rewrite <- (map_id (js_match false re_digits ocrText)) at 1.
  apply map_ext_in. intros x Hx. apply digits_upper in Hx. now rewrite Hx.
Qed.

(** Every candidate is text over ASCII letters, digits and the hyphen. *)
Lemma candidates_ascii (ocrText x : string) :
  In x (candidates ocrText) ->
  exists m, x = string_of_list_ascii m
            /\ Forall (fun c => cls_match true [("A", "Z"); ("0", "9"); ("-", "-")]%char c
                                = true) m.
Proof.
  assert (Hsub : forall icase r,
            (forall c, alphabet icase r c = true ->
                       cls_match true [("A", "Z"); ("0", "9"); ("-", "-")]%char c = true) ->
            In x (js_match icase r ocrText) ->
            exists m, x = string_of_list_ascii m
              /\ Forall (fun c => cls_match true
                                    [("A", "Z"); ("0", "9"); ("-", "-")]%char c = true) m).
  { intros icase r Hr Hin. apply js_match_alphabet in Hin.
    destruct Hin as (m & -> & Fm). exists m. split; [reflexivity|].
    eapply Forall_impl; [|exact Fm]. exact Hr. }
  unfold candidates. intros Hin.
  apply in_app_or in Hin. destruct Hin as [Hin|Hin];
    [|apply in_app_or in Hin; destruct Hin as [Hin|Hin]];
    (eapply Hsub; [|exact Hin]);
    intros c; destruct c as [[] [] [] [] [] [] [] []]; vm_compute; intros H;
    first [reflexivity | discriminate H].
Qed.

Example hints_lower_case_prefix : extractModelHints "sm-a52s" = ["SM-A52S"].
Proof. reflexivity. Qed.

Example hints_long_number_skipped :
  extractModelHints "ref 1234567 and 12345" = ["12345"].
Proof. reflexivity. Qed.

Example hints_trailing_hyphen : extractModelHints "AB12C-" = ["AB12C"].
Proof. reflexivity. Qed.

Example hints_hyphenated :
  extractModelHints "x-1-2-3-y 12-ab-" = ["X-1-2-3-Y"; "12-AB"].
Proof. reflexivity. Qed.

Example hints_case_folded_once :
  extractModelHints "WH-1000XM4 lego 75288 Lego-75288"
  = ["75288"; "WH-1000XM4"; "LEGO-75288"].
Proof. reflexivity. Qed.


End HintTheorems.

(* ====================================================================== *)
(** * The marketplace aggregator: further properties *)
(* ====================================================================== *)

Section MarketCoverage.

Import Market.

(** ** Normalisation helpers *)

(** X1.  [sanitizeUrl] never lets a relative path or another scheme
    through: whatever it returns starts with [http://] or [https://], in any
    letter case; and what it returns is the argument itself or the [href]
    that the URL parser made of it. *)
Theorem X1_sanitizeUrl_absolute_or_null (w : world) (url : option string) (h : string) :
  sanitizeUrl w url = Some h ->
  is_http_url h = true
  /\ exists u, url = Some u
       /\ (h = u
           \/ exists parts, URL_new w u "https://example.com" = Some parts
                /\ h = href parts /\ origin parts <> "https://example.com").
Proof.
  unfold sanitizeUrl. destruct url as [u|]; [|discriminate].
  destruct (str_truthy u); simpl; [|discriminate].
  destruct (URL_new w u "https://example.com") as [parts|] eqn:Hp; [|discriminate].
  destruct (String.prefix "http" u).
  - destruct (str_truthy u); simpl; [|discriminate].
    destruct (is_http_url u) eqn:Hu; simpl; [|discriminate].
    intros H. injection H as <-. split; [exact Hu|]. exists u. auto.
  - destruct (String.eqb (origin parts) "https://example.com") eqn:Ho; [discriminate|].
    destruct (str_truthy (href parts)); simpl; [|discriminate].
    destruct (is_http_url (href parts)) eqn:Hu; simpl; [|discriminate].
    intros H. injection H as <-. split; [exact Hu|]. exists u. split; [reflexivity|].
    right. exists parts. split; [exact Hp|]. split; [reflexivity|].
    now apply String.eqb_neq.
Qed.

(** The URL parser resolves against the base it is given. *)
Definition resolving_world : world :=
  {| now := 0%float;
     token_post := fun _ _ => failure "offline";
     browse_get := fun _ _ _ => failure "offline";
     finding_get := fun _ _ _ => failure "offline";
     donedeal_get := fun _ => failure "offline";
     adverts_get := fun _ => failure "offline";
     parseFloat := fun _ => PrimFloat.nan;
     URL_new := fun u base =>
       if String.prefix "//" u
       then Some {| origin := String.append "https:" u;
                    href := String.append "https:" (String.append u "/") |}
       else Some {| origin := base; href := String.append base u |};
     Number_toString := fun _ => "n" |}.

Lemma X1_sanitizeUrl_absolute_or_null_witness :
  is_http_url "https://cdn.example.org/" = true
  /\ exists u, Some "//cdn.example.org" = Some u
       /\ ("https://cdn.example.org/" = u
           \/ exists parts,
                URL_new resolving_world u "https://example.com" = Some parts
                /\ "https://cdn.example.org/" = href parts
                /\ origin parts <> "https://example.com").
Proof.
  exact (X1_sanitizeUrl_absolute_or_null resolving_world (Some "//cdn.example.org")
           "https://cdn.example.org/" eq_refl).
Defined.

(** X2.  [normCurrency] never returns an empty code, returns ["EUR"] for a
    missing code and for the euro sign, returns a code that is its own
    upper-case form, and applying it again changes nothing. *)
Theorem X2_normCurrency_normal_form (cur : string) :
  str_truthy (normCurrency cur) = true
  /\ normCurrency "" = "EUR" /\ normCurrency euro = "EUR"
  /\ toUpperCase (normCurrency cur) = normCurrency cur
  /\ normCurrency (normCurrency cur) = normCurrency cur.
Proof.
  assert (Hform : normCurrency cur = "EUR"
                  \/ (normCurrency cur = toUpperCase cur /\ str_truthy cur = true
                      /\ cur <> euro)).
  { unfold normCurrency. destruct (str_truthy cur); simpl; [|now left].
    destruct (String.eqb cur euro) eqn:He; [now left|].
    right. repeat split. now apply String.eqb_neq. }
  repeat split; try reflexivity.
  - destruct Hform as [->|(-> & Ht & _)]; [reflexivity | now apply toUpperCase_truthy].
  - destruct Hform as [->|(-> & _ & _)]; [reflexivity | apply toUpperCase_idempotent].
  - destruct Hform as [->|(-> & Ht & Hne)]; [reflexivity|].
    unfold normCurrency at 1. rewrite (toUpperCase_truthy cur Ht). simpl.
    destruct (String.eqb (toUpperCase cur) euro) eqn:He.
    + apply String.eqb_eq, upper_euro in He. contradiction.
    + apply toUpperCase_idempotent.
Qed.

(** ** The providers, one by one *)

(** The token the structured provider gets to work with: the cached one
    while it is valid, else the one a successful exchange returns. *)
Definition token_for (cfg : config) (w : world) (s : state) : option string :=
  if cache_valid s (now w) then ebayToken s
  else
    match credentials cfg with
    | Some (id, secret) =>
        match token_post w id secret with
        | Ok data => access_token data
        | Throw _ => None
        end
    | None => None
    end.

Lemma callEbayBrowse_exact (cfg : config) (w : world) (query : string) (s : state) :
  fst (callEbayBrowse cfg w query s) = Ok (browse_ok w query (token_for cfg w s))
  /\ results (snd (callEbayBrowse cfg w query s))
     = results s ++ browse_listings w query (token_for cfg w s).
Proof.
  rewrite callEbayBrowse_unfold. unfold bind at 1 3. rewrite emit_run.
  rewrite try_catch_bind, getEbayAppToken_run. unfold token_for.
  change (cache_valid (grow s [] [EvProvider Browse]) (now w))
    with (cache_valid s (now w)).
  destruct (cache_valid s (now w)).
  - rewrite after_token_run. simpl. now rewrite <- app_assoc.
  - destruct (credentials cfg) as [[id secret]|].
    + destruct (token_post w id secret) as [data|e].
      * rewrite after_token_run. simpl. now rewrite <- app_assoc.
      * unfold browse_failed, bind. rewrite emit_run. simpl.
        now rewrite !app_nil_r.
    + rewrite after_token_run. simpl. now rewrite <- app_assoc.
Qed.

(** X3.  A search without a query, or with an empty one, is answered 400
    before anything else happens: no provider is entered, no request is
    sent, and the token cache and [results] stay as they were. *)
Theorem X3_search_requires_query (cfg : config) (w : world) (req : search_request)
  (s : state) :
  opt_truthy (query req) = false ->
  api_search cfg w req s =
    (Ok {| status := 400; body := ErrorBody "query required" |}, s).
Proof.
  intros Hq. unfold api_search, try_catch. rewrite Hq. reflexivity.
Qed.

Lemma X3_search_requires_query_witness :
  api_search full_config five_world {| query := Some "" |} warm =
    (Ok {| status := 400; body := ErrorBody "query required" |}, warm).
Proof.
  exact (X3_search_requires_query full_config five_world {| query := Some "" |} warm
           eq_refl).
Defined.

Lemma collect_returns (cfg : config) (w : world) (query : string) (s : state) :
  fst (collect cfg w query s) = Ok tt.
Proof.
  destruct (callEbayBrowse_summary cfg w query (snd (fresh_results s)))
    as (used & s1 & ls & evs & Hrun & _).
  now rewrite (collect_run cfg w query s s1 used Hrun).
Qed.

(** X4.  A search with a query is always answered 200 with the region
    note and the de-duplicated listings: no failure of any provider, in any
    combination, turns into an error answer or an exception. *)
Theorem X4_search_always_answers (cfg : config) (w : world) (req : search_request)
  (s : state) :
  opt_truthy (query req) = true ->
  api_search cfg w req s =
    (Ok {| status := 200;
           body := SearchBody "Irish & British marketplaces"
                     (dedup w (results (snd (collect cfg w (opt_or (query req) "") s)))) |},
     snd (collect cfg w (opt_or (query req) "") s)).
Proof.
  intros Hq. unfold api_search, try_catch, bind. rewrite Hq. simpl.
  pose proof (collect_returns cfg w (opt_or (query req) "") s) as Hc.
  destruct (collect cfg w (opt_or (query req) "") s) as [r s']. simpl in Hc.
  subst r. reflexivity.
Qed.

Lemma X4_search_always_answers_witness :
  api_search no_config silent_world {| query := Some "dyson v8" |} initial =
    (Ok {| status := 200;
           body := SearchBody "Irish & British marketplaces"
                     (dedup silent_world
                        (results (snd (collect no_config silent_world
                                         (opt_or (Some "dyson v8") "") initial)))) |},
     snd (collect no_config silent_world (opt_or (Some "dyson v8") "") initial)).
Proof.
  exact (X4_search_always_answers no_config silent_world {| query := Some "dyson v8" |}
           initial eq_refl).
Defined.

Lemma collect_results (cfg : config) (w : world) (query : string) (s : state) :
  results (snd (collect cfg w query s)) =
    browse_listings w query (token_for cfg w s)
    ++ (if negb (browse_ok w query (token_for cfg w s))
           || (List.length (browse_listings w query (token_for cfg w s)) <? 4)
        then finding_listings cfg w query else [])
    ++ donedeal_listings w query ++ adverts_listings w query.
Proof.
  destruct (callEbayBrowse_exact cfg w query (snd (fresh_results s))) as (Hf & Hr).
  destruct (callEbayBrowse cfg w query (snd (fresh_results s))) as [r s1] eqn:Hrun.
  simpl in Hf, Hr. subst r.
  rewrite (collect_run cfg w query s s1 _ Hrun). simpl.
  change (token_for cfg w (snd (fresh_results s))) with (token_for cfg w s) in *.
  unfold fallback. rewrite Hr. simpl. reflexivity.
Qed.

(** X5.  What a search collects, as a function of the answers: the
    listings of the structured provider; then, if that provider was
    unavailable or gave fewer than 4, those of the legacy provider; then
    those of DoneDeal; then those of Adverts.  Whatever [results] held
    before the request is gone.  Both scrapers are entered at the end of
    every search, whatever came before; each sends its one request, for the
    URL with the encoded query, unless the query cannot be encoded (it
    holds a lone surrogate): then neither sends a request nor adds a
    listing. *)
Theorem X5_collect_provider_order (cfg : config) (w : world) (query : string)
  (s : state) :
  let tok := token_for cfg w s in
  results (snd (collect cfg w query s)) =
    browse_listings w query tok
    ++ (if negb (browse_ok w query tok)
           || (List.length (browse_listings w query tok) <? 4)
        then finding_listings cfg w query else [])
    ++ donedeal_listings w query ++ adverts_listings w query
  /\ (exists evs,
        trace (snd (collect cfg w query s)) =
          trace s ++ evs
          ++ match encodeURIComponent query with
             | Ok q =>
                 [EvProvider DoneDeal; EvDoneDealGet (donedeal_url q);
                  EvProvider Adverts; EvAdvertsGet (adverts_url q)]
             | Throw _ => [EvProvider DoneDeal; EvProvider Adverts]
             end)
  /\ (has_lone_surrogate (list_ascii_of_string query) = true ->
      donedeal_listings w query = [] /\ adverts_listings w query = []).
Proof.
  intros tok. subst tok. split; [apply collect_results|]. split.
  - destruct (callEbayBrowse_summary cfg w query (snd (fresh_results s)))
      as (used & s1 & ls & evs & Hrun & _ & Htr & _).
    rewrite (collect_run cfg w query s s1 used Hrun).
    unfold scraper_events, donedeal_events, adverts_events.
    exists (evs ++ (if fallback used s1 then finding_events cfg w query else [])).
    destruct (encodeURIComponent query) as [q|e0]; simpl; rewrite Htr; simpl;
      now rewrite <- !app_assoc.
  - intros Hs. unfold donedeal_listings, adverts_listings, encodeURIComponent.
    rewrite Hs. split; reflexivity.
Qed.

(** ** The shape of a collected listing *)

Definition source_tags : list string :=
  ["eBay (EBAY_GB)"; "eBay (EBAY-IE)"; "eBay (EBAY-GB)"; "eBay (EBAY-US)";
   "DoneDeal"; "Adverts.ie"].

(** A listing as the adapters promise it: a title, one of the six source
    tags, a non-empty upper-case currency code, and a link that is absent
    or absolute http(s). *)
Definition canonical (l : listing) : Prop :=
  str_truthy (title l) = true
  /\ In (source l) source_tags
  /\ str_truthy (currency l) = true
  /\ toUpperCase (currency l) = currency l
  /\ match url l with
     | Some h => is_http_url h = true
     | None => True
     end.

Lemma sanitizeUrl_shape (w : world) (u : option string) :
  match sanitizeUrl w u with
  | Some h => is_http_url h = true
  | None => True
  end.
Proof.
  destruct (sanitizeUrl w u) as [h|] eqn:Hs; [|exact I].
  unfold sanitizeUrl in Hs. destruct u as [u|]; [|discriminate].
  destruct (str_truthy u); simpl in Hs; [|discriminate].
  destruct (URL_new w u "https://example.com") as [parts|]; [|discriminate].
  destruct (if String.prefix "http" u then Some u
            else if String.eqb (origin parts) "https://example.com" then None
                 else Some (href parts)) as [h'|]; [|discriminate].
  destruct (str_truthy h'); simpl in Hs; [|discriminate].
  destruct (is_http_url h') eqn:Hu; simpl in Hs; [|discriminate].
  now injection Hs as <-.
Qed.

Lemma normCurrency_shape (cur : string) :
  str_truthy (normCurrency cur) = true
  /\ toUpperCase (normCurrency cur) = normCurrency cur.
Proof.
  unfold normCurrency. destruct (str_truthy cur) eqn:Ht; simpl; [|now split].
  destruct (String.eqb cur euro); [now split|].
  split; [now apply toUpperCase_truthy | apply toUpperCase_idempotent].
Qed.

Ltac name_link H :=
  match type of H with
  | context [sanitizeUrl ?w ?u] =>
      let Hu := fresh "Hlink" in
      pose proof (sanitizeUrl_shape w u) as Hu;
      destruct (sanitizeUrl w u)
  end.

Lemma browse_listing_canonical (w : world) (it : item_summary) (l : listing) :
  browse_listing w "EBAY_GB" it = Some l -> canonical l.
Proof.
  unfold browse_listing, canonical.
  destruct (str_truthy (trimTitle (is_title it))) eqn:Ht; [|discriminate].
  intros H. name_link H; injection H as <-; cbn [title source currency url];
    (split; [exact Ht|]); (split; [now left|]);
    (split; [apply normCurrency_shape|]); (split; [apply normCurrency_shape|]);
    assumption.
Qed.

Lemma finding_listing_canonical (w : world) (g : string) (it : finding_item)
  (l : listing) :
  In g chain -> finding_listing w g it = Some l -> canonical l.
Proof.
  intros Hg. unfold finding_listing, canonical.
  destruct (str_truthy (trimTitle (first (fi_title it)))) eqn:Ht; [|discriminate].
  assert (Hsrc : In (finding_source g) source_tags).
  { unfold chain in Hg. simpl in Hg.
    destruct Hg as [<-|[<-|[<-|[]]]]; vm_compute; auto. }
  intros H. name_link H; injection H as <-; cbn [title source currency url];
    (split; [exact Ht|]); (split; [exact Hsrc|]);
    (split; [apply normCurrency_shape|]); (split; [apply normCurrency_shape|]);
    assumption.
Qed.

Lemma scraped_listing_canonical (w : world) (site base : string) (c : card)
  (l : listing) :
  In site source_tags -> scraped_listing w site base c = Some l -> canonical l.
Proof.
  intros Hsite. unfold scraped_listing, canonical.
  destruct (str_truthy (trimTitle (Some (card_title c)))) eqn:Ht; [|discriminate].
  intros H. name_link H; injection H as <-; cbn [title source currency url];
    (split; [exact Ht|]); (split; [exact Hsite|]);
    (split; [reflexivity|]); (split; [reflexivity|]); assumption.
Qed.

Lemma tried_incl (w : world) (appId query g : string) (regions : list string) :
  In g (tried w appId query regions) -> In g regions.
Proof.
  induction regions as [|r rest IH]; simpl; [tauto|].
  destruct (region_ok w appId query r); simpl; intuition.
Qed.

Lemma collected_canonical (cfg : config) (w : world) (query : string) (s : state) :
  Forall canonical (results (snd (collect cfg w query s))).
Proof.
  rewrite collect_results. repeat (apply Forall_app; split).
  - unfold browse_listings. destruct (token_for cfg w s) as [token|]; [|constructor].
    destruct (str_truthy token); [|constructor].
    destruct (browse_get w query token "EBAY_GB"); [|constructor].
    apply choose_Forall, browse_listing_canonical.
  - match goal with |- context [if ?c then _ else _] => destruct c end; [|constructor].
    unfold finding_listings. destruct (EBAY_APP_ID cfg) as [appId|]; [|constructor].
    destruct (str_truthy appId); [|constructor].
    unfold chain_listings. apply Forall_flat_map, Forall_forall.
    intros g Hg. apply tried_incl in Hg. unfold region_listings.
    destruct (finding_get w g appId query); [|constructor].
    apply choose_Forall. intros it l. now apply finding_listing_canonical.
  - unfold donedeal_listings, page_listings.
    destruct (encodeURIComponent query) as [q|]; [|constructor].
    destruct (donedeal_get w (donedeal_url q)); [|constructor].
    apply choose_Forall. intros c l. apply scraped_listing_canonical.
    unfold source_tags. simpl. tauto.
  - unfold adverts_listings, page_listings.
    destruct (encodeURIComponent query) as [q|]; [|constructor].
    destruct (adverts_get w (adverts_url q)); [|constructor].
    apply choose_Forall. intros c l. apply scraped_listing_canonical.
    unfold source_tags. simpl. tauto.
Qed.

(** X6.  Every listing in the answer to a search has a non-empty title,
    one of the six source tags, a non-empty currency code in upper case,
    and a link that is either absent or starts with [http://] or
    [https://]: no relative path and no other scheme reaches the client. *)
Theorem X6_answer_listings_canonical (cfg : config) (w : world) (query : string)
  (s : state) :
  Forall canonical (dedup w (results (snd (collect cfg w query s)))).
Proof.
  apply Forall_forall. intros x Hx. rewrite dedup_kept in Hx.
  apply kept_inv in Hx. destruct Hx as (Hin & _).
  pose proof (collected_canonical cfg w query s) as Hall.
  rewrite Forall_forall in Hall. now apply Hall.
Qed.

Lemma choose_length {A : Type} (f : A -> option listing) (items : list A) :
  List.length (choose f items) <= List.length items.
Proof.
  induction items as [|x rest IH]; simpl; [lia|].
  destruct (f x); simpl; lia.
Qed.

(** X7.  A scraper never throws.  It leaves its entry in the trace and,
    when the query can be encoded, its one request, for the URL with the
    encoded query.  It adds at most 12 listings, each tagged with its site
    and priced in EUR; it adds none when the query cannot be encoded (no
    request is sent then) and none when the page cannot be fetched. *)
Theorem X7_scrapers_capped_and_silent (w : world) (query : string) (s : state) :
  (fst (scrapeDoneDeal w query s) = Ok tt
   /\ trace (snd (scrapeDoneDeal w query s))
      = trace s ++ EvProvider DoneDeal ::
          match encodeURIComponent query with
          | Ok q => [EvDoneDealGet (donedeal_url q)]
          | Throw _ => []
          end
   /\ exists ls,
        results (snd (scrapeDoneDeal w query s)) = results s ++ ls
        /\ List.length ls <= 12
        /\ Forall (fun l => source l = "DoneDeal" /\ currency l = "EUR") ls
        /\ (forall e, encodeURIComponent query = Throw e -> ls = [])
        /\ (forall q e, encodeURIComponent query = Ok q ->
                        donedeal_get w (donedeal_url q) = Throw e -> ls = []))
  /\ (fst (scrapeAdverts w query s) = Ok tt
      /\ trace (snd (scrapeAdverts w query s))
         = trace s ++ EvProvider Adverts ::
             match encodeURIComponent query with
             | Ok q => [EvAdvertsGet (adverts_url q)]
             | Throw _ => []
             end
      /\ exists ls,
           results (snd (scrapeAdverts w query s)) = results s ++ ls
           /\ List.length ls <= 12
           /\ Forall (fun l => source l = "Adverts.ie" /\ currency l = "EUR") ls
           /\ (forall e, encodeURIComponent query = Throw e -> ls = [])
           /\ (forall q e, encodeURIComponent query = Ok q ->
                           adverts_get w (adverts_url q) = Throw e -> ls = [])).
Proof.
  assert (Hcap : forall site base page,
            List.length (page_listings w site base page) <= 12).
  { intros site base [cards|e]; unfold page_listings; [|simpl; lia].
    etransitivity; [apply choose_length|].
    unfold slice0. apply firstn_le_length. }
  assert (Htag : forall site base page,
            Forall (fun l => source l = site /\ currency l = "EUR")
              (page_listings w site base page)).
  { intros site base [cards|e]; unfold page_listings; [|constructor].
    apply choose_Forall. intros c l. unfold scraped_listing.
    destruct (str_truthy (trimTitle (Some (card_title c)))); [|discriminate].
    intros H. injection H as <-. now split. }
  split.
  - rewrite scrapeDoneDeal_run. simpl. repeat split.
    exists (donedeal_listings w query). unfold donedeal_listings.
    destruct (encodeURIComponent query) as [q|e0].
    + repeat split; auto; try discriminate.
      intros q' e Hq He. injection Hq as <-. now rewrite He.
    + repeat split; auto; try discriminate. simpl; lia.
  - rewrite scrapeAdverts_run. simpl. repeat split.
    exists (adverts_listings w query). unfold adverts_listings.
    destruct (encodeURIComponent query) as [q|e0].
    + repeat split; auto; try discriminate.
      intros q' e Hq He. injection Hq as <-. now rewrite He.
    + repeat split; auto; try discriminate. simpl; lia.
Qed.

(** ** The structured provider without a token *)

(** X8.  Without configured credentials and without a valid cached token,
    asking for a token returns none and touches nothing, and the structured
    provider reports itself unavailable: it sends no request at all and adds
    no listing. *)
Theorem X8_browse_without_credentials (cfg : config) (w : world) (query : string)
  (s : state) :
  credentials cfg = None -> cache_valid s (now w) = false ->
  getEbayAppToken cfg w s = (Ok None, s)
  /\ callEbayBrowse cfg w query s = (Ok false, grow s [] [EvProvider Browse]).
Proof.
  intros Hc Hv. split.
  - now rewrite getEbayAppToken_run, Hv, Hc.
  - rewrite callEbayBrowse_unfold. unfold bind at 1. rewrite emit_run.
    rewrite try_catch_bind, getEbayAppToken_run.
    change (cache_valid (grow s [] [EvProvider Browse]) (now w))
      with (cache_valid s (now w)).
    rewrite Hv, Hc, after_token_run. simpl. now rewrite grow_grow.
Qed.

Lemma X8_browse_without_credentials_witness :
  getEbayAppToken no_config five_world initial = (Ok None, initial)
  /\ callEbayBrowse no_config five_world "dyson v8" initial
     = (Ok false, grow initial [] [EvProvider Browse]).
Proof.
  exact (X8_browse_without_credentials no_config five_world "dyson v8" initial
           eq_refl eq_refl).
Defined.

(** X9.  When the token exchange fails, the exception leaves
    [getEbayAppToken] with the cache as it was; the structured provider
    catches it, logs it, reports itself unavailable, and sends no search
    request and adds no listing. *)
Theorem X9_failed_exchange_keeps_cache (cfg : config) (w : world) (query : string)
  (s : state) (id secret : string) (e : exn) :
  cache_valid s (now w) = false ->
  credentials cfg = Some (id, secret) ->
  token_post w id secret = Throw e ->
  getEbayAppToken cfg w s = (Throw e, grow s [] [EvTokenPost id secret])
  /\ callEbayBrowse cfg w query s
     = (Ok false,
        grow s [] [EvProvider Browse; EvTokenPost id secret;
                   EvWarn "eBay Browse failed:" e])
  /\ ebayToken (snd (callEbayBrowse cfg w query s)) = ebayToken s
  /\ ebayTokenExp (snd (callEbayBrowse cfg w query s)) = ebayTokenExp s.
Proof.
  intros Hv Hc Hp.
  assert (Hrun : callEbayBrowse cfg w query s
                 = (Ok false,
                    grow s [] [EvProvider Browse; EvTokenPost id secret;
                               EvWarn "eBay Browse failed:" e])).
  { rewrite callEbayBrowse_unfold. unfold bind at 1. rewrite emit_run.
    rewrite try_catch_bind, getEbayAppToken_run.
    change (cache_valid (grow s [] [EvProvider Browse]) (now w))
      with (cache_valid s (now w)).
    rewrite Hv, Hc, Hp. unfold browse_failed, bind. rewrite emit_run. unfold ret.
    now rewrite !grow_grow. }
  split; [now rewrite getEbayAppToken_run, Hv, Hc, Hp|].
  split; [exact Hrun|]. rewrite Hrun. split; reflexivity.
Qed.

Lemma X9_failed_exchange_keeps_cache_witness :
  getEbayAppToken full_config fallback_world initial
    = (Throw {| message := "connect ETIMEDOUT"; response_status := None |},
       grow initial [] [EvTokenPost "client" "secret"])
  /\ callEbayBrowse full_config fallback_world "dyson v8" initial
     = (Ok false,
        grow initial []
          [EvProvider Browse; EvTokenPost "client" "secret";
           EvWarn "eBay Browse failed:"
             {| message := "connect ETIMEDOUT"; response_status := None |}])
  /\ ebayToken (snd (callEbayBrowse full_config fallback_world "dyson v8" initial))
     = ebayToken initial
  /\ ebayTokenExp (snd (callEbayBrowse full_config fallback_world "dyson v8" initial))
     = ebayTokenExp initial.
Proof.
  exact (X9_failed_exchange_keeps_cache full_config fallback_world "dyson v8" initial
           "client" "secret"
           {| message := "connect ETIMEDOUT"; response_status := None |}
           eq_refl eq_refl eq_refl).
Defined.

(** ** De-duplication, again *)

Lemma kept_fixed (w : world) (l : list listing) (seen : list string) :
  Forall titled l -> NoDup (map (key w) l) ->
  (forall x, In x l -> ~ In (key w x) seen) ->
  kept w l seen = l.
Proof.
  revert seen. induction l as [|r rest IH]; intros seen Ht Hn Hs; simpl; [reflexivity|].
  inversion Ht as [|? ? Hr Hrest]; subst. inversion Hn as [|? ? Hnr Hnrest]; subst.
  assert (Hm : mem_str (key w r) seen = false)
    by (apply mem_str_not_In, Hs; now left).
  unfold titled in Hr. rewrite Hm, Hr. simpl. f_equal.
  apply IH; try assumption.
  intros x Hx Hin. apply in_app_or in Hin. destruct Hin as [Hin|[Hin|[]]].
  - apply (Hs x); [now right | assumption].
  - apply Hnr. rewrite Hin. now apply in_map.
Qed.

Lemma Subseq_length {A : Type} (l m : list A) :
  Subseq l m -> List.length l <= List.length m.
Proof. induction 1; simpl; lia. Qed.

(** X10.  De-duplicating twice is de-duplicating once, the output is
    never longer than the input, and no listing without a title is in it. *)
Theorem X10_dedup_idempotent (w : world) (rs : list listing) :
  dedup w (dedup w rs) = dedup w rs
  /\ List.length (dedup w rs) <= List.length rs
  /\ Forall (fun r => str_truthy (title r) = true) (dedup w rs).
Proof.
  assert (Ht : Forall titled (dedup w rs)).
  { apply Forall_forall. intros x Hx. rewrite dedup_kept in Hx.
    apply kept_inv in Hx. apply Hx. }
  split; [|split].
  - rewrite (dedup_kept w (dedup w rs)). apply kept_fixed.
    + exact Ht.
    + rewrite dedup_kept. apply kept_keys_NoDup.
    + intros x _ [].
  - rewrite dedup_kept. apply Subseq_length, kept_Subseq.
  - exact Ht.
Qed.

(** ** The legacy provider *)

(** X11.  The legacy provider never throws.  It returns [true] exactly
    when it is configured and the request to one of its three regions
    succeeds; when it returns [false] it has added nothing; and without an
    application id it sends no request. *)
Theorem X11_finding_result (cfg : config) (w : world) (query : string) (s : state) :
  exists ok,
    fst (callEbayFinding cfg w query s) = Ok ok
    /\ (ok = true <->
        exists appId g,
          EBAY_APP_ID cfg = Some appId /\ str_truthy appId = true
          /\ In g chain /\ region_ok w appId query g = true)
    /\ (ok = false -> results (snd (callEbayFinding cfg w query s)) = results s)
    /\ (opt_truthy (EBAY_APP_ID cfg) = false ->
        trace (snd (callEbayFinding cfg w query s)) = trace s ++ [EvProvider Finding]).
Proof.
  destruct (EBAY_APP_ID cfg) as [appId|] eqn:Hid.
  - destruct (str_truthy appId) eqn:Ht.
    + rewrite (callEbayFinding_run cfg w query appId s Hid Ht).
      exists (chain_ok w appId query). simpl. split; [reflexivity|]. split; [|split].
      * unfold chain_ok. rewrite existsb_exists. split.
        -- intros (g & Hg & Hok). exists appId, g. auto.
        -- intros (a & g & Ha & _ & Hg & Hok). injection Ha as <-. now exists g.
      * unfold chain_ok, chain_listings, chain. simpl. intros Hno.
        apply orb_false_iff in Hno. destruct Hno as (H1 & Hno).
        apply orb_false_iff in Hno. destruct Hno as (H2 & Hno).
        apply orb_false_iff in Hno. destruct Hno as (H3 & _).
        rewrite H1, H2, H3. simpl. unfold region_listings.
        unfold region_ok in H1, H2, H3.
        destruct (finding_get w "EBAY-IE" appId query); [discriminate|].
        destruct (finding_get w "EBAY-GB" appId query); [discriminate|].
        destruct (finding_get w "EBAY-US" appId query); [discriminate|].
        simpl. now rewrite app_nil_r.
      * simpl. rewrite Ht. discriminate.
    + rewrite callEbayFinding_unconfigured by (rewrite Hid; exact Ht).
      exists false. simpl. split; [reflexivity|]. split; [|split].
      * split; [discriminate|]. intros (a & g & Ha & Hta & _).
        injection Ha as <-. congruence.
      * intros _. now rewrite app_nil_r.
      * reflexivity.
  - rewrite callEbayFinding_unconfigured by (now rewrite Hid).
    exists false. simpl. split; [reflexivity|]. split; [|split].
    + split; [discriminate|]. intros (a & g & Ha & _). discriminate.
    + intros _. now rewrite app_nil_r.
    + reflexivity.
Qed.

(** ** Titles *)

Definition space : ascii := " "%char.

(** TAB, LF, VT, FF, CR *)
Definition is_control_space (c : ascii) : bool :=
  (9 <=? nat_of_ascii c) && (nat_of_ascii c <=? 13).

Fixpoint no_adjacent_spaces (l : list ascii) : bool :=
  match l with
  | a :: (b :: _) as t =>
      negb (Ascii.eqb a space && Ascii.eqb b space) && no_adjacent_spaces t
  | _ => true
  end.

Definition starts_with_space (l : list ascii) : bool :=
  match l with c :: _ => Ascii.eqb c space | [] => false end.

(** A text in which white space only occurs as single spaces between other
    characters, as far as ASCII white space goes. *)
Definition tidy (l : list ascii) : Prop :=
  Forall (fun c => is_control_space c = false) l
  /\ no_adjacent_spaces l = true
  /\ starts_with_space l = false
  /\ starts_with_space (rev l) = false.

Lemma ws_len_ascii (c : ascii) (t : list ascii) :
  ws_len (c :: t) = 0 -> is_control_space c = false /\ Ascii.eqb c space = false.
Proof.
  destruct c as [[] [] [] [] [] [] [] []]; intros H;
    first [split; reflexivity | cbv in H; discriminate H].
Qed.

Lemma collapse_ws_tidy (l : list ascii) :
  forall skip in_run,
    Forall (fun c => is_control_space c = false) (collapse_ws skip in_run l)
    /\ no_adjacent_spaces (collapse_ws skip in_run l) = true
    /\ (in_run = true -> starts_with_space (collapse_ws skip in_run l) = false).
Proof.
  induction l as [|c t IH]; intros skip in_run; [simpl; auto|].
  cbn [collapse_ws]. destruct skip as [|k]; [|apply IH].
  destruct (ws_len (c :: t)) as [|k] eqn:Hw.
  - apply ws_len_ascii in Hw. destruct Hw as (Hc & Hs).
    destruct (IH 0 false) as (F & N & _). repeat split.
    + now constructor.
    + cbn [no_adjacent_spaces]. destruct (collapse_ws 0 false t); [reflexivity|].
      rewrite Hs. simpl. exact N.
    + intros _. simpl. exact Hs.
  - destruct (IH k true) as (F & N & S). specialize (S eq_refl).
    destruct in_run; [repeat split; auto|]. repeat split.
    + constructor; [reflexivity | exact F].
    + cbn [no_adjacent_spaces]. destruct (collapse_ws k true t) as [|b r]; [reflexivity|].
      simpl in S. rewrite S. rewrite andb_false_r. simpl. exact N.
    + discriminate.
Qed.

Lemma trim_start_suffix (l : list ascii) :
  forall skip, exists head, l = head ++ trim_start skip l.
Proof.
  induction l as [|c t IH]; intros skip; [now exists []|].
  cbn [trim_start]. destruct skip as [|k].
  - destruct (ws_len (c :: t)) as [|k]; [now exists []|].
    destruct (IH k) as (head & Hh). exists (c :: head). simpl. now f_equal.
  - destruct (IH k) as (head & Hh). exists (c :: head). simpl. now f_equal.
Qed.

(** What is left after [trim_start] does not begin with white space. *)
Lemma trim_start_head (l : list ascii) :
  forall skip, trim_start skip l = [] \/ ws_len (trim_start skip l) = 0.
Proof.
  induction l as [|c t IH]; intros skip; [now left|].
  cbn [trim_start]. destruct skip as [|k]; [|apply IH].
  destruct (ws_len (c :: t)) as [|k] eqn:Hw; [now right | apply IH].
Qed.

Lemma trim_end_prefix (l : list ascii) :
  forall skip pending, exists tail, pending ++ l = trim_end skip pending l ++ tail.
Proof.
  induction l as [|c t IH]; intros skip pending;
    [exists pending; simpl; apply app_nil_r|].
  cbn [trim_end].
  assert (Hhold : forall k, exists tail,
            pending ++ c :: t = trim_end k (pending ++ [c]) t ++ tail).
  { intros k. destruct (IH k (pending ++ [c])) as (tail & Ht). exists tail.
    rewrite <- Ht, <- app_assoc. reflexivity. }
  destruct skip as [|k]; [|apply Hhold].
  destruct (ws_len (c :: t)) as [|k]; [|apply Hhold].
  destruct (IH 0 []) as (tail & Ht). exists tail. simpl in Ht.
  rewrite <- app_assoc. simpl. now rewrite <- Ht.
Qed.

Lemma trim_end_last (l : list ascii) :
  forall skip pending, starts_with_space (rev (trim_end skip pending l)) = false.
Proof.
  induction l as [|c t IH]; intros skip pending; [reflexivity|].
  cbn [trim_end]. destruct skip as [|k]; [|apply IH].
  destruct (ws_len (c :: t)) as [|k] eqn:Hw; [|apply IH].
  apply ws_len_ascii in Hw. destruct Hw as (_ & Hs).
  rewrite rev_app_distr. cbn [rev]. rewrite <- app_assoc.
  destruct (rev (trim_end 0 [] t)) as [|b r] eqn:Hr.
  - simpl. exact Hs.
  - specialize (IH 0 []). rewrite Hr in IH. simpl in *. exact IH.
Qed.

Lemma trim_end_first (l : list ascii) :
  l = [] \/ ws_len l = 0 -> starts_with_space (trim_end 0 [] l) = false.
Proof.
  intros [->|Hw]; [reflexivity|]. destruct l as [|c t]; [reflexivity|].
  cbn [trim_end]. rewrite Hw. apply ws_len_ascii in Hw. simpl. apply Hw.
Qed.

Lemma no_adjacent_spaces_app (a b : list ascii) :
  no_adjacent_spaces (a ++ b) = true ->
  no_adjacent_spaces a = true /\ no_adjacent_spaces b = true.
Proof.
  induction a as [|x a IH]; simpl; [auto|].
  destruct a as [|y a].
  - simpl. destruct b as [|z b]; [auto|].
    intros H. apply andb_true_iff in H. now split.
  - simpl in *. intros H. apply andb_true_iff in H. destruct H as (H1 & H2).
    destruct (IH H2) as (Ha & Hb). rewrite H1, Ha. auto.
Qed.

(** X12.  A normalised title is tidy: it holds no tab and no line break,
    no two spaces side by side, and neither begins nor ends with a space.
    A missing title normalises to the empty string. *)
Theorem X12_trimTitle_tidy (t : option string) :
  tidy (list_ascii_of_string (trimTitle t)) /\ trimTitle None = "".
Proof.
  split; [|reflexivity].
  unfold trimTitle, trim, replace_ws_runs.
  rewrite !list_ascii_of_string_of_list_ascii.
  set (raw := list_ascii_of_string (opt_or t "")).
  destruct (collapse_ws_tidy raw 0 false) as (F & N & _).
  destruct (trim_start_suffix (collapse_ws 0 false raw) 0) as (head & Hh).
  destruct (trim_end_prefix (trim_start 0 (collapse_ws 0 false raw)) 0 [])
    as (tail & Ht).
  simpl in Ht. rewrite Hh in F, N. rewrite Ht in F, N.
  apply Forall_app in F. destruct F as (_ & F).
  apply Forall_app in F. destruct F as (F & _).
  apply no_adjacent_spaces_app in N. destruct N as (_ & N).
  apply no_adjacent_spaces_app in N. destruct N as (N & _).
  repeat split.
  - exact F.
  - exact N.
  - apply trim_end_first, trim_start_head.
  - apply trim_end_last.
Qed.

End MarketCoverage.

(* ====================================================================== *)
(** * The image pipeline: further properties *)
(* ====================================================================== *)

Section VisionCoverage.

Import Vision.

(** ** Input validation and fatal failures *)

Definition bad_request (msg : string) : http_response :=
  {| status := 400; body := ErrorBody msg |}.

(** X13.  A request without an image, with an empty one, or with one that
    decodes to no bytes is answered 400 before any call is made: the trace
    stays as it was. *)
Theorem X13_vision_input_validation (E : env) (t : trace) :
  api_vision E {| imageBase64 := None |} t = (Ok (bad_request "imageBase64 required"), t)
  /\ api_vision E {| imageBase64 := Some "" |} t
     = (Ok (bad_request "imageBase64 required"), t)
  /\ forall b64, Buffer_from_base64 E b64 = [] ->
       api_vision E {| imageBase64 := Some b64 |} t
       = (Ok (bad_request (if str_truthy b64 then "bad image"
                           else "imageBase64 required")), t).
Proof.
  split; [reflexivity|]. split; [reflexivity|].
  intros b64 Hb. unfold api_vision, try_catch. simpl.
  destruct (str_truthy b64); simpl; [|reflexivity].
  rewrite Hb. reflexivity.
Qed.

Definition server_error (msg : string) : http_response :=
  {| status := 500; body := ErrorBody (str_or msg "vision error") |}.

(** X14.  When preprocessing or the first analysis pass throws, the answer
    is 500 with the message of the exception (["vision error"] when it has
    none); the failure is logged, and neither the cropper nor the second
    opinion is called. *)
Theorem X14_first_pass_failure_is_fatal (E : env) (b64 : string) (e : exn) :
  str_truthy b64 = true ->
  Buffer_from_base64 E b64 <> [] ->
  (sharp_prep E (Buffer_from_base64 E b64) = Throw e ->
   api_vision E {| imageBase64 := Some b64 |} [] =
     (Ok (server_error (message e)),
      [EvSharpPrep (Buffer_from_base64 E b64); EvError "Vision error:" e]))
  /\ (forall cleaned,
        sharp_prep E (Buffer_from_base64 E b64) = Ok cleaned ->
        annotateImage E cleaned = Throw e ->
        api_vision E {| imageBase64 := Some b64 |} [] =
          (Ok (server_error (message e)),
           [EvSharpPrep (Buffer_from_base64 E b64); EvAnnotateImage cleaned;
            EvError "Vision error:" e])).
Proof.
  intros Hb Hraw. split.
  - intros Hprep. unfold api_vision, prepForOCR, emit. run_steps. rewrite Hb. simpl.
    destruct (Buffer_from_base64 E b64) as [|b0 raw]; [congruence|]. simpl.
    rewrite Hprep. reflexivity.
  - intros cleaned Hprep Hann.
    unfold api_vision, prepForOCR, runVisionAllFeatures, emit. run_steps.
    rewrite Hb. simpl.
    destruct (Buffer_from_base64 E b64) as [|b0 raw]; [congruence|]. simpl.
    rewrite Hprep. simpl. rewrite Hann. reflexivity.
Qed.

Definition broken_env : env :=
  stub_env (fun _ => Throw {| message := ""; response_status := None |})
    (fun _ => failure "no localization") (chat_reply dyson_reply) parse_stub.

Lemma X14_first_pass_failure_is_fatal_witness :
  api_vision broken_env {| imageBase64 := Some "aGk=" |} [] =
    (Ok {| status := 500; body := ErrorBody "vision error" |},
     [EvSharpPrep [Byte.x01]; EvAnnotateImage [Byte.x01];
      EvError "Vision error:" {| message := ""; response_status := None |}]).
Proof.
  refine (proj2 (X14_first_pass_failure_is_fatal broken_env "aGk="
                   {| message := ""; response_status := None |} eq_refl _)
            [Byte.x01] eq_refl eq_refl).
  discriminate.
Defined.

(** ** Optional enrichment *)

Lemma prepForOCR_run (E : env) (buf : bytes) (t : trace) :
  prepForOCR E buf t = (sharp_prep E buf, t ++ [EvSharpPrep buf]).
Proof. unfold prepForOCR, emit, bind, modify, lift. reflexivity. Qed.

Lemma runVisionAllFeatures_run (E : env) (image : bytes) (t : trace) :
  runVisionAllFeatures E image t =
  (match annotateImage E image with
   | Ok resp => Ok (normalize resp)
   | Throw e => Throw e
   end, t ++ [EvAnnotateImage image]).
Proof.
  unfold runVisionAllFeatures, emit, bind, modify, lift, ret.
  destruct (annotateImage E image); reflexivity.
Qed.

Lemma crop_pass_total (E : env) (cleaned : bytes) (base : bundle) (t : trace) :
  exists merged t',
    crop_pass E cleaned base t = (Ok merged, t')
    /\ (merged = base \/ exists cropSignals, merged = merge base cropSignals).
Proof.
  unfold crop_pass, try_catch. unfold bind at 1.
  destruct (cropPrimaryObject E cleaned t) as [[[crop|]|e] t1].
  - unfold prepForOCR, runVisionAllFeatures, emit. run_steps.
    destruct (sharp_prep E crop) as [cropClean|e]; simpl.
    + destruct (annotateImage E cropClean) as [resp|e]; simpl; eauto 6.
    + eauto.
  - unfold ret. eauto.
  - unfold emit. run_steps. eauto.
Qed.

Lemma second_opinion_total (E : env) (base64 : string) (t : trace) :
  exists so log,
    runOpenAIVisionExtract E base64 t =
      (Ok so, t ++ EvChatCreate (request_model E) (data_url base64) :: log)
    /\ (log = []
        \/ (so = None
            /\ exists msg, log = [EvWarn "OpenAI Vision second-opinion failed:" msg])).
Proof.
  unfold runOpenAIVisionExtract, emit, read_prop. run_steps.
  destruct (chat_create E (request_model E) (data_url base64)) as [out|e]; simpl.
  - destruct (JSON_parse E (reply_text out)) as [j|]; simpl.
    + destruct j; simpl;
        try (eexists _, []; split; [reflexivity | now left]);
        (eexists None, _; split;
         [rewrite <- app_assoc; reflexivity | right; split; [reflexivity | eauto]]).
    + eexists _, []. split; [reflexivity | now left].
  - eexists None, _. split; [rewrite <- app_assoc; reflexivity|].
    right. split; [reflexivity | eauto].
Qed.

(** X15.  The second-opinion extractor never throws and sends exactly one
    request, for the configured model and the data URL of the image; the
    only other thing it may leave in the trace is the warning that goes
    with a [null] result. *)
Theorem X15_second_opinion_never_fatal (E : env) (base64 : string) (t : trace) :
  exists so log,
    runOpenAIVisionExtract E base64 t =
      (Ok so, t ++ EvChatCreate (request_model E) (data_url base64) :: log)
    /\ (log = []
        \/ (so = None
            /\ exists msg, log = [EvWarn "OpenAI Vision second-opinion failed:" msg])).
Proof.
  destruct (second_opinion_total E base64 t) as (so & log & Hrun & Hlog).
  exists so, log. split; assumption.
Qed.

(** X16.  Once the first pass has succeeded without a face, the answer is
    200 whatever the cropper, the second pass and the second opinion do.
    The bundle in it is the first-pass bundle or its merge with a crop
    pass, and the hints are those of the text of that bundle. *)
Theorem X16_enrichment_never_fatal (E : env) (b64 : string) (cleaned : bytes)
  (resp : annotate_response) :
  str_truthy b64 = true ->
  Buffer_from_base64 E b64 <> [] ->
  sharp_prep E (Buffer_from_base64 E b64) = Ok cleaned ->
  annotateImage E cleaned = Ok resp ->
  faceCount (normalize resp) = 0 ->
  exists merged so t',
    api_vision E {| imageBase64 := Some b64 |} [] =
      (Ok {| status := 200;
             body := VisionBody (finish merged (extractModelHints (ocrText merged)) so) |},
       t')
    /\ (merged = normalize resp
        \/ exists cropSignals, merged = merge (normalize resp) cropSignals).
Proof.
  intros Hb Hraw Hprep Hann Hface.
  destruct (crop_pass_total E cleaned (normalize resp)
              [EvSharpPrep (Buffer_from_base64 E b64); EvAnnotateImage cleaned])
    as (merged & t1 & Hcrop & Hm).
  destruct (second_opinion_total E b64 t1) as (so & log & Hso & _).
  exists merged, so. eexists. split; [|exact Hm].
  unfold api_vision. cbn [imageBase64]. rewrite Hb. cbn [negb]. cbv zeta.
  destruct (Buffer_from_base64 E b64) as [|b0 raw] eqn:Hbuf; [congruence|].
  cbn [List.length Nat.eqb]. unfold try_catch. unfold bind at 1.
  rewrite prepForOCR_run, Hprep. unfold bind at 1.
  rewrite runVisionAllFeatures_run, Hann, Hface. cbn [Nat.ltb Nat.leb app].
  unfold bind at 1. simpl app. rewrite Hcrop. unfold bind at 1. rewrite Hso.
  reflexivity.
Qed.

Definition product_env : env :=
  stub_env (fun _ => Ok empty_response) (fun _ => failure "no localization")
    (Throw {| message := "rate limited"; response_status := Some 429%Z |}) parse_stub.

Lemma X16_enrichment_never_fatal_witness :
  exists merged so t',
    api_vision product_env {| imageBase64 := Some "aGk=" |} [] =
      (Ok {| status := 200;
             body := VisionBody (finish merged (extractModelHints (ocrText merged)) so) |},
       t')
    /\ (merged = normalize empty_response
        \/ exists cropSignals, merged = merge (normalize empty_response) cropSignals).
Proof.
  apply (X16_enrichment_never_fatal product_env "aGk=" [Byte.x01] empty_response);
    try reflexivity.
  discriminate.
Defined.

(** X17.  The image handler never throws: every request is answered, with
    status 200, 400 or 500, and an answer other than 200 carries an error
    message instead of a bundle. *)
Theorem X17_vision_always_answers (E : env) (req : vision_request) (t : trace) :
  exists resp t',
    api_vision E req t = (Ok resp, t')
    /\ ((status resp = 200 /\ exists r, body resp = VisionBody r)
        \/ ((status resp = 400 \/ status resp = 500)
            /\ exists msg, body resp = ErrorBody msg)).
Proof.
  unfold api_vision. destruct (imageBase64 req) as [b64|].
  2:{ unfold try_catch, ret. eexists _, _. split; [reflexivity|]. right. simpl. eauto. }
  destruct (str_truthy b64); cbn [negb].
  2:{ unfold try_catch, ret. eexists _, _. split; [reflexivity|]. right. simpl. eauto. }
  cbv zeta. destruct (Buffer_from_base64 E b64) as [|b0 raw].
  { unfold try_catch, ret. eexists _, _. split; [reflexivity|]. right. simpl. eauto. }
  cbn [List.length Nat.eqb]. unfold try_catch. unfold bind at 1.
  rewrite prepForOCR_run.
  destruct (sharp_prep E (b0 :: raw)) as [cleaned|e].
  2:{ unfold emit, bind, modify, ret. eexists _, _. split; [reflexivity|].
      right. simpl. eauto. }
  unfold bind at 1. rewrite runVisionAllFeatures_run.
  destruct (annotateImage E cleaned) as [resp|e].
  2:{ unfold emit, bind, modify, ret. eexists _, _. split; [reflexivity|].
      right. simpl. eauto. }
  destruct (0 <? faceCount (normalize resp)).
  { unfold ret. eexists _, _. split; [reflexivity|]. right. simpl. eauto. }
  unfold bind at 1.
  destruct (crop_pass_total E cleaned (normalize resp)
              ((t ++ [EvSharpPrep (b0 :: raw)]) ++ [EvAnnotateImage cleaned]))
    as (merged & t1 & Hcrop & _).
  rewrite Hcrop. unfold bind at 1.
  destruct (second_opinion_total E b64 t1) as (so & log & Hso & _).
  rewrite Hso. unfold ret. eexists _, _. split; [reflexivity|]. left. simpl. eauto.
Qed.

(** ** The signal bundle of one pass *)



(** ** The cropper *)

Ltac crop_step := cbv beta iota; cbn [fst snd].

(** X19.  When the cropper returns a crop, it is what the image library
    extracted for a rectangle at least 50 pixels wide and 50 high, and the
    best region had at least 4 vertices: a smaller rectangle is never
    extracted. *)
Theorem X19_crop_never_small (E : env) (img : bytes) (t t' : trace) (buf : bytes) :
  cropPrimaryObject E img t = (Ok (Some buf), t') ->
  exists objResp top left topY w h,
    objectLocalization E img = Ok objResp
    /\ top_annotation objResp = Some top
    /\ 4 <= List.length (vertices_of top)
    /\ sharp_extract E img left topY w h = Ok buf
    /\ PrimFloat.ltb w 50 = false /\ PrimFloat.ltb h 50 = false
    /\ In (EvSharpExtract img left topY w h) t'.
Proof.
  unfold cropPrimaryObject, emit, modify, lift, ret.
  unfold bind at 1 2. crop_step.
  destruct (objectLocalization E img) as [objResp|e] eqn:Hloc; crop_step; [|discriminate].
  destruct (sort (by_score_desc oa_score)
              (or_nil (lr_localizedObjectAnnotations objResp))) as [|top rest] eqn:Hsort;
    crop_step; [discriminate|].
  destruct (List.length (vertices_of top) <? 4) eqn:Hv; crop_step; [discriminate|].
  apply Nat.ltb_ge in Hv.
  unfold bind at 1 2. crop_step.
  destruct (sharp_metadata E img) as [meta|e]; crop_step; [|discriminate].
  cbv zeta.
  match goal with
  | |- context [if negb (num_truthy ?W) || negb (num_truthy ?H) then _ else _] =>
      destruct (negb (num_truthy W) || negb (num_truthy H))
  end; crop_step; [discriminate|].
  match goal with
  | |- context [if PrimFloat.ltb ?w 50 || PrimFloat.ltb ?h 50 then _ else _] =>
      destruct (PrimFloat.ltb w 50) eqn:Hw; [crop_step; discriminate|];
      destruct (PrimFloat.ltb h 50) eqn:Hh; [crop_step; discriminate|]
  end.
  cbn [orb]. unfold bind at 1 2. crop_step.
  match goal with
  | |- context [sharp_extract E img ?l ?tp ?w ?h] =>
      destruct (sharp_extract E img l tp w h) as [out|e] eqn:Hx; crop_step;
      [|discriminate];
      intros Hout; injection Hout as <- <-;
      exists objResp, top, l, tp, w, h
  end.
  split; [reflexivity|]. split; [unfold top_annotation; now rewrite Hsort|].
  split; [exact Hv|]. split; [exact Hx|]. split; [exact Hw|]. split; [exact Hh|].
  apply in_or_app. right. now left.
Qed.

Definition square : object_annotation :=
  {| oa_name := "Vacuum cleaner"; oa_score := 0.5%float;
     boundingPoly := Some {| normalizedVertices :=
       Some [ {| vx := 0.25%float; vy := 0.25%float |};
              {| vx := 0.75%float; vy := 0.25%float |};
              {| vx := 0.75%float; vy := 0.75%float |};
              {| vx := 0.25%float; vy := 0.75%float |} ] |} |}.

(** A 1000 by 800 image with one region in its middle. *)
Definition square_env : env :=
  {| OPENAI_MODEL := None;
     Buffer_from_base64 := fun _ => [Byte.x01];
     sharp_prep := fun b => Ok b;
     annotateImage := fun _ => Ok empty_response;
     objectLocalization := fun _ => Ok {| lr_localizedObjectAnnotations := Some [square] |};
     sharp_metadata := fun _ => Ok {| width := Some 1000%float; height := Some 800%float |};
     sharp_extract := fun _ _ _ _ _ => Ok [Byte.x02];
     chat_create := fun _ _ => chat_reply dyson_reply;
     JSON_parse := parse_stub |}.

Lemma X19_crop_never_small_witness :
  exists objResp top left topY w h,
    objectLocalization square_env [Byte.x01] = Ok objResp
    /\ top_annotation objResp = Some top
    /\ 4 <= List.length (vertices_of top)
    /\ sharp_extract square_env [Byte.x01] left topY w h = Ok [Byte.x02]
    /\ PrimFloat.ltb w 50 = false /\ PrimFloat.ltb h 50 = false
    /\ In (EvSharpExtract [Byte.x01] left topY w h)
         [EvObjectLocalization [Byte.x01]; EvSharpMetadata [Byte.x01];
          EvSharpExtract [Byte.x01] 190 152 621 497].
Proof.
  apply (X19_crop_never_small square_env [Byte.x01] [] _ [Byte.x02]).
  vm_compute. reflexivity.
Defined.

(** ** Folding the second opinion in *)

Lemma mem_val_str (x : string) (set : list jsval) :
  mem_val (VStr x) set = true -> In (VStr x) set.
Proof.
  induction set as [|y set IH]; simpl; [discriminate|].
  intros H. apply orb_true_iff in H. destruct H as [H|H]; [|right; now apply IH].
  left. destruct y; try discriminate H. apply String.eqb_eq in H. now subst.
Qed.

Lemma set_add_val_keeps (set : list jsval) (x y : jsval) :
  In y set -> In y (set_add_val set x).
Proof.
  intros H. unfold set_add_val. destruct (mem_val x set); [assumption|].
  apply in_or_app. now left.
Qed.

Lemma fold_add_val_keeps (l set : list jsval) (y : jsval) :
  In y set -> In y (fold_left set_add_val l set).
Proof.
  revert set. induction l as [|a l IH]; intros set H; simpl; [assumption|].
  apply IH, set_add_val_keeps, H.
Qed.

Lemma fold_add_val_str (l set : list jsval) (x : string) :
  In (VStr x) l -> In (VStr x) (fold_left set_add_val l set).
Proof.
  revert set. induction l as [|a l IH]; intros set; simpl; [tauto|].
  intros [->|H]; [|now apply IH].
  apply fold_add_val_keeps. unfold set_add_val.
  destruct (mem_val (VStr x) set) eqn:Hm; [now apply mem_val_str|].
  apply in_or_app. right. now left.
Qed.

Lemma fold_in_keeps (l : list string) (v : jsval) (x : string) :
  In x l -> In (VStr x) (fold_in l v).
Proof.
  intros H. unfold fold_in.
  destruct (truthy v); [|now apply in_map].
  apply fold_add_val_str, in_or_app. left. now apply in_map.
Qed.

Lemma fold_in_adds (l : list string) (b : string) :
  str_truthy b = true -> In (VStr b) (fold_in l (VStr b)).
Proof.
  intros H. unfold fold_in. simpl. rewrite H.
  apply fold_add_val_str, in_or_app. right. now left.
Qed.

(** X20.  Folding the second opinion in only ever adds: every logo and
    every web entity of the merged bundle is in the answer, and so are a
    non-empty brand and a non-empty product type of the second opinion.
    Without a second opinion the two lists are those of the merged
    bundle. *)
Theorem X20_second_opinion_is_additive (merged : bundle) (hints : list string)
  (so : option second_opinion) :
  (forall x, In x (logos merged) -> In (VStr x) (vr_logos (finish merged hints so)))
  /\ (forall x, In x (webEntities merged) ->
                In (VStr x) (vr_webEntities (finish merged hints so)))
  /\ (forall o b, so = Some o -> brand o = VStr b -> str_truthy b = true ->
                  In (VStr b) (vr_logos (finish merged hints so)))
  /\ (forall o p, so = Some o -> product_type o = VStr p -> str_truthy p = true ->
                  In (VStr p) (vr_webEntities (finish merged hints so)))
  /\ (so = None ->
      vr_logos (finish merged hints so) = map VStr (logos merged)
      /\ vr_webEntities (finish merged hints so) = map VStr (webEntities merged)).
Proof.
  unfold finish. cbn [vr_logos vr_webEntities]. repeat split.
  - intros x Hx. destruct so as [o|]; [now apply fold_in_keeps | now apply in_map].
  - intros x Hx. destruct so as [o|]; [now apply fold_in_keeps | now apply in_map].
  - intros o b -> Hb Ht. rewrite Hb. now apply fold_in_adds.
  - intros o p -> Hp Ht. rewrite Hp. now apply fold_in_adds.
  - subst so. reflexivity.
  - subst so. reflexivity.
Qed.

End VisionCoverage.

(* ====================================================================== *)
(** * Model-number hints: further properties *)
(* ====================================================================== *)

Section HintCoverage.

Import Regex.

(** The least number of code units a match of a pattern consumes. *)
Fixpoint min_len (r : regex) : nat :=
  match r with
  | Cls _ => 1
  | Seq r1 r2 => min_len r1 + min_len r2
  | Rep min _ r1 => min * min_len r1
  | Look _ | WordB => 0
  end.

(** No quantifier [{min,max}] with [max] below [min]. *)
Fixpoint bounds_ok (r : regex) : bool :=
  match r with
  | Cls _ | WordB => true
  | Seq r1 r2 => bounds_ok r1 && bounds_ok r2
  | Rep min (Some max) r1 => (min <=? max) && bounds_ok r1
  | Rep _ None r1 => bounds_ok r1
  | Look r1 => bounds_ok r1
  end.

Lemma rep_loop_min (m : pos -> list pos) (k : nat) :
  (forall p q, In q (m p) -> remaining q + k <= remaining p) ->
  forall fuel min max p q,
    match max with Some x => min <= x | None => True end ->
    In q (rep_loop m fuel min max p) ->
    remaining q + min * k <= remaining p.
Proof.
  intros Hm. induction fuel as [|fuel IH]; intros min max p q Hb Hin;
    [contradiction|].
  cbn [rep_loop] in Hin.
  assert (Hmore : In q (flat_map
            (fun q0 => if (min =? 0) && (remaining q0 =? remaining p) then []
                       else rep_loop m fuel (pred min) (option_map pred max) q0)
            (m p)) ->
          max <> Some 0 -> remaining q + min * k <= remaining p).
  { intros H Hmax. apply in_flat_map in H. destruct H as (q1 & Hq1 & Hq).
    destruct ((min =? 0) && (remaining q1 =? remaining p)); [contradiction|].
    apply Hm in Hq1. apply IH in Hq.
    - destruct min as [|min']; simpl in *; lia.
    - destruct max as [x|]; simpl; [|exact I].
      destruct x as [|x]; [congruence|]. simpl. lia. }
  destruct max as [[|x]|].
  - destruct Hin as [<-|[]]. assert (min = 0) by lia. subst. simpl. lia.
  - destruct (min =? 0) eqn:Hz.
    + apply in_app_or in Hin. destruct Hin as [Hin|[<-|[]]].
      * apply Hmore; [exact Hin | discriminate].
      * apply Nat.eqb_eq in Hz. subst. simpl. lia.
    + apply Hmore; [exact Hin | discriminate].
  - destruct (min =? 0) eqn:Hz.
    + apply in_app_or in Hin. destruct Hin as [Hin|[<-|[]]].
      * apply Hmore; [exact Hin | discriminate].
      * apply Nat.eqb_eq in Hz. subst. simpl. lia.
    + apply Hmore; [exact Hin | discriminate].
Qed.

(** A match consumes at least [min_len] code units. *)
Lemma run_min_len (icase : bool) (r : regex) :
  bounds_ok r = true ->
  forall p q, In q (run icase r p) -> remaining q + min_len r <= remaining p.
Proof.
  induction r as [rs|r1 IH1 r2 IH2|min max r1 IH1|r1 IH1|]; intros Hb p q Hin.
  - simpl in Hin. destruct p as [prev [|c t]]; simpl in *; [contradiction|].
    destruct (cls_match icase rs c); [|contradiction].
    destruct Hin as [<-|[]]. unfold remaining. simpl. lia.
  - simpl in Hb. apply andb_true_iff in Hb. destruct Hb as (Hb1 & Hb2).
    simpl in Hin. apply in_flat_map in Hin. destruct Hin as (p1 & Hp1 & Hq).
    apply (IH1 Hb1) in Hp1. apply (IH2 Hb2) in Hq. simpl. lia.
  - cbn [min_len]. eapply rep_loop_min; [|  |exact Hin].
    + apply IH1. simpl in Hb. destruct max; [|exact Hb].
      apply andb_true_iff in Hb. apply Hb.
    + simpl in Hb. destruct max as [x|]; [|exact I].
      apply andb_true_iff in Hb. destruct Hb as (Hb & _). now apply Nat.leb_le.
  - simpl in Hin. destruct (run icase r1 p); [contradiction|].
    destruct Hin as [<-|[]]. simpl. lia.
  - simpl in Hin. destruct (xorb _ _); [|contradiction].
    destruct Hin as [<-|[]]. simpl. lia.
Qed.

Lemma length_string_of_list (m : list ascii) :
  String.length (string_of_list_ascii m) = List.length m.
Proof. induction m as [|c m IH]; simpl; [reflexivity | now rewrite IH]. Qed.

Lemma consumed_length (p q : pos) :
  remaining q <= remaining p ->
  List.length (consumed p q) = remaining p - remaining q.
Proof.
  intros H. unfold consumed. rewrite length_firstn. unfold remaining in *. lia.
Qed.

Lemma scan_min_len (icase : bool) (r : regex) (fuel : nat) :
  bounds_ok r = true ->
  forall p x, In x (scan icase r fuel p) -> min_len r <= String.length x.
Proof.
  intros Hb. induction fuel as [|fuel IH]; intros p x Hin; simpl in Hin;
    [contradiction|].
  destruct (run icase r p) as [|q qs] eqn:Hrun.
  - destruct (snd p) as [|c t]; [contradiction | eapply IH, Hin].
  - assert (Hq : remaining q + min_len r <= remaining p)
      by (apply (run_min_len icase r Hb); rewrite Hrun; now left).
    assert (Hhere : string_of_list_ascii (consumed p q) = x ->
                    min_len r <= String.length x).
    { intros <-. rewrite length_string_of_list, consumed_length; lia. }
    destruct (remaining q =? remaining p).
    + destruct (snd p) as [|c t].
      * destruct Hin as [H|[]]. auto.
      * destruct Hin as [H|H]; [auto | eapply IH, H].
    + destruct Hin as [H|H]; [auto | eapply IH, H].
Qed.

(** A candidate is text without a character of several bytes. *)
Lemma candidate_narrow (c : ascii) :
  cls_match true [("A", "Z"); ("0", "9"); ("-", "-")]%char c = true -> width c = 1.
Proof.
  destruct c as [[] [] [] [] [] [] [] []]; vm_compute; intros H;
    first [reflexivity | discriminate H].
Qed.

Lemma candidate_upper (ocrText x : string) :
  In x (candidates ocrText) ->
  toUpperCase x = string_of_list_ascii (map upper_char (list_ascii_of_string x)).
Proof.
  intros Hx. apply candidates_ascii in Hx. destruct Hx as (m & -> & Fm).
  rewrite list_ascii_of_string_of_list_ascii. apply toUpperCase_narrow.
  eapply Forall_impl; [|exact Fm]. exact candidate_narrow.
Qed.

(** X21.  Every hint is at least 4 characters long and written with the
    capital letters A to Z, the digits and the hyphen only. *)
Theorem X21_hint_shape (ocrText h : string) :
  In h (extractModelHints ocrText) ->
  4 <= String.length h
  /\ Forall (fun c => in_ranges [("A", "Z"); ("0", "9"); ("-", "-")]%char c = true)
       (list_ascii_of_string h).
Proof.
  intros Hin. rewrite hints_from_candidates in Hin.
  apply In_firstn, array_from_set_In, in_map_iff in Hin.
  destruct Hin as (x & <- & Hx). split.
  - rewrite (candidate_upper ocrText x Hx), length_string_of_list, length_map.
    rewrite <- (length_string_of_list (list_ascii_of_string x)).
    rewrite string_of_list_ascii_of_string.
    unfold candidates in Hx.
    apply in_app_or in Hx. destruct Hx as [Hx|Hx];
      [|apply in_app_or in Hx; destruct Hx as [Hx|Hx]];
      apply scan_min_len in Hx; try reflexivity; simpl in Hx; lia.
  - rewrite (candidate_upper ocrText x Hx).
    apply candidates_ascii in Hx. destruct Hx as (m & -> & Fm).
    rewrite !list_ascii_of_string_of_list_ascii.
    apply Forall_map. eapply Forall_impl; [|exact Fm].
    intros c. destruct c as [[] [] [] [] [] [] [] []]; vm_compute; intros H;
      first [reflexivity | discriminate H].
Qed.

Lemma X21_hint_shape_witness :
  4 <= String.length "SM-G991B"
  /\ Forall (fun c => in_ranges [("A", "Z"); ("0", "9"); ("-", "-")]%char c = true)
       (list_ascii_of_string "SM-G991B").
Proof.
  apply (X21_hint_shape "Model SM-G991B spare part 123456" "SM-G991B").
  vm_compute. auto.
Defined.

End HintCoverage.

(* ====================================================================== *)
(** * The intent endpoint: further properties *)
(* ====================================================================== *)

Section IntentCoverage.

Import Intent.

(** The model the handler asks for. *)
Definition asked_model (E : env) : string :=
  match OPENAI_MODEL E with
  | Some m => str_or m "gpt-4o-mini"
  | None => "gpt-4o-mini"
  end.

(** The request that the handler sends to the chat model. *)
Definition chat_request (E : env) (req : request) (sg : signals) : event :=
  EvChatCreate (asked_model E) system_prompt (user_prompt E req sg).

(** The answer of the chat model to that request. *)
Definition chat_answer (E : env) (req : request) (sg : signals)
  : result (option Vision.chat_completion) :=
  chat_create E (asked_model E) system_prompt (user_prompt E req sg).

(** The text of the reply that goes to [JSON.parse]. *)
Definition reply_raw (completion : option Vision.chat_completion) : string :=
  match Vision.first_content completion with
  | Some c => str_or (trim c) ""
  | None => ""
  end.

Definition is_number (v : jsval) : bool :=
  match v with VNum _ => true | _ => false end.

Definition failure_body (e : exn) : jsval :=
  VObj [("error", VStr (str_or (message e) "openai error"))].

Lemma str_or_truthy_r (s t : string) :
  str_truthy t = true -> str_truthy (str_or s t) = true.
Proof.
  intros H. unfold str_or. destruct (str_truthy s) eqn:Hs; [exact Hs | exact H].
Qed.

Lemma fallback_query_truthy (sg : signals) :
  str_truthy (fallback_query sg) = true.
Proof.
  unfold fallback_query. repeat apply str_or_truthy_r. reflexivity.
Qed.

Lemma default_query_truthy (sg : signals) :
  str_truthy (default_query sg) = true.
Proof.
  unfold default_query. repeat apply str_or_truthy_r. reflexivity.
Qed.

Lemma assoc_set_same (k : string) (v : jsval) (ps : list (string * jsval)) :
  assoc k (set_assoc k v ps) = v.
Proof.
  induction ps as [|[k' v'] ps IH]; simpl.
  - rewrite String.eqb_refl. reflexivity.
  - destruct (String.eqb k k') eqn:Hk; simpl.
    + rewrite String.eqb_refl. reflexivity.
    + rewrite Hk. exact IH.
Qed.

Lemma assoc_set_other (k k0 : string) (v : jsval) (ps : list (string * jsval)) :
  k0 <> k -> assoc k0 (set_assoc k v ps) = assoc k0 ps.
Proof.
  intros Hne. induction ps as [|[k' v'] ps IH]; simpl.
  - destruct (String.eqb k0 k) eqn:Hk; [|reflexivity].
    apply String.eqb_eq in Hk. contradiction.
  - destruct (String.eqb k k') eqn:Hk; simpl.
    + apply String.eqb_eq in Hk. subst k'.
      destruct (String.eqb k0 k) eqn:Hk0; [|reflexivity].
      apply String.eqb_eq in Hk0. contradiction.
    + destruct (String.eqb k0 k'); [reflexivity | exact IH].
Qed.

(** The three repairs of the handler on the properties of an object. *)
Definition repaired (sg : signals) (ps : list (string * jsval))
  : list (string * jsval) :=
  let ps1 := if truthy (assoc "intent" ps) then ps
             else set_assoc "intent" (VStr "clarify") ps in
  let ps2 := if is_number (assoc "confidence" ps1) then ps1
             else set_assoc "confidence" (VNum point_six) ps1 in
  if truthy (assoc "bestQuery" ps2) then ps2
  else set_assoc "bestQuery" (VStr (default_query sg)) ps2.

(** What [JSON.parse] and its [catch] leave in [parsed]. *)
Definition parsed_reply (E : env) (sg : signals)
    (completion : option Vision.chat_completion) : jsval :=
  match JSON_parse E (reply_raw completion) with
  | Some j => j
  | None => fallback_reply sg
  end.

(** The run of the handler once the signals are extracted and the chat
    model has answered, when [parsed] is an object. *)
Lemma api_intent_object (E : env) (req : request) (sg : signals)
    (completion : option Vision.chat_completion)
    (ps : list (string * jsval)) (t : trace) :
  extract_signals req t = (Ok sg, t) ->
  chat_answer E req sg = Ok completion ->
  parsed_reply E sg completion = VObj ps ->
  api_intent E req t =
    (Ok {| status := 200; body := VObj (repaired sg ps) |},
     t ++ [chat_request E req sg]).
Proof.
  intros Hsg Hchat Hparse.
  unfold api_intent, try_catch, bind. rewrite Hsg.
  unfold emit, modify, lift.
  unfold chat_answer, asked_model in Hchat. rewrite Hchat.
  unfold parsed_reply, reply_raw in Hparse. rewrite Hparse.
  unfold repaired, read, ret, chat_request, asked_model. cbn [get_prop set_prop].
  destruct (truthy (assoc "intent" ps)); cbn [get_prop set_prop].
  - destruct (assoc "confidence" ps) eqn:Hc; cbn [get_prop set_prop is_number];
      match goal with
      | |- context [truthy (assoc "bestQuery" ?l)] =>
          destruct (truthy (assoc "bestQuery" l)); reflexivity
      end.
  - destruct (assoc "confidence" (set_assoc "intent" (VStr "clarify") ps)) eqn:Hc;
      cbn [get_prop set_prop is_number];
      match goal with
      | |- context [truthy (assoc "bestQuery" ?l)] =>
          destruct (truthy (assoc "bestQuery" l)); reflexivity
      end.
Qed.

(** The [TypeError] of [.slice] on a [null] list of the body, and that of
    the first repair on a reply that is [null]. *)
Definition slice_error : exn := type_error_read VNull "slice".

Definition intent_error : exn := type_error_read VNull "intent".

Definition error_log (e : exn) : event := EvError "OpenAI intent error:" e.

(** The run of the handler once the signals are extracted and the chat
    model has answered. *)
Lemma api_intent_answered (E : env) (req : request) (sg : signals)
    (completion : option Vision.chat_completion) (t : trace) :
  extract_signals req t = (Ok sg, t) ->
  chat_answer E req sg = Ok completion ->
  api_intent E req t =
    match parsed_reply E sg completion with
    | VUndef =>
        (Ok {| status := 500;
               body := failure_body (type_error_read VUndef "intent") |},
         t ++ [chat_request E req sg]
           ++ [error_log (type_error_read VUndef "intent")])
    | VNull =>
        (Ok {| status := 500; body := failure_body intent_error |},
         t ++ [chat_request E req sg] ++ [error_log intent_error])
    | VObj ps =>
        (Ok {| status := 200; body := VObj (repaired sg ps) |},
         t ++ [chat_request E req sg])
    | j => (Ok {| status := 200; body := j |}, t ++ [chat_request E req sg])
    end.
Proof.
  intros Hsg Hchat.
  destruct (parsed_reply E sg completion) eqn:Hp;
    try (unfold parsed_reply in Hp;
         unfold api_intent, try_catch, bind; rewrite Hsg;
         unfold emit, modify, lift;
         unfold chat_answer, asked_model in Hchat; rewrite Hchat;
         unfold reply_raw in Hp; rewrite Hp;
         unfold chat_request, asked_model, error_log, failure_body, intent_error;
         unfold read, throw, ret; cbn [get_prop set_prop truthy];
         cbv beta iota; try rewrite <- app_assoc; reflexivity).
  apply (api_intent_object E req sg completion); assumption.
Qed.

(** The run of the handler when the chat request fails. *)
Lemma api_intent_refused (E : env) (req : request) (sg : signals) (e : exn)
    (t : trace) :
  extract_signals req t = (Ok sg, t) ->
  chat_answer E req sg = Throw e ->
  api_intent E req t =
    (Ok {| status := 500; body := failure_body e |},
     t ++ [chat_request E req sg] ++ [error_log e]).
Proof.
  intros Hsg Hchat.
  unfold api_intent, try_catch, bind. rewrite Hsg.
  unfold emit, modify, lift.
  unfold chat_answer, asked_model in Hchat. rewrite Hchat.
  unfold chat_request, asked_model, error_log, failure_body, ret.
  rewrite <- app_assoc. reflexivity.
Qed.

(** The signals are extracted without any effect, unless [labels] or
    [logos] is [null]. *)
Lemma extract_signals_cases (req : request) :
  (labels req <> Null /\ logos req <> Null /\
   exists sg, forall t, extract_signals req t = (Ok sg, t)) \/
  ((labels req = Null \/ logos req = Null) /\
   forall t, extract_signals req t = (Throw slice_error, t)).
Proof.
  unfold extract_signals, bind, array_field, ret, throw, slice_error.
  destruct (labels req) as [| |ls]; destruct (logos req) as [| |lg];
    try (right; split; [tauto | reflexivity]);
    left; (split; [discriminate|]); (split; [discriminate|]);
    eexists; intros t; reflexivity.
Qed.

(** The run of the handler when the signals cannot be extracted. *)
Lemma api_intent_rejected (E : env) (req : request) (t : trace) :
  extract_signals req t = (Throw slice_error, t) ->
  api_intent E req t =
    (Ok {| status := 500; body := failure_body slice_error |},
     t ++ [error_log slice_error]).
Proof.
  intros Hsg. unfold api_intent, try_catch, bind. rewrite Hsg. reflexivity.
Qed.

Lemma repaired_intent (sg : signals) (ps : list (string * jsval)) :
  assoc "intent" (repaired sg ps) =
  if truthy (assoc "intent" ps) then assoc "intent" ps else VStr "clarify".
Proof.
  unfold repaired.
  repeat match goal with
         | |- context [if ?c then _ else _] =>
             match c with
             | truthy (assoc "intent" ps) => fail 1
             | _ => destruct c eqn:?
             end
         end;
    repeat (rewrite assoc_set_other by discriminate);
    destruct (truthy (assoc "intent" ps)) eqn:Hi;
    repeat (rewrite assoc_set_other by discriminate);
    try rewrite assoc_set_same; reflexivity.
Qed.

Lemma repaired_confidence (sg : signals) (ps : list (string * jsval)) :
  assoc "confidence" (repaired sg ps) =
  if is_number (assoc "confidence" ps) then assoc "confidence" ps
  else VNum point_six.
Proof.
  unfold repaired.
  destruct (truthy (assoc "intent" ps)) eqn:Hi.
  - destruct (is_number (assoc "confidence" ps)) eqn:Hc.
    + destruct (truthy (assoc "bestQuery" ps));
        [|rewrite assoc_set_other by discriminate]; reflexivity.
    + destruct (truthy (assoc "bestQuery" _));
        [|rewrite assoc_set_other by discriminate];
        apply assoc_set_same.
  - rewrite (assoc_set_other "intent" "confidence") by discriminate.
    destruct (is_number (assoc "confidence" ps)) eqn:Hc.
    + destruct (truthy (assoc "bestQuery" _));
        [|rewrite assoc_set_other by discriminate];
        apply assoc_set_other; discriminate.
    + destruct (truthy (assoc "bestQuery" _));
        [|rewrite assoc_set_other by discriminate];
        apply assoc_set_same.
Qed.

Lemma repaired_bestQuery (sg : signals) (ps : list (string * jsval)) :
  assoc "bestQuery" (repaired sg ps) =
  if truthy (assoc "bestQuery" ps) then assoc "bestQuery" ps
  else VStr (default_query sg).
Proof.
  unfold repaired.
  set (ps1 := if truthy (assoc "intent" ps) then ps
              else set_assoc "intent" (VStr "clarify") ps).
  set (ps2 := if is_number (assoc "confidence" ps1) then ps1
              else set_assoc "confidence" (VNum point_six) ps1).
  assert (H2 : assoc "bestQuery" ps2 = assoc "bestQuery" ps).
  { unfold ps2, ps1.
    destruct (is_number _); destruct (truthy (assoc "intent" ps));
      repeat (rewrite assoc_set_other by discriminate); reflexivity. }
  destruct (truthy (assoc "bestQuery" ps2)) eqn:Hb.
  - rewrite H2 in Hb. rewrite Hb. exact H2.
  - rewrite H2 in Hb. rewrite Hb. apply assoc_set_same.
Qed.

Lemma repaired_other (sg : signals) (ps : list (string * jsval)) (k : string) :
  k <> "intent" -> k <> "confidence" -> k <> "bestQuery" ->
  assoc k (repaired sg ps) = assoc k ps.
Proof.
  intros Hi Hc Hb. unfold repaired.
  repeat match goal with
         | |- context [if ?c then _ else _] => destruct c
         end;
    repeat (rewrite assoc_set_other by assumption); reflexivity.
Qed.

(** A request body with no field but the two given, and environments for
    concrete runs. *)
Definition plain_request (ls : field (list label_item)) (so : option opinion)
  : request :=
  {| labels := ls; logos := Absent; webEntities := None; bestGuess := None;
     ocrText := None; modelHints := None; userPrompt := None;
     secondOpinion := so |}.

(** The reply text [{"intent":"buy"}] *)
Definition buy_reply : string :=
  String.append "{"
    (String.append (quoted "intent")
       (String.append ":" (String.append (quoted "buy") "}"))).

(** A parser stub: it knows [buy_reply], [null] and [42], and rejects every
    other text. *)
Definition parse_reply_stub (s : string) : option jsval :=
  if String.eqb s buy_reply then Some (VObj [("intent", VStr "buy")])
  else if String.eqb s "null" then Some VNull
  else if String.eqb s "42" then Some (VNum 42%float)
  else None.

Definition reply_env (chat : result (option Vision.chat_completion)) : env :=
  {| OPENAI_MODEL := None;
     chat_create := fun _ _ _ => chat;
     JSON_parse := parse_reply_stub;
     Number_toString := fun _ => "0" |}.

Definition dyson_opinion : opinion :=
  {| brand := Some "Dyson"; model := Some "V8"; product_type := None;
     confidence := None |}.

(** The signals of a request that carries [dyson_opinion] only. *)
Definition dyson_signals : signals :=
  {| labelList := ""; brandList := ""; entities := ""; hints := "";
     soBrand := "Dyson"; soModel := "V8"; soType := "";
     soConf := 0%float |}.

Definition completion_of (text : string) : option Vision.chat_completion :=
  Some {| Vision.choices :=
    Some [ {| Vision.choice_message :=
                Some {| Vision.content := Some text |} |} ] |}.

(** X22.  When the reply of the chat model is not JSON (or there is no
    reply text at all), the handler answers 200 with the fallback object
    [{intent: 'clarify', confidence: 0.6, bestQuery, followUp}] as it is:
    none of the three repairs touches it, and its [bestQuery] is never
    empty. *)
Theorem X22_intent_unparseable_reply (E : env) (req : request) (sg : signals)
    (completion : option Vision.chat_completion) (t : trace) :
  extract_signals req t = (Ok sg, t) ->
  chat_answer E req sg = Ok completion ->
  JSON_parse E (reply_raw completion) = None ->
  api_intent E req t =
    (Ok {| status := 200; body := fallback_reply sg |},
     t ++ [chat_request E req sg]) /\
  str_truthy (fallback_query sg) = true.
Proof.
  intros Hsg Hchat Hparse. split; [|apply fallback_query_truthy].
  rewrite (api_intent_answered E req sg completion t Hsg Hchat).
  unfold parsed_reply. rewrite Hparse. unfold fallback_reply at 1.
  unfold repaired.
  cbn [assoc String.eqb Ascii.eqb Bool.eqb truthy str_truthy is_number].
  rewrite (fallback_query_truthy sg). reflexivity.
Qed.

Lemma X22_intent_unparseable_reply_witness :
  api_intent (reply_env (chat_reply "It looks like a vacuum cleaner."))
    (plain_request Absent (Some dyson_opinion)) [] =
    (Ok {| status := 200;
           body := VObj [("intent", VStr "clarify");
                         ("confidence", VNum point_six);
                         ("bestQuery", VStr "Dyson V8");
                         ("followUp", VStr "Which exact product name/model?")] |},
     [] ++ [chat_request (reply_env (chat_reply "It looks like a vacuum cleaner."))
              (plain_request Absent (Some dyson_opinion)) dyson_signals]) /\
  str_truthy (fallback_query dyson_signals) = true.
Proof.
  apply (X22_intent_unparseable_reply
           (reply_env (chat_reply "It looks like a vacuum cleaner."))
           (plain_request Absent (Some dyson_opinion))
           dyson_signals
           (completion_of "It looks like a vacuum cleaner.")
           []); reflexivity.
Defined.

(** X23.  When the reply parses to an object, the handler answers 200 with
    that object repaired: [intent] and [bestQuery] are truthy and
    [confidence] is a number in the answer; each of the three that was
    already so is kept, and every other property of the reply is passed on
    unchanged. *)
Theorem X23_intent_object_reply_repaired (E : env) (req : request)
    (sg : signals) (completion : option Vision.chat_completion)
    (ps : list (string * jsval)) (t : trace) :
  extract_signals req t = (Ok sg, t) ->
  chat_answer E req sg = Ok completion ->
  JSON_parse E (reply_raw completion) = Some (VObj ps) ->
  exists ps',
    api_intent E req t =
      (Ok {| status := 200; body := VObj ps' |}, t ++ [chat_request E req sg]) /\
    truthy (assoc "intent" ps') = true /\
    is_number (assoc "confidence" ps') = true /\
    truthy (assoc "bestQuery" ps') = true /\
    (truthy (assoc "intent" ps) = true ->
     assoc "intent" ps' = assoc "intent" ps) /\
    (is_number (assoc "confidence" ps) = true ->
     assoc "confidence" ps' = assoc "confidence" ps) /\
    (truthy (assoc "bestQuery" ps) = true ->
     assoc "bestQuery" ps' = assoc "bestQuery" ps) /\
    (forall k, k <> "intent" -> k <> "confidence" -> k <> "bestQuery" ->
               assoc k ps' = assoc k ps).
Proof.
  intros Hsg Hchat Hparse. exists (repaired sg ps).
  split.
  { apply (api_intent_object E req sg completion ps t Hsg Hchat).
    unfold parsed_reply. rewrite Hparse. reflexivity. }
  rewrite repaired_intent, repaired_confidence, repaired_bestQuery.
  repeat split.
  - destruct (truthy (assoc "intent" ps)) eqn:H; [exact H | reflexivity].
  - destruct (is_number (assoc "confidence" ps)) eqn:H; [exact H | reflexivity].
  - destruct (truthy (assoc "bestQuery" ps)) eqn:H;
      [exact H | apply default_query_truthy].
  - intros H. rewrite H. reflexivity.
  - intros H. rewrite H. reflexivity.
  - intros H. rewrite H. reflexivity.
  - intros k. apply repaired_other.
Qed.

Lemma X23_intent_object_reply_repaired_witness :
  exists ps',
    api_intent (reply_env (chat_reply buy_reply))
      (plain_request Absent (Some dyson_opinion)) [] =
      (Ok {| status := 200; body := VObj ps' |},
       [] ++ [chat_request (reply_env (chat_reply buy_reply))
                (plain_request Absent (Some dyson_opinion)) dyson_signals]) /\
    truthy (assoc "intent" ps') = true /\
    is_number (assoc "confidence" ps') = true /\
    truthy (assoc "bestQuery" ps') = true /\
    (truthy (assoc "intent" [("intent", VStr "buy")]) = true ->
     assoc "intent" ps' = assoc "intent" [("intent", VStr "buy")]) /\
    (is_number (assoc "confidence" [("intent", VStr "buy")]) = true ->
     assoc "confidence" ps' = assoc "confidence" [("intent", VStr "buy")]) /\
    (truthy (assoc "bestQuery" [("intent", VStr "buy")]) = true ->
     assoc "bestQuery" ps' = assoc "bestQuery" [("intent", VStr "buy")]) /\
    (forall k, k <> "intent" -> k <> "confidence" -> k <> "bestQuery" ->
               assoc k ps' = assoc k [("intent", VStr "buy")]).
Proof.
  apply (X23_intent_object_reply_repaired
           (reply_env (chat_reply buy_reply))
           (plain_request Absent (Some dyson_opinion))
           dyson_signals (completion_of buy_reply)
           [("intent", VStr "buy")] []); reflexivity.
Defined.

(** X24.  A body whose [labels] or [logos] is [null] is answered 500 with
    the message of the [TypeError] that [.slice] raises on it, and the chat
    model is not asked: the only effect is the error log. *)
Theorem X24_intent_null_list (E : env) (req : request) (t : trace) :
  labels req = Null \/ logos req = Null ->
  api_intent E req t =
    (Ok {| status := 500;
           body := VObj [("error",
                          VStr "Cannot read properties of null (reading 'slice')")] |},
     t ++ [EvError "OpenAI intent error:"
             {| message := "Cannot read properties of null (reading 'slice')";
                response_status := None |}]).
Proof.
  intros H.
  change (api_intent E req t =
            (Ok {| status := 500; body := failure_body slice_error |},
             t ++ [error_log slice_error])).
  apply api_intent_rejected.
  destruct (extract_signals_cases req) as [[Hl [Hg _]] | [_ Hthrow]].
  - destruct H; contradiction.
  - apply Hthrow.
Qed.

Lemma X24_intent_null_list_witness :
  api_intent (reply_env (chat_reply buy_reply)) (plain_request Null None) [] =
    (Ok {| status := 500;
           body := VObj [("error",
                          VStr "Cannot read properties of null (reading 'slice')")] |},
     [] ++ [EvError "OpenAI intent error:"
              {| message := "Cannot read properties of null (reading 'slice')";
                 response_status := None |}]).
Proof.
  apply (X24_intent_null_list (reply_env (chat_reply buy_reply))
           (plain_request Null None) []).
  left. reflexivity.
Defined.

(** X25.  When the chat request fails, the handler answers 500 with the
    message of the failure (or ['openai error'] when it has none), after
    one chat request and one error log. *)
Theorem X25_intent_chat_failure (E : env) (req : request) (sg : signals)
    (e : exn) (t : trace) :
  extract_signals req t = (Ok sg, t) ->
  chat_answer E req sg = Throw e ->
  api_intent E req t =
    (Ok {| status := 500;
           body := VObj [("error", VStr (str_or (message e) "openai error"))] |},
     t ++ [chat_request E req sg] ++ [error_log e]).
Proof.
  intros Hsg Hchat. apply (api_intent_refused E req sg e t Hsg Hchat).
Qed.

Lemma X25_intent_chat_failure_witness :
  api_intent (reply_env (failure "")) (plain_request Absent (Some dyson_opinion)) [] =
    (Ok {| status := 500; body := VObj [("error", VStr "openai error")] |},
     [] ++ [chat_request (reply_env (failure ""))
              (plain_request Absent (Some dyson_opinion)) dyson_signals] ++
     [error_log {| message := ""; response_status := None |}]).
Proof.
  apply (X25_intent_chat_failure (reply_env (failure ""))
           (plain_request Absent (Some dyson_opinion)) dyson_signals
           {| message := ""; response_status := None |} []); reflexivity.
Defined.

(** X26.  A reply that is the JSON text [null] is not caught by the inner
    [catch]: the first repair throws on it and the handler answers 500 with
    the message of that [TypeError], after the chat request and one error
    log. *)
Theorem X26_intent_null_reply (E : env) (req : request) (sg : signals)
    (completion : option Vision.chat_completion) (t : trace) :
  extract_signals req t = (Ok sg, t) ->
  chat_answer E req sg = Ok completion ->
  JSON_parse E (reply_raw completion) = Some VNull ->
  api_intent E req t =
    (Ok {| status := 500;
           body := VObj [("error",
                          VStr "Cannot read properties of null (reading 'intent')")] |},
     t ++ [chat_request E req sg] ++
     [EvError "OpenAI intent error:"
        {| message := "Cannot read properties of null (reading 'intent')";
           response_status := None |}]).
Proof.
  intros Hsg Hchat Hparse.
  rewrite (api_intent_answered E req sg completion t Hsg Hchat).
  unfold parsed_reply. rewrite Hparse. reflexivity.
Qed.

Lemma X26_intent_null_reply_witness :
  api_intent (reply_env (chat_reply "null"))
    (plain_request Absent (Some dyson_opinion)) [] =
    (Ok {| status := 500;
           body := VObj [("error",
                          VStr "Cannot read properties of null (reading 'intent')")] |},
     [] ++ [chat_request (reply_env (chat_reply "null"))
              (plain_request Absent (Some dyson_opinion)) dyson_signals] ++
     [EvError "OpenAI intent error:"
        {| message := "Cannot read properties of null (reading 'intent')";
           response_status := None |}]).
Proof.
  apply (X26_intent_null_reply (reply_env (chat_reply "null"))
           (plain_request Absent (Some dyson_opinion)) dyson_signals
           (completion_of "null") []); reflexivity.
Defined.

(** A reply that is JSON but neither an object nor [null]. *)
Definition is_plain_value (v : jsval) : bool :=
  match v with
  | VBool _ | VNum _ | VStr _ | VArr _ => true
  | _ => false
  end.

(** X27.  A reply that parses to a number, a string, a boolean or an array
    is answered 200 as it is: the three repairs leave no trace in the
    answer, which then has no [intent], [confidence] or [bestQuery]. *)
Theorem X27_intent_plain_reply_unrepaired (E : env) (req : request)
    (sg : signals) (completion : option Vision.chat_completion) (j : jsval)
    (t : trace) :
  extract_signals req t = (Ok sg, t) ->
  chat_answer E req sg = Ok completion ->
  JSON_parse E (reply_raw completion) = Some j ->
  is_plain_value j = true ->
  api_intent E req t =
    (Ok {| status := 200; body := j |}, t ++ [chat_request E req sg]).
Proof.
  intros Hsg Hchat Hparse Hj.
  rewrite (api_intent_answered E req sg completion t Hsg Hchat).
  unfold parsed_reply. rewrite Hparse.
  destruct j; try discriminate Hj; reflexivity.
Qed.

Lemma X27_intent_plain_reply_unrepaired_witness :
  api_intent (reply_env (chat_reply "42"))
    (plain_request Absent (Some dyson_opinion)) [] =
    (Ok {| status := 200; body := VNum 42%float |},
     [] ++ [chat_request (reply_env (chat_reply "42"))
              (plain_request Absent (Some dyson_opinion)) dyson_signals]).
Proof.
  apply (X27_intent_plain_reply_unrepaired (reply_env (chat_reply "42"))
           (plain_request Absent (Some dyson_opinion)) dyson_signals
           (completion_of "42") (VNum 42%float) []); reflexivity.
Defined.

(** X28.  The handler always answers, with status 200 or 500, and asks the
    chat model at most once: a 200 follows exactly one chat request and no
    error log; a 500 carries an [error] message and follows one error log,
    preceded by at most one chat request. *)
Theorem X28_intent_always_answers (E : env) (req : request) (t : trace) :
  exists (r : http_response) (evs : list event),
    api_intent E req t = (Ok r, t ++ evs) /\
    ((status r = 200 /\ exists m s u, evs = [EvChatCreate m s u]) \/
     (status r = 500 /\
      exists e, body r = failure_body e /\
        (evs = [error_log e] \/
         exists m s u, evs = [EvChatCreate m s u] ++ [error_log e]))).
Proof.
  destruct (extract_signals_cases req) as [[_ [_ [sg Hsg]]] | [_ Hthrow]].
  - destruct (chat_answer E req sg) as [completion | e] eqn:Hchat.
    + rewrite (api_intent_answered E req sg completion t (Hsg t) Hchat).
      destruct (parsed_reply E sg completion);
        try (eexists; eexists; split; [reflexivity|];
             left; split; [reflexivity|];
             unfold chat_request; eexists; eexists; eexists; reflexivity);
        (eexists; eexists; split; [reflexivity|];
         right; split; [reflexivity|];
         eexists; split; [reflexivity|];
         right; unfold chat_request; eexists; eexists; eexists; reflexivity).
    + rewrite (api_intent_refused E req sg e t (Hsg t) Hchat).
      eexists; eexists; split; [reflexivity|].
      right; split; [reflexivity|].
      exists e; split; [reflexivity|].
      right; unfold chat_request; eexists; eexists; eexists; reflexivity.
  - rewrite (api_intent_rejected E req t (Hthrow t)).
    eexists; eexists; split; [reflexivity|].
    right; split; [reflexivity|].
    exists slice_error; split; [reflexivity|]. left; reflexivity.
Qed.

End IntentCoverage.
